(** * Crew orchestration core (crewai/crew.py)

    A shallow embedding of the [Crew] class: the construction-time
    validators, the dispatch loop shared by the sequential and the
    hierarchical process, the checkpoint log, replay, batch kickoff and
    the usage totals; followed by the properties established about them. *)

From Stdlib Require Import ZArith.
From stdpp Require Import base option list gmap strings.

Set Warnings "-register-all".

Open Scope nat_scope.

(** ** Data model *)

(** A tool as far as the crew is concerned: either a delegation capability
    addressed to a coworker (by role), or any other tool. *)
Inductive Tool : Type :=
  | DelegateTo (coworker : string)
  | OtherTool (name : string).

#[global] Instance Tool_eq_dec : EqDecision Tool.
Proof. solve_decision. Defined.

(** [BaseAgent].  [agent_id] is the frozen uuid of the object; [agent_tools]
    is [agent.tools]; [token_process] is what [agent._token_process
    .get_summary()] returns when the totals are read ([None] when the
    attribute is missing, the [hasattr] test of [calculate_usage_metrics]). *)
Record Agent : Type := mkAgent {
  agent_id : nat;
  role : string;
  allow_delegation : bool;
  agent_tools : list Tool;
  token_process : option (gmap string Z)
}.

#[global] Instance Agent_eq_dec : EqDecision Agent.
Proof. solve_decision. Defined.

(** [Task].  [context] holds the referenced task objects themselves, as in
    the source ([Optional[List[Task]]]; [None] and the empty list are both
    falsy and both are the empty list here).  [task_id] is the frozen uuid,
    one per object, so it also stands for the object identity [id(task)]. *)
Inductive Task : Type := mkTask {
  task_id : nat;
  description : string;
  expected_output : string;
  async_execution : bool;
  agent : option Agent;
  context : list Task;
  task_tools : list Tool
}.

Inductive Process : Type := sequential | hierarchical.

#[global] Instance Process_eq_dec : EqDecision Process.
Proof. solve_decision. Defined.

(** The fields of [Crew] the orchestration core reads.  [manager_llm] only
    matters through its truthiness; [max_rpm] is [Optional[int]]. *)
Record Crew : Type := mkCrew {
  tasks : list Task;
  agents : list Agent;
  process : Process;
  manager_llm : bool;
  manager_agent : option Agent;
  max_rpm : option Z
}.

(** *** Field-wise equality of tasks

    [self.tasks[j] == context_task] is pydantic's [__eq__], which compares
    the fields.  On the embedding this is structural equality, which
    [Task_eqb] decides ([Task_eqb_eq] below). *)
Fixpoint Task_eqb (a b : Task) : bool :=
  match a, b with
  | mkTask i1 d1 e1 s1 g1 c1 t1, mkTask i2 d2 e2 s2 g2 c2 t2 =>
      bool_decide (i1 = i2) && bool_decide (d1 = d2) && bool_decide (e1 = e2)
      && bool_decide (s1 = s2) && bool_decide (g1 = g2)
      && (fix go (l1 l2 : list Task) : bool :=
            match l1, l2 with
            | [], [] => true
            | x :: l1', y :: l2' => Task_eqb x y && go l1' l2'
            | _, _ => false
            end) c1 c2
      && bool_decide (t1 = t2)
  end.

(** The size of a task with the tasks nested in its context, the measure
    for reasoning about [Task_eqb]. *)
Fixpoint Task_size (t : Task) : nat :=
  S ((fix go (l : list Task) : nat :=
        match l with
        | [] => 0
        | x :: l' => Task_size x + go l'
        end) (context t)).

(** ** Errors and results *)

(** The exceptions the core raises or lets through.  The first group are
    the configuration errors of the validators; the second group are
    raised during a run or a replay; the last one is what [Crew(...)]
    raises inside [copy] when it is handed the dump of a manager. *)
Inductive Error : Type :=
  | missing_manager_llm_or_manager_agent
  | manager_agent_in_agents
  | missing_keys
  | missing_agent_in_task (task_description : string)
  | async_execution_in_hierarchical_process
  | async_task_count
  | async_context_error (task_description : string)
  | future_context_error (task_description context_description : string)
  | manager_should_not_have_tools
  | agent_failure (task_index : nat)
  | task_not_found (id : nat)
  | index_error
  | key_error (key : string)
  | attribute_error
  | more_than_one_output
  | manager_agent_not_rebuilt.

Inductive result (A : Type) : Type :=
  | Ok (a : A)
  | Err (e : Error).
Arguments Ok {A} a.
Arguments Err {A} e.

(** Sequencing with exception propagation, under stdpp's [x ← r; k]. *)
#[global] Instance result_bind : MBind result := λ A B k r,
  match r with
  | Ok a => k a
  | Err e => Err e
  end.

Definition is_ok {A : Type} (r : result A) : bool :=
  match r with Ok _ => true | Err _ => false end.

(** ** Construction-time validators *)

Definition check_manager_llm (c : Crew) : result Crew :=
  match process c with
  | hierarchical =>
      if negb (manager_llm c) && negb (bool_decide (is_Some (manager_agent c)))
      then Err missing_manager_llm_or_manager_agent
      else
        match manager_agent c with
        | Some m =>
            if bool_decide (m ∈ agents c) then Err manager_agent_in_agents
            else Ok c
        | None => Ok c
        end
  | sequential => Ok c
  end.

(** The [config] path ([_setup_from_config]) is not taken: crews are built
    from their [agents] and [tasks]. *)
Definition check_config (c : Crew) : result Crew :=
  match tasks c, agents c with
  | [], [] => Err missing_keys
  | _, _ => Ok c
  end.

Definition validate_tasks (c : Crew) : result Crew :=
  match process c with
  | sequential =>
      match List.find (λ t, bool_decide (agent t = None)) (tasks c) with
      | Some t => Err (missing_agent_in_task (description t))
      | None => Ok c
      end
  | hierarchical => Ok c
  end.

Definition check_tasks_in_hierarchical_process_not_async (c : Crew) : result Crew :=
  match process c with
  | hierarchical =>
      if existsb async_execution (tasks c)
      then Err async_execution_in_hierarchical_process
      else Ok c
  | sequential => Ok c
  end.

(** The backward traversal with its [break]: the number of asynchronous
    tasks at the head of the reversed list. *)
Fixpoint final_async_task_count (reversed_tasks : list Task) : nat :=
  match reversed_tasks with
  | [] => 0
  | task :: rest =>
      if async_execution task then S (final_async_task_count rest) else 0
  end.

Definition validate_end_with_at_most_one_async_task (c : Crew) : result Crew :=
  if bool_decide (1 < final_async_task_count (reverse (tasks c)))
  then Err async_task_count
  else Ok c.

(** The inner loop [for j in range(i - 1, -1, -1)] over the tasks before
    position [i], nearest first ([earlier] is [tasks[i-1], ..., tasks[0]]):
    [true] when the [raise] is reached, [false] on [break] or exhaustion. *)
Fixpoint scan_back (earlier : list Task) (context_task : Task) : bool :=
  match earlier with
  | [] => false
  | task_j :: rest =>
      if Task_eqb task_j context_task then true
      else if negb (async_execution task_j) then false
      else scan_back rest context_task
  end.

(** The body of the outer loop for the task at position [i]. *)
Definition async_context_raises (earlier : list Task) (task : Task) : bool :=
  async_execution task
  && negb (bool_decide (context task = []))
  && existsb (λ context_task,
                async_execution context_task && scan_back earlier context_task)
             (context task).

(** The outer loop [for i, task in enumerate(self.tasks)]; [earlier] holds
    the tasks already passed, nearest first.  Returns the first task for
    which the error is raised. *)
Fixpoint async_context_loop (earlier rest : list Task) : option Task :=
  match rest with
  | [] => None
  | task :: rest' =>
      if async_context_raises earlier task then Some task
      else async_context_loop (task :: earlier) rest'
  end.

Definition validate_async_task_cannot_include_sequential_async_tasks_in_context
    (c : Crew) : result Crew :=
  match async_context_loop [] (tasks c) with
  | Some task => Err (async_context_error (description task))
  | None => Ok c
  end.

(** [task_indices = {id(task): i for i, task in enumerate(self.tasks)}]:
    a later occurrence of a key replaces the earlier one. *)
Definition task_indices (ts : list Task) : gmap nat nat :=
  foldl (λ m it, <[task_id it.2 := it.1]> m) ∅ (imap (λ i t, (i, t)) ts).

(** The test on one context reference: [false] both for a reference that
    is skipped ([continue]) and for one that is not in the future. *)
Definition is_future_reference (indices : gmap nat nat) (task context_task : Task)
    : bool :=
  match indices !! task_id context_task with
  | None => false
  | Some context_index =>
      match indices !! task_id task with
      | Some index => bool_decide (index < context_index)
      | None => false
      end
  end.

Fixpoint future_context_loop (indices : gmap nat nat) (ts : list Task)
    : option (Task * Task) :=
  match ts with
  | [] => None
  | task :: rest =>
      match List.find (is_future_reference indices task) (context task) with
      | Some context_task => Some (task, context_task)
      | None => future_context_loop indices rest
      end
  end.

Definition validate_context_no_future_tasks (c : Crew) : result Crew :=
  match future_context_loop (task_indices (tasks c)) (tasks c) with
  | Some (task, context_task) =>
      Err (future_context_error (description task) (description context_task))
  | None => Ok c
  end.

(** Crew construction: the model validators run in the order in which the
    class defines them; the first one that raises aborts construction. *)
Definition construct (c : Crew) : result Crew :=
  c ← check_manager_llm c;
  c ← check_config c;
  c ← validate_tasks c;
  c ← check_tasks_in_hierarchical_process_not_async c;
  c ← validate_end_with_at_most_one_async_task c;
  c ← validate_async_task_cannot_include_sequential_async_tasks_in_context c;
  validate_context_no_future_tasks c.

(** ** Task results and the checkpoint log *)

(** [TaskOutput]; its [summary] is derived from the description by the
    class itself and is left out. *)
Record TaskOutput : Type := mkTaskOutput {
  output_description : string;
  raw : string;
  pydantic : option string;
  json_dict : option string;
  output_format : string;
  output_agent : string
}.

#[global] Instance TaskOutput_eq_dec : EqDecision TaskOutput.
Proof. solve_decision. Defined.

(** One entry of the execution log as [_store_execution_log] builds it
    (the wall-clock [timestamp] is left out). *)
Record LogEntry : Type := mkLogEntry {
  log_task_id : nat;
  log_expected_output : string;
  log_output : TaskOutput;
  log_task_index : nat;
  log_inputs : gmap string string;
  was_replayed : bool
}.

#[global] Instance LogEntry_eq_dec : EqDecision LogEntry.
Proof. solve_decision. Defined.

(** "Update the existing log or append if it's a new entry": the in-memory
    [self.execution_logs] branch of [_store_execution_log]. *)
Definition update_execution_logs (task_index : nat) (log : LogEntry)
    (logs : list LogEntry) : list LogEntry :=
  if bool_decide (task_index < length logs)
  then <[task_index := log]> logs
  else logs ++ [log].

(** Modelled from the spec: [TaskOutputJsonHandler.update] is not among the
    sources; the spec has it overwrite the entry at the position when there
    is one and append otherwise. *)
Definition file_update (task_index : nat) (log : LogEntry)
    (file : list LogEntry) : list LogEntry :=
  if bool_decide (task_index < length file)
  then <[task_index := log]> file
  else file ++ [log].

(** Modelled from the spec: [aggregate_raw_outputs_from_task_outputs] of
    [crewai.utilities.formatter] is not among the sources; the spec has it
    concatenate the raw outputs in order. *)
Definition aggregate_raw_outputs_from_task_outputs (task_outputs : list TaskOutput)
    : string :=
  String.concat "" (raw <$> task_outputs).

(** Modelled from the spec: [get_delegation_tools] of the agent classes is
    not among the sources; the spec has it wrap each addressable agent as a
    "delegate to X" capability. *)
Definition get_delegation_tools (targets : list Agent) : list Tool :=
  (λ a, DelegateTo (role a)) <$> targets.

(** ** Effects of a run *)

(** The calls a run makes on its collaborators, in the order it makes them. *)
Inductive Event : Type :=
  | ev_execute_sync (task_index : nat) (by_agent : option Agent)
      (context_text : string) (tools : list Tool)
  | ev_execute_async (task_index : nat) (by_agent : option Agent)
      (context_text : string) (tools : list Tool)
  | ev_future_result (task_index : nat)
  | ev_store_execution_log (task_index : nat) (log : LogEntry)
  | ev_stop_rpm_counter
  | ev_end_crew (final_string_output : string).

#[global] Instance Event_eq_dec : EqDecision Event.
Proof. solve_decision. Defined.

(** The mutable state a crew object and its tasks carry through a run,
    with the one file every crew logs to.

    - [_inputs] is [self._inputs];
    - [current_manager] is [self.manager_agent], with its current tools;
    - [usage_metrics] is [self.usage_metrics];
    - [execution_logs] is [self.execution_logs];
    - [output_file] is the content of [CREW_TASKS_OUTPUT_FILE];
    - [task_output] is the [output] slot of each task object, by task id;
    - [task_tools_now] is [task.tools] of the tasks whose tool list has
      been extended, by task id;
    - [events] is the trace of calls made so far. *)
Record State : Type := mkState {
  _inputs : option (gmap string string);
  current_manager : option Agent;
  usage_metrics : option (gmap string Z);
  execution_logs : list LogEntry;
  output_file : list LogEntry;
  task_output : gmap nat TaskOutput;
  task_tools_now : gmap nat (list Tool);
  events : list Event
}.

Definition set_inputs (v : option (gmap string string)) (s : State) : State :=
  mkState v (current_manager s) (usage_metrics s) (execution_logs s)
          (output_file s) (task_output s) (task_tools_now s) (events s).

Definition set_current_manager (v : option Agent) (s : State) : State :=
  mkState (_inputs s) v (usage_metrics s) (execution_logs s)
          (output_file s) (task_output s) (task_tools_now s) (events s).

Definition set_usage_metrics (v : option (gmap string Z)) (s : State) : State :=
  mkState (_inputs s) (current_manager s) v (execution_logs s)
          (output_file s) (task_output s) (task_tools_now s) (events s).

Definition set_execution_logs (v : list LogEntry) (s : State) : State :=
  mkState (_inputs s) (current_manager s) (usage_metrics s) v
          (output_file s) (task_output s) (task_tools_now s) (events s).

Definition set_output_file (v : list LogEntry) (s : State) : State :=
  mkState (_inputs s) (current_manager s) (usage_metrics s) (execution_logs s)
          v (task_output s) (task_tools_now s) (events s).

Definition set_task_output (v : gmap nat TaskOutput) (s : State) : State :=
  mkState (_inputs s) (current_manager s) (usage_metrics s) (execution_logs s)
          (output_file s) v (task_tools_now s) (events s).

Definition set_task_tools_now (v : gmap nat (list Tool)) (s : State) : State :=
  mkState (_inputs s) (current_manager s) (usage_metrics s) (execution_logs s)
          (output_file s) (task_output s) v (events s).

Definition emit (e : Event) (s : State) : State :=
  mkState (_inputs s) (current_manager s) (usage_metrics s) (execution_logs s)
          (output_file s) (task_output s) (task_tools_now s) (events s ++ [e]).

(** The outcome of a piece of a run: it returns, or it raises and leaves
    the state as it was when the exception left it. *)
Inductive run (A : Type) : Type :=
  | Done (a : A)
  | Raised (e : Error) (s : State).
Arguments Done {A} a.
Arguments Raised {A} e s.

#[global] Instance run_bind : MBind run := λ A B k r,
  match r with
  | Done a => k a
  | Raised e s => Raised e s
  end.

(** A pending asynchronous execution: what [future.result()] will give,
    [None] when the agent invocation fails. *)
Definition Future : Type := option TaskOutput.

(** The local variables of the dispatch loop with the state. *)
Record Loop : Type := mkLoop {
  task_outputs : list TaskOutput;
  futures : list (Task * Future * nat);
  state : State
}.

(** [CrewOutput]. *)
Record CrewOutput : Type := mkCrewOutput {
  crew_raw : string;
  crew_pydantic : option string;
  crew_json_dict : option string;
  tasks_output : list TaskOutput;
  token_usage : gmap string Z
}.

(** ** The execution engine *)

(** What the crew consumes from its collaborators.  [execute] is the agent
    capability behind both [task.execute_sync] and the future returned by
    [task.execute_async]: the result for an acting agent, a task, a context
    text and a tool set, [None] when the invocation fails.  [i18n_manager]
    is the manager the templates of [I18N] describe.  [agent_copy] is
    [agent.copy()]; [task_copy] is [task.copy(cloned_agents)], from the
    task as it is now and its result slot to the new task and its result
    slot.  [summary_keys] is the order in which the dict returned by
    [get_summary()] yields its keys. *)
Class Collaborators : Type := {
  execute : option Agent → Task → string → list Tool → option TaskOutput;
  i18n_manager : Agent;
  agent_copy : Agent → Agent;
  task_copy : list Agent → Task → option TaskOutput → Task * option TaskOutput;
  summary_keys : gmap string Z → list string;
  summary_keys_dict : ∀ m, summary_keys m ≡ₚ (map_to_list m).*1
}.

Definition set_agent_tools (v : list Tool) (a : Agent) : Agent :=
  mkAgent (agent_id a) (role a) (allow_delegation a) v (token_process a).

Definition set_allow_delegation (v : bool) (a : Agent) : Agent :=
  mkAgent (agent_id a) (role a) v (agent_tools a) (token_process a).

(** An agent object as it is now: the manager is the one agent the crew
    mutates, so a reference to the manager object reads its current
    fields. *)
Definition current_agent (s : State) (a : Agent) : Agent :=
  match current_manager s with
  | Some m => if bool_decide (agent_id m = agent_id a) then m else a
  | None => a
  end.

(** [task.tools] as it is now. *)
Definition current_task_tools (s : State) (task : Task) : list Tool :=
  default (task_tools task) (task_tools_now s !! task_id task).

Definition truthy_inputs (inputs : option (gmap string string)) : bool :=
  match inputs with
  | Some i => negb (bool_decide (i = ∅))
  | None => false
  end.

Definition truthy_max_rpm (c : Crew) : bool :=
  match max_rpm c with
  | Some n => negb (bool_decide (n = 0%Z))
  | None => false
  end.

Definition _store_execution_log (task : Task) (output : TaskOutput)
    (task_index : nat) (replayed : bool) (s : State) : State :=
  let inputs := if truthy_inputs (_inputs s)
                then default ∅ (_inputs s) else ∅ in
  let log := mkLogEntry (task_id task) (expected_output task) output
                        task_index inputs replayed in
  let s := set_execution_logs
             (update_execution_logs task_index log (execution_logs s)) s in
  let s := set_output_file (file_update task_index log (output_file s)) s in
  emit (ev_store_execution_log task_index log) s.

(** Modelled from the spec: [aggregate_raw_outputs_from_tasks] is not among
    the sources; the spec has it look up the current result of each
    referenced task and concatenate the raw outputs. *)
Definition aggregate_raw_outputs_from_tasks (s : State) (context_tasks : list Task)
    : string :=
  aggregate_raw_outputs_from_task_outputs
    (omap (λ t, task_output s !! task_id t) context_tasks).

Definition _set_context (s : State) (task : Task) (outs : list TaskOutput) : string :=
  match context task with
  | [] => aggregate_raw_outputs_from_task_outputs outs
  | _ :: _ => aggregate_raw_outputs_from_tasks s (context task)
  end.

(** Modelled from the spec: the task classes are not among the sources;
    executing a task fills its result slot. *)
Definition fill_task_output (task : Task) (output : TaskOutput) (s : State) : State :=
  set_task_output (<[task_id task := output]> (task_output s)) s.

(** [_process_async_tasks]: resolves the pending handles in the order of
    the list; a failed handle raises at its own position. *)
Fixpoint _process_async_tasks (pending : list (Task * Future * nat))
    (replayed : bool) (outs : list TaskOutput) (s : State)
    : run (list TaskOutput * State) :=
  match pending with
  | [] => Done (outs, s)
  | (future_task, future, task_index) :: rest =>
      let s := emit (ev_future_result task_index) s in
      match future with
      | None => Raised (agent_failure task_index) s
      | Some task_output =>
          let s := fill_task_output future_task task_output s in
          let s := _store_execution_log future_task task_output task_index
                                        replayed s in
          _process_async_tasks rest replayed (outs ++ [task_output]) s
      end
  end.

(** The worker-side delegation tools added to [task.tools]. *)
Definition add_worker_delegation (c : Crew) (task : Task) (s : State) : State :=
  match agent task with
  | Some a =>
      if allow_delegation (current_agent s a) then
        let agents_for_delegation :=
          List.filter (λ x, negb (bool_decide (x = current_agent s a))) (agents c) in
        if bool_decide (1 < length (agents c))
           && bool_decide (0 < length agents_for_delegation)
        then set_task_tools_now
               (<[task_id task :=
                    current_task_tools s task
                    ++ get_delegation_tools agents_for_delegation]>
                  (task_tools_now s)) s
        else s
      else s
  | None => s
  end.

(** The two assignments to the manager's tools under
    [if self.process == Process.hierarchical], in their order. *)
Definition wire_manager (c : Crew) (task : Task) (manager : option Agent)
    : option Agent :=
  match process c with
  | hierarchical =>
      let manager :=
        match agent task, manager with
        | Some a, Some m => Some (set_agent_tools (get_delegation_tools [a]) m)
        | _, _ => manager
        end in
      match manager with
      | Some m => Some (set_agent_tools (get_delegation_tools (agents c)) m)
      | None => None
      end
  | sequential => manager
  end.

Definition agent_to_use (s : State) (task : Task) (manager : option Agent)
    : option Agent :=
  match agent task with
  | Some a => Some (current_agent s a)
  | None => manager
  end.

Section Engine.
Context `{Collaborators}.

(** The flush at a synchronous task: [if futures: ...; futures.clear()]. *)
Definition flush (replayed : bool) (l : Loop) : run Loop :=
  match futures l with
  | [] => Done l
  | _ :: _ =>
      r ← _process_async_tasks (futures l) replayed [] (state l);
      Done (mkLoop r.1 [] r.2)
  end.

(** One iteration of the loop of [_execute_tasks]; [with_manager] tells
    whether the [manager] argument was given, in which case it is the
    object [self.manager_agent]. *)
Definition execute_task (c : Crew) (with_manager : bool) (task_index : nat)
    (task : Task) (l : Loop) : run Loop :=
  let s := add_worker_delegation c task (state l) in
  let s := if with_manager
           then set_current_manager (wire_manager c task (current_manager s)) s
           else s in
  let manager := if with_manager then current_manager s else None in
  let acting := agent_to_use s task manager in
  if async_execution task then
    let context_text := _set_context s task (task_outputs l) in
    match acting with
    | Some a =>
        let future := execute (Some a) task context_text (agent_tools a) in
        let s := emit (ev_execute_async task_index (Some a) context_text
                                        (agent_tools a)) s in
        Done (mkLoop (task_outputs l) (futures l ++ [(task, future, task_index)]) s)
    | None => Done (mkLoop (task_outputs l) (futures l) s)
    end
  else
    l ← flush false (mkLoop (task_outputs l) (futures l) s);
    let s := state l in
    let context_text := _set_context s task (task_outputs l) in
    match acting with
    | Some a =>
        let s := emit (ev_execute_sync task_index (Some a) context_text
                                       (agent_tools a)) s in
        match execute (Some a) task context_text (agent_tools a) with
        | None => Raised (agent_failure task_index) s
        | Some task_output =>
            let s := fill_task_output task task_output s in
            let s := _store_execution_log task task_output task_index false s in
            Done (mkLoop [task_output] (futures l) s)
        end
    | None => Done l
    end.

(** [for task_index, task in enumerate(...)], from position [task_index]. *)
Fixpoint run_tasks (step : nat → Task → Loop → run Loop)
    (task_index : nat) (ts : list Task) (l : Loop) : run Loop :=
  match ts with
  | [] => Done l
  | task :: rest =>
      l ← step task_index task l;
      run_tasks step (S task_index) rest l
  end.

Definition add_token_sum (total token_sum : gmap string Z) : gmap string Z :=
  foldl (λ tot key,
           <[key := (default 0 (tot !! key) + default 0 (token_sum !! key))%Z]> tot)
        total (map fst (map_to_list total)).

Definition usage_keys : list string :=
  ["total_tokens"; "prompt_tokens"; "completion_tokens"; "successful_requests"].

Definition zero_usage_metrics : gmap string Z :=
  list_to_map ((λ key, (key, 0%Z)) <$> usage_keys).

Definition calculate_usage_metrics (c : Crew) (s : State) : gmap string Z :=
  let total :=
    foldl (λ tot a,
             match token_process a with
             | Some token_sum => add_token_sum tot token_sum
             | None => tot
             end)
          zero_usage_metrics (agents c) in
  match current_manager s with
  | Some m =>
      match token_process m with
      | Some token_sum => add_token_sum total token_sum
      | None => total
      end
  | None => total
  end.

Definition _finish_execution (c : Crew) (final_string_output : string) (s : State)
    : State :=
  let s := if truthy_max_rpm c then emit ev_stop_rpm_counter s else s in
  emit (ev_end_crew final_string_output) s.

Definition crew_output (c : Crew) (final_task_output : TaskOutput) (s : State)
    : CrewOutput :=
  mkCrewOutput (raw final_task_output) (pydantic final_task_output)
    (json_dict final_task_output)
    (omap (λ t, task_output s !! task_id t) (tasks c))
    (calculate_usage_metrics c s).

(** The part of [_execute_tasks] after the loop: the flush of what is still
    pending, then [task_outputs[0]]. *)
Definition finish_tasks (c : Crew) (replayed : bool) (l : Loop)
    : run (CrewOutput * State) :=
  l ← flush replayed l;
  match task_outputs l with
  | [] => Raised index_error (state l)
  | final_task_output :: _ =>
      let s := _finish_execution c (raw final_task_output) (state l) in
      Done (crew_output c final_task_output s, s)
  end.

Definition _execute_tasks (c : Crew) (with_manager : bool) (s : State)
    : run (CrewOutput * State) :=
  l ← run_tasks (execute_task c with_manager) 0 (tasks c) (mkLoop [] [] s);
  (* the final flush keeps the list it was given: no [futures.clear()] *)
  finish_tasks c false l.

Definition _run_sequential_process (c : Crew) (s : State)
    : run (CrewOutput * State) :=
  _execute_tasks c false (set_execution_logs [] s).

(** The manager set-up shared by [_create_manager_agent] and
    [_run_hierarchical_process]. *)
Definition _create_manager_agent (c : Crew) (s : State) : run State :=
  match current_manager s with
  | Some m =>
      let m := set_allow_delegation true m in
      if bool_decide (0 < length (agent_tools m))
      then Raised manager_should_not_have_tools (set_current_manager (Some m) s)
      else Done (set_current_manager
                   (Some (set_agent_tools (get_delegation_tools (agents c)) m)) s)
  | None =>
      (* AgentTools(agents=self.agents).tools(): the delegation tools over
         the workers, as the agent classes build them *)
      Done (set_current_manager
            (Some (set_agent_tools (get_delegation_tools (agents c)) i18n_manager))
            s)
  end.

Definition _run_hierarchical_process (c : Crew) (s : State)
    : run (CrewOutput * State) :=
  s ← _create_manager_agent c (set_execution_logs [] s);
  _execute_tasks c true s.

(** The totals [kickoff] stores in [self.usage_metrics]:
    [{key: sum([m[key] for m in metrics if m is not None]) for key in metrics[0]}]
    over the summaries of [self.agents]. *)
Fixpoint get_summaries (ags : list Agent) : result (list (gmap string Z)) :=
  match ags with
  | [] => Ok []
  | a :: rest =>
      match token_process a with
      | None => Err attribute_error
      | Some m => ms ← get_summaries rest; Ok (m :: ms)
      end
  end.

Fixpoint sum_key (key : string) (metrics : list (gmap string Z)) : result Z :=
  match metrics with
  | [] => Ok 0%Z
  | m :: rest =>
      match m !! key with
      | None => Err (key_error key)
      | Some v => r ← sum_key key rest; Ok (v + r)%Z
      end
  end.

(** The dict comprehension, key by key in the order of the keys: the
    first key some summary lacks raises. *)
Fixpoint usage_comprehension (keys : list string) (metrics : list (gmap string Z))
    : result (gmap string Z) :=
  match keys with
  | [] => Ok ∅
  | key :: rest =>
      v ← sum_key key metrics;
      usage ← usage_comprehension rest metrics;
      Ok (<[key := v]> usage)
  end.

Definition kickoff_usage_metrics (ags : list Agent) : result (gmap string Z) :=
  metrics ← get_summaries ags;
  match metrics with
  | [] => Err index_error
  | m0 :: _ => usage_comprehension (summary_keys m0) metrics
  end.

(** [kickoff].  The interpolation of the inputs into the texts of tasks and
    agents and the set-up of the agent executors belong to the task and
    agent classes and are left out. *)
Definition kickoff (c : Crew) (inputs : option (gmap string string)) (s : State)
    : run (CrewOutput * State) :=
  (* initialize_file(); reset() *)
  let s := set_output_file [] s in
  let s := match inputs with
           | Some i => set_inputs (Some i) s
           | None => s
           end in
  r ← match process c with
      | sequential => _run_sequential_process c s
      | hierarchical => _run_hierarchical_process c s
      end;
  match kickoff_usage_metrics (agents c) with
  | Ok usage => Done (r.1, set_usage_metrics (Some usage) r.2)
  | Err e => Raised e r.2
  end.

(** A task as it is now: [task.tools] holds what the runs have added. *)
Definition task_now (s : State) (t : Task) : Task :=
  mkTask (task_id t) (description t) (expected_output t) (async_execution t)
         (agent t) (context t) (current_task_tools s t).

(** [copy].  The agents and the tasks are cloned by [agent.copy()] and
    [task.copy(cloned_agents)].  The fields of the crew are dumped, [None]
    values dropped, and handed to [Crew(...)] with the clones, which runs
    the validators again.  [manager_agent] is among the dumped fields: a
    manager comes back as a dict, from which [Crew(...)] cannot rebuild a
    [BaseAgent], so a crew that holds a manager cannot be copied.  The
    clone has the [usage_metrics] and the [execution_logs] of the crew and
    fresh private attributes; its agents and tasks are new objects, with
    the tools and the result slots [task.copy] gave them; the file named
    by [CREW_TASKS_OUTPUT_FILE] is the same file. *)
Definition copy (c : Crew) (s : State) : run (Crew * State) :=
  let cloned_agents := agent_copy <$> agents c in
  let cloned_tasks :=
    (λ t, task_copy cloned_agents (task_now s t) (task_output s !! task_id t))
      <$> tasks c in
  match current_manager s with
  | Some _ => Raised manager_agent_not_rebuilt s
  | None =>
      match construct (mkCrew (fst <$> cloned_tasks) cloned_agents (process c)
                              (manager_llm c) None (max_rpm c)) with
      | Err e => Raised e s
      | Ok copied_crew =>
          Done (copied_crew,
                mkState None None (usage_metrics s) (execution_logs s)
                        (output_file s)
                        (list_to_map
                           (omap (λ p, (λ o, (task_id p.1, o)) <$> p.2) cloned_tasks))
                        ∅ [])
      end
  end.

Definition truthy_usage (usage : option (gmap string Z)) : bool :=
  match usage with
  | Some m => negb (bool_decide (m = ∅))
  | None => false
  end.

(** The loop of [kickoff_for_each].  Besides the results it returns the
    crew copies as each was left by its run; [s] is the state of the
    original crew, whose [output_file] is the one file all crews use. *)
Fixpoint kickoff_for_each_loop (c : Crew) (inputs : list (gmap string string))
    (results : list CrewOutput) (copies : list State)
    (total_usage_metrics : gmap string Z) (s : State)
    : run (list CrewOutput * list State * gmap string Z * State) :=
  match inputs with
  | [] => Done (results, copies, total_usage_metrics, s)
  | input_data :: rest =>
      crew ← copy c s;
      match kickoff crew.1 (Some input_data) crew.2 with
      | Raised e crew_state => Raised e (set_output_file (output_file crew_state) s)
      | Done r =>
          let total_usage_metrics :=
            if truthy_usage (usage_metrics r.2)
            then add_token_sum total_usage_metrics (default ∅ (usage_metrics r.2))
            else total_usage_metrics in
          kickoff_for_each_loop c rest (results ++ [r.1]) (copies ++ [r.2])
            total_usage_metrics (set_output_file (output_file r.2) s)
      end
  end.

Definition kickoff_for_each (c : Crew) (inputs : list (gmap string string))
    (s : State) : run (list CrewOutput * list State * State) :=
  r ← kickoff_for_each_loop c inputs [] [] zero_usage_metrics s;
  Done (r.1.1.1, r.1.1.2, set_usage_metrics (Some r.1.2) r.2).

(** ** Replay *)

Definition _find_task_index (id : nat) (stored_outputs : list LogEntry)
    : option nat :=
  fst <$> list_find (λ d, log_task_id d = id) stored_outputs.

(** One iteration of the loop of [replay_from_task]. *)
Definition replay_task (c : Crew) (stored_outputs : list LogEntry)
    (start_index task_index : nat) (task : Task) (l : Loop) : run Loop :=
  if bool_decide (task_index < start_index) then
    match stored_outputs !! task_index with
    | None => Raised index_error (state l)
    | Some entry =>
        let stored_output := log_output entry in
        let task_output :=
          mkTaskOutput (output_description stored_output) (raw stored_output)
            (pydantic stored_output) (json_dict stored_output)
            (output_format stored_output) (output_agent stored_output) in
        Done (mkLoop [task_output] (futures l)
                     (fill_task_output task task_output (state l)))
    end
  else
    let s := add_worker_delegation c task (state l) in
    let s := set_current_manager (wire_manager c task (current_manager s)) s in
    let acting := agent_to_use s task (current_manager s) in
    let tools := current_task_tools s task in
    if async_execution task then
      let context_text := _set_context s task (task_outputs l) in
      let future := execute acting task context_text tools in
      let s := emit (ev_execute_async task_index acting context_text tools) s in
      Done (mkLoop (task_outputs l) (futures l ++ [(task, future, task_index)]) s)
    else
      l ← flush true (mkLoop (task_outputs l) (futures l) s);
      let s := state l in
      let context_text := _set_context s task (task_outputs l) in
      let s := emit (ev_execute_sync task_index acting context_text tools) s in
      match execute acting task context_text tools with
      | None => Raised (agent_failure task_index) s
      | Some task_output =>
          let s := fill_task_output task task_output s in
          let s := _store_execution_log task task_output task_index true s in
          Done (mkLoop [task_output] (futures l) s)
      end.

(** The inputs of a replay: those passed, else those of the matched entry. *)
Definition replay_inputs (inputs : option (gmap string string))
    (stored_outputs : list LogEntry) (start_index : nat) : gmap string string :=
  match inputs with
  | Some i => i
  | None => default ∅ (log_inputs <$> stored_outputs !! start_index)
  end.

(** The part of [replay_from_task] after the loop. *)
Definition finish_replay (c : Crew) (l : Loop) : run (CrewOutput * State) :=
  l ← flush true l;
  match task_outputs l with
  | [final_task_output] =>
      let s := _finish_execution c (raw final_task_output) (state l) in
      Done (crew_output c final_task_output s, s)
  | _ => Raised more_than_one_output (state l)
  end.

Definition replay_from_task (c : Crew) (id : nat)
    (inputs : option (gmap string string)) (s : State)
    : run (CrewOutput * State) :=
  let stored_outputs := output_file s in
  match _find_task_index id stored_outputs with
  | None => Raised (task_not_found id) s
  | Some start_index =>
      let s := set_inputs
                 (Some (replay_inputs inputs stored_outputs start_index)) s in
      s ← match process c with
          | hierarchical => _create_manager_agent c s
          | sequential => Done s
          end;
      l ← run_tasks (replay_task c stored_outputs start_index) 0 (tasks c)
                    (mkLoop [] [] s);
      finish_replay c l
  end.

(** The state of a crew object right after construction. *)
Definition initial_state (c : Crew) : State :=
  mkState None (manager_agent c) None [] [] ∅ ∅ [].

End Engine.

(** ** Sample crews *)

(** Three agents that report no usage. *)
Definition researcher : Agent := mkAgent 1 "Researcher" false [] (Some ∅).

Definition writer : Agent := mkAgent 2 "Writer" false [] (Some ∅).

Definition supervisor : Agent := mkAgent 3 "Supervisor" true [] (Some ∅).

(** The summary of an agent with the four counters set. *)
Definition usage_of (total prompt completion requests : Z) : gmap string Z :=
  list_to_map [("total_tokens", total); ("prompt_tokens", prompt);
               ("completion_tokens", completion); ("successful_requests", requests)].

Definition with_usage (usage : gmap string Z) (a : Agent) : Agent :=
  mkAgent (agent_id a) (role a) (allow_delegation a) (agent_tools a) (Some usage).

Definition simple_task (id : nat) (text : string) (is_async : bool)
    (by_agent : option Agent) (ctx : list Task) : Task :=
  mkTask id text "a report" is_async by_agent ctx [].

Definition sequential_crew (ts : list Task) : Crew :=
  mkCrew ts [researcher; writer] sequential false None None.

Definition hierarchical_crew (ts : list Task) (workers : list Agent) : Crew :=
  mkCrew ts workers hierarchical false (Some supervisor) None.

(** Collaborators for the sample runs: every invocation succeeds and
    returns the description of the task between brackets. *)
Definition echo_output (acting : option Agent) (task : Task) (context_text : string)
    : TaskOutput :=
  mkTaskOutput (description task)
    ("[" +:+ description task +:+ "]") None None "raw"
    (match acting with Some a => role a | None => "None" end).

Definition default_manager : Agent := mkAgent 0 "Crew Manager" true [] (Some ∅).

(** In the sample runs a copy of an agent or of a task has the fields of
    the original, and a summary yields its keys in the order of the map. *)
Definition map_order (m : gmap string Z) : list string := (map_to_list m).*1.

Lemma map_order_dict (m : gmap string Z) : map_order m ≡ₚ (map_to_list m).*1.
Proof. done. Qed.

Definition echo_agents : Collaborators :=
  {| execute := λ acting task context_text _, Some (echo_output acting task context_text);
     i18n_manager := default_manager;
     agent_copy := λ a, a;
     task_copy := λ _ t o, (t, o);
     summary_keys := map_order;
     summary_keys_dict := map_order_dict |}.

(** The same, except that the invocation for the task with uuid [id]
    fails. *)
Definition failing_at (id : nat) : Collaborators :=
  {| execute := λ acting task context_text _,
       if bool_decide (task_id task = id) then None
       else Some (echo_output acting task context_text);
     i18n_manager := default_manager;
     agent_copy := λ a, a;
     task_copy := λ _ t o, (t, o);
     summary_keys := map_order;
     summary_keys_dict := map_order_dict |}.

(** * Statements

    The conditions the properties below are stated with. *)

(** An asynchronous task at position [i] lists an asynchronous task that
    sits at an earlier position [j], and no synchronous task lies strictly
    between the two positions. *)
Definition async_context_violation (ts : list Task) : Prop :=
  ∃ (i j : nat) (t c : Task),
    ts !! i = Some t ∧ async_execution t = true ∧
    c ∈ context t ∧ async_execution c = true ∧
    j < i ∧ ts !! j = Some c ∧
    ∀ (k : nat) (tk : Task), j < k < i → ts !! k = Some tk → async_execution tk = true.

(** A context reference of the task at position [i] to the task at a later
    position [j] (the same object: the same uuid). *)
Definition forward_reference (ts : list Task) : Prop :=
  ∃ (i j : nat) (t x y : Task),
    ts !! i = Some t ∧ x ∈ context t ∧
    ts !! j = Some y ∧ task_id y = task_id x ∧ i < j.

(** Some context reference does not point to a task of the list at a
    position strictly before the referencing task. *)
Definition reference_not_strictly_before (ts : list Task) : Prop :=
  ∃ (i : nat) (t x : Task),
    ts !! i = Some t ∧ x ∈ context t ∧
    ¬ ∃ (j : nat) (y : Task), j < i ∧ ts !! j = Some y ∧ task_id y = task_id x.

Definition outside_task : Task := simple_task 99 "elsewhere" false (Some writer) [].

Definition crew_with_outside_reference : Crew :=
  sequential_crew [simple_task 10 "summarise" false (Some researcher) [outside_task]].

Definition crew_with_forward_reference : Crew :=
  let later := simple_task 11 "collect" false (Some writer) [] in
  sequential_crew [simple_task 10 "summarise" false (Some researcher) [later]; later].

(** The position of the task an event dispatches, if it is a dispatch. *)
Definition dispatch_index (ev : Event) : option nat :=
  match ev with
  | ev_execute_sync i _ _ _ | ev_execute_async i _ _ _ => Some i
  | _ => None
  end.

(** The context text an event hands to an agent, if it is a dispatch. *)
Definition dispatch_context (ev : Event) : option string :=
  match ev with
  | ev_execute_sync _ _ ctx _ | ev_execute_async _ _ ctx _ => Some ctx
  | _ => None
  end.

(** The events the dispatch loop can produce from position [n] on: no
    dispatch below [n], and nothing of [_finish_execution]. *)
Definition loop_event (n : nat) (ev : Event) : Prop :=
  match ev with
  | ev_execute_sync i _ _ _ | ev_execute_async i _ _ _ => n ≤ i
  | ev_future_result _ | ev_store_execution_log _ _ => True
  | ev_stop_rpm_counter | ev_end_crew _ => False
  end.

(** How often the rate limiter was stopped in a trace. *)
Definition stop_count (evs : list Event) : nat :=
  length (filter (λ ev, ev = ev_stop_rpm_counter) evs).
Arguments stop_count : simpl never.

(** [s'] continues [s]: the inputs of the crew are the same and the trace
    has grown by events that satisfy [P]. *)
Definition continues (P : Event → Prop) (s s' : State) : Prop :=
  _inputs s' = _inputs s ∧
  ∃ new, events s' = events s ++ new ∧ Forall P new.

(** The state a piece of a run ends in, whether it returns or raises. *)
Definition end_state {A : Type} (state_of : A → State) (r : run A) : State :=
  match r with
  | Done a => state_of a
  | Raised _ s => s
  end.

(** The errors the dispatch loop itself can raise. *)
Definition loop_error (e : Error) : Prop :=
  match e with
  | agent_failure _ | index_error => True
  | _ => False
  end.

Definition raises_only {A : Type} (Q : Error → Prop) (r : run A) : Prop :=
  match r with
  | Done _ => True
  | Raised e _ => Q e
  end.

(** What a run of the loops does to the number of stops: one more (under a
    rate limit) when it returns, none when it raises. *)
Definition stops_once_on_return (c : Crew) (s : State) (r : run (CrewOutput * State))
    : Prop :=
  match r with
  | Done (_, s') =>
      stop_count (events s')
      = stop_count (events s) + (if truthy_max_rpm c then 1 else 0)
  | Raised e s' =>
      stop_count (events s') = stop_count (events s)
  end.

(** A sequential crew under a rate limit. *)
Definition rate_limited_crew (ts : list Task) : Crew :=
  mkCrew ts [researcher; writer] sequential false None (Some 10%Z).

Definition task_A : Task := simple_task 10 "A" false (Some researcher) [].
Definition task_B : Task := simple_task 11 "B" false (Some writer) [].
Definition task_C : Task := simple_task 12 "C" false (Some researcher) [].
Definition async_A : Task := simple_task 10 "A" true (Some researcher) [].
Definition async_B : Task := simple_task 11 "B" true (Some writer) [].

(** Two asynchronous tasks followed by a synchronous one. *)
Definition barrier_crew : Crew := sequential_crew [async_A; async_B; task_C].

(** An asynchronous task that lists the asynchronous task right before it,
    and the same with a synchronous task between the two. *)
Definition async_B_after_A : Task := simple_task 11 "B" true (Some writer) [async_A].

Definition crew_with_async_context : Crew :=
  sequential_crew [async_A; async_B_after_A; task_C].

Definition crew_with_separated_async_context : Crew :=
  sequential_crew [async_A; task_C; async_B_after_A].

(** The state in which a finished kickoff of three synchronous tasks
    leaves the crew, from which a replay can start. *)
Definition three_task_crew : Crew := sequential_crew [task_A; task_B; task_C].

(** The statement that every dispatch of a trace is handed the
    concatenation of the raw outputs of all the results logged before it;
    [flushed] holds the raw outputs logged so far. *)
Fixpoint contexts_hold_all_flushed (flushed : list string) (evs : list Event) : bool :=
  match evs with
  | [] => true
  | ev_store_execution_log _ log :: rest =>
      contexts_hold_all_flushed (flushed ++ [raw (log_output log)]) rest
  | ev_execute_sync _ _ ctx _ :: rest | ev_execute_async _ _ ctx _ :: rest =>
      bool_decide (ctx = String.concat "" flushed)
      && contexts_hold_all_flushed flushed rest
  | _ :: rest => contexts_hold_all_flushed flushed rest
  end.

(** The rolling result list as a task finds it when it is dispatched: an
    asynchronous task reads the list as it is, a synchronous task first
    replaces it by the results of the pending handles, if there are any. *)
Definition rolling_at_dispatch (task : Task) (l : Loop) : list TaskOutput :=
  if async_execution task then task_outputs l
  else match futures l with
       | [] => task_outputs l
       | pending => omap (λ p, p.1.2) pending
       end.






(** Two input sets for a batch. *)
Definition inputs_x : gmap string string := {[ "topic" := "x" ]}.
Definition inputs_y : gmap string string := {[ "topic" := "y" ]}.


(** What an agent reports for a usage field: [token_sum.get(key, 0)], and
    nothing for an agent without counters. *)
Definition reported (a : Agent) (key : string) : Z :=
  match token_process a with
  | Some token_sum => default 0%Z (token_sum !! key)
  | None => 0%Z
  end.

Definition sum_reported (ags : list Agent) (key : string) : Z :=
  foldr (λ a acc, (reported a key + acc)%Z) 0%Z ags.

(** A hierarchical crew whose workers and manager report usage, with one
    task left to the manager. *)
Definition counting_manager : Agent := with_usage (usage_of 5 3 2 1) supervisor.

Definition managed_crew : Crew :=
  mkCrew [simple_task 10 "A" false None []]
         [with_usage (usage_of 10 6 4 1) researcher;
          with_usage (usage_of 7 5 2 1) writer]
         hierarchical false (Some counting_manager) None.

(** A hierarchical crew with a task assigned to an agent that is not one of
    the workers of the crew. *)
Definition crew_with_outside_agent : Crew :=
  hierarchical_crew [simple_task 10 "draft" false (Some writer) []] [researcher].

(** The capability to delegate to an agent is in a tool set. *)
Definition can_delegate_to (tools : list Tool) (a : Agent) : Prop :=
  DelegateTo (role a) ∈ tools.

(** ** Further statements *)

(** The task list ends with two asynchronous tasks. *)
Definition trailing_async_pair (ts : list Task) : Prop :=
  ∃ (earlier : list Task) (a b : Task),
    ts = earlier ++ [a; b] ∧ async_execution a = true ∧ async_execution b = true.

(** The rules of the seven validators, as conditions on the crew. *)
Definition well_formed_crew (c : Crew) : Prop :=
  (process c = hierarchical →
     (manager_llm c = true ∨ is_Some (manager_agent c)) ∧
     (∀ m, manager_agent c = Some m → m ∉ agents c) ∧
     Forall (λ t, async_execution t = false) (tasks c)) ∧
  (tasks c ≠ [] ∨ agents c ≠ []) ∧
  (process c = sequential → Forall (λ t, is_Some (agent t)) (tasks c)) ∧
  ¬ trailing_async_pair (tasks c) ∧
  ¬ async_context_violation (tasks c) ∧
  ¬ forward_reference (tasks c).

(** Pending handles that have all succeeded, from their tasks, results and
    positions. *)
Definition resolved (done : list (Task * TaskOutput * nat))
    : list (Task * Future * nat) :=
  (λ x, (x.1.1, Some x.1.2, x.2)) <$> done.

(** What the flush does with one resolved handle. *)
Definition log_resolved (replayed : bool) (s : State) (x : Task * TaskOutput * nat)
    : State :=
  _store_execution_log x.1.1 x.1.2 x.2 replayed
    (fill_task_output x.1.1 x.1.2 (emit (ev_future_result x.2) s)).

(** The position an event writes in the log, if it is a log write. *)
Definition store_index (ev : Event) : option nat :=
  match ev with
  | ev_store_execution_log i _ => Some i
  | _ => None
  end.

(** The inputs [_store_execution_log] records. *)
Definition logged_inputs (s : State) : gmap string string :=
  if truthy_inputs (_inputs s) then default ∅ (_inputs s) else ∅.

(** The log entries of resolved handles. *)
Definition entries_of (replayed : bool) (inputs : gmap string string)
    (done : list (Task * TaskOutput * nat)) : list LogEntry :=
  (λ x, mkLogEntry (task_id x.1.1) (expected_output x.1.1) x.1.2 x.2 inputs replayed)
    <$> done.

(** The events of a flush that writes the given entries. *)
Definition flush_events (entries : list LogEntry) : list Event :=
  entries ≫= λ e, [ev_future_result (log_task_index e);
                   ev_store_execution_log (log_task_index e) e].

(** There is an agent for each of the tasks: every task has one of its
    own, or a manager was passed and is there. *)
Definition acting_agent_available (with_manager : bool) (s : State)
    (ts : list Task) : Prop :=
  Forall (λ t, is_Some (agent t)) ts
  ∨ (with_manager = true ∧ is_Some (current_manager s)).

(** The shape of the log while a kickoff that started in [s0] with an empty
    log has gone through the tasks [done]: the tasks not yet logged are
    exactly the pending ones, in order, all of them asynchronous, and the
    entries written so far sit at their own positions; when nothing is
    pending the rolling result list holds the output of the last entry. *)
Definition dense_log (s0 : State) (done : list Task) (l : Loop) : Prop :=
  ∃ (entries : list LogEntry) (new : list Event),
    output_file (state l) = entries ∧
    execution_logs (state l) = entries ∧
    _inputs (state l) = _inputs s0 ∧
    length entries + length (futures l) = length done ∧
    (λ p, p.2) <$> futures l = seq (length entries) (length (futures l)) ∧
    (λ p, p.1.1) <$> futures l = drop (length entries) done ∧
    log_task_index <$> entries = seq 0 (length entries) ∧
    log_task_id <$> entries = task_id <$> take (length entries) done ∧
    Forall (λ e, was_replayed e = false ∧ log_inputs e = logged_inputs s0) entries ∧
    events (state l) = events s0 ++ new ∧
    omap dispatch_index new = seq 0 (length done) ∧
    omap store_index new = seq 0 (length entries) ∧
    Forall (λ p, async_execution p.1.1 = true) (futures l) ∧
    (futures l = [] → done ≠ [] →
     ∃ entry, last entries = Some entry ∧ task_outputs l = [log_output entry]).

(** The inputs a kickoff works with: those passed, otherwise the ones the
    crew still holds; no inputs count as the empty dict. *)
Definition kickoff_inputs (inputs : option (gmap string string)) (s : State)
    : gmap string string :=
  default ∅ (match inputs with
             | Some i => Some i
             | None => _inputs s
             end).

(** The log holds the entries of the first [i] tasks and nothing else, in
    the file and in memory. *)
Definition log_prefix (ts : list Task) (i : nat) (s : State) : Prop :=
  log_task_index <$> output_file s = seq 0 i ∧
  log_task_id <$> output_file s = task_id <$> take i ts ∧
  execution_logs s = output_file s.

(** The crew's result carries the raw text and the structured forms of a
    task output. *)
Definition result_of (out : CrewOutput) (o : TaskOutput) : Prop :=
  crew_raw out = raw o ∧ crew_pydantic out = pydantic o
  ∧ crew_json_dict out = json_dict o.

(** What a crew has stored for a key in [usage_metrics], as
    [crew.usage_metrics.get(key, 0)] reads it. *)
Definition stored_usage (s : State) (key : string) : Z :=
  default 0%Z (usage_metrics s ≫= (.!! key)).

Definition sum_stored (crews : list State) (key : string) : Z :=
  foldr (λ s acc, (stored_usage s key + acc)%Z) 0%Z crews.

(** What the manager the crew holds reports for a key. *)
Definition manager_reported (s : State) (key : string) : Z :=
  match current_manager s with
  | Some m => reported m key
  | None => 0%Z
  end.

(** Every summary of the agents has the key. *)
Definition reports_key (ags : list Agent) (key : string) : Prop :=
  ∀ a report, a ∈ ags → token_process a = Some report → is_Some (report !! key).

(** A sequential crew whose two agents have counted usage. *)
Definition metered_researcher : Agent := with_usage (usage_of 10 6 4 1) researcher.

Definition metered_writer : Agent := with_usage (usage_of 7 5 2 1) writer.

Definition metered_crew : Crew :=
  mkCrew [simple_task 10 "A" false (Some metered_researcher) [];
          simple_task 11 "B" false (Some metered_writer) []]
         [metered_researcher; metered_writer] sequential false None None.

(** An agent whose summary lacks the request counter. *)
Definition partial_writer : Agent :=
  with_usage (list_to_map [("total_tokens", 7%Z); ("prompt_tokens", 5%Z);
                           ("completion_tokens", 2%Z)]) writer.

(** The crew holds a manager whose tool list is not empty. *)
Definition manager_holds_tools (s : State) : Prop :=
  ∃ m, current_manager s = Some m ∧ agent_tools m ≠ [].

(** A log whose entries from position [start] on have been rewritten:
    the entries below [start] are the old ones, then come the rewritten
    ones, then the old entries behind them, if any. *)
Definition rewritten (old : list LogEntry) (start : nat) (written : list LogEntry)
    : list LogEntry :=
  take start old ++ written ++ drop (start + length written) old.

(** The shape of the log while a replay from position [start] over the log
    [old] has gone through the tasks [before]: the entries of the tasks
    re-run so far have been rewritten in place, the pending handles are
    the re-run tasks not yet logged, in order, and when nothing is pending
    the rolling result list holds the output logged for the last task. *)
Definition replay_log (old : list LogEntry) (start : nat)
    (values : gmap string string) (s0 : State) (before : list Task) (l : Loop)
    : Prop :=
  ∃ (written : list LogEntry) (new : list Event),
    output_file (state l) = rewritten old start written ∧
    (execution_logs s0 = output_file s0 →
     execution_logs (state l) = output_file (state l)) ∧
    _inputs (state l) = Some values ∧
    start + length written + length (futures l) = start `max` length before ∧
    (λ p, p.2) <$> futures l = seq (start + length written) (length (futures l)) ∧
    (λ p, p.1.1) <$> futures l = drop (start + length written) before ∧
    log_task_index <$> written = seq start (length written) ∧
    log_task_id <$> written = task_id <$> take (length written) (drop start before) ∧
    Forall (λ e, was_replayed e = true ∧ log_inputs e = values) written ∧
    events (state l) = events s0 ++ new ∧
    omap dispatch_index new = seq start (length before - start) ∧
    omap store_index new = seq start (length written) ∧
    Forall (λ p, async_execution p.1.1 = true) (futures l) ∧
    (futures l = [] → before ≠ [] →
     ∃ entry, output_file (state l) !! (length before - 1) = Some entry
              ∧ task_outputs l = [log_output entry]).

(** The crew of three synchronous tasks as its kickoff leaves it. *)
Definition three_task_crew_after_kickoff : State :=
  end_state snd (@kickoff echo_agents three_task_crew None
                   (initial_state three_task_crew)).

(** What a replay from position [start] over the log [old] has rewritten
    when it stops at position [i]: the entries of the tasks from [start]
    up to [i], and nothing else. *)
Definition replay_progress (old : list LogEntry) (start i : nat) (s : State) : Prop :=
  ∃ written,
    output_file s = rewritten old start written ∧
    length written = i - start ∧
    log_task_index <$> written = seq start (i - start) ∧
    Forall (λ e, was_replayed e = true) written.

(** ** Training *)

(** [_setup_for_training].  No agent of the crew may delegate any more.
    The agents are objects the tasks share: a task whose agent is one of
    the crew's agents sees the change.  The human-input flag of the tasks
    and the two training files belong to the task and handler classes and
    are left out. *)
Definition _setup_for_training (c : Crew) : Crew :=
  let retrained (a : Agent) : Agent :=
    if bool_decide (agent_id a ∈ agent_id <$> agents c)
    then set_allow_delegation false a else a in
  mkCrew ((λ t, mkTask (task_id t) (description t) (expected_output t)
                       (async_execution t) (retrained <$> agent t) (context t)
                       (task_tools t)) <$> tasks c)
         (set_allow_delegation false <$> agents c)
         (process c) (manager_llm c) (manager_agent c) (max_rpm c).

Section Training.
Context `{Collaborators}.

(** [for n_iteration in range(n_iterations): self.kickoff(inputs=inputs)]. *)
Fixpoint train_iterations (c : Crew) (n : nat) (inputs : option (gmap string string))
    (s : State) : run State :=
  match n with
  | 0 => Done s
  | S n => r ← kickoff c inputs s; train_iterations c n inputs r.2
  end.

(** [train], up to the end of its loop; the evaluation of the training
    data that follows belongs to [TaskEvaluator] and [CrewTrainingHandler]. *)
Definition train (c : Crew) (n_iterations : Z) (inputs : option (gmap string string))
    (s : State) : run State :=
  train_iterations (_setup_for_training c) (Z.to_nat n_iterations) inputs s.

End Training.

(** The delegation tools one pass of the dispatch loop adds to
    [task.tools]: those over the other agents of the crew, when the
    task's agent may delegate and the crew has more than one agent. *)
Definition delegation_added (c : Crew) (s : State) (t : Task) : list Tool :=
  match agent t with
  | Some a =>
      let others :=
        List.filter (λ x, negb (bool_decide (x = current_agent s a))) (agents c) in
      if allow_delegation (current_agent s a)
         && bool_decide (1 < length (agents c))
         && bool_decide (0 < length others)
      then get_delegation_tools others
      else []
  | None => []
  end.

(** [task.tools] of the tasks of the crew while a kickoff that started in
    [s0] has gone through the tasks [before]: extended once for these, as
    they were for the others. *)
Definition tools_extended (c : Crew) (s0 : State) (before : list Task) (s : State)
    : Prop :=
  current_manager s = current_manager s0 ∧
  ∀ t, t ∈ tasks c →
       current_task_tools s t
       = if bool_decide (task_id t ∈ task_id <$> before)
         then current_task_tools s0 t ++ delegation_added c s0 t
         else current_task_tools s0 t.

(** A crew whose first task is given to an agent that may delegate. *)
Definition lead : Agent := mkAgent 4 "Lead" true [] (Some ∅).

Definition delegating_task : Task := simple_task 10 "A" false (Some lead) [].

Definition delegating_crew : Crew :=
  mkCrew [delegating_task; task_B] [lead; writer] sequential false None None.

(** * Properties *)

(** ** Equality of tasks *)

Lemma Task_eqb_eq_sized (n : nat) :
  ∀ a b : Task, Task_size a < n → (Task_eqb a b = true ↔ a = b).
Proof.
  induction n as [|n IH]; intros a b Hn; [lia|].
  destruct a as [i1 d1 e1 s1 g1 c1 t1], b as [i2 d2 e2 s2 g2 c2 t2].
  cbn [Task_eqb].
  set (go := fix go (l1 l2 : list Task) : bool :=
            match l1, l2 with
            | [], [] => true
            | x :: l1', y :: l2' => Task_eqb x y && go l1' l2'
            | _, _ => false
            end).
  assert (Hgo : ∀ l1 l2,
             (fix sz (l : list Task) : nat :=
                match l with [] => 0 | x :: l' => Task_size x + sz l' end) l1 < n →
             (go l1 l2 = true ↔ l1 = l2)).
  { induction l1 as [|x l1 IHl]; intros [|y l2] Hsz; cbn;
      try (split; [done|congruence]); [].
    rewrite andb_true_iff, IH, IHl by (cbn in Hsz; lia).
    split; [intros [-> ->]; done | intros [= -> ->]; done]. }
  cbn in Hn.
  rewrite !andb_true_iff, !bool_decide_eq_true, Hgo by lia.
  split; [intros [[[[[[-> ->] ->] ->] ->] ->] ->]; done | intros [= -> -> -> -> -> -> ->]; done].
Qed.

Lemma Task_eqb_eq (a b : Task) : Task_eqb a b = true ↔ a = b.
Proof. apply (Task_eqb_eq_sized (S (Task_size a))). lia. Qed.

Lemma Task_eqb_refl (a : Task) : Task_eqb a a = true.
Proof. by apply Task_eqb_eq. Qed.

(** ** Async-context isolation *)


Lemma scan_back_true (earlier : list Task) (c : Task) :
  scan_back earlier c = true ↔
  ∃ n, earlier !! n = Some c ∧
       ∀ m tm, m < n → earlier !! m = Some tm → async_execution tm = true.
Proof.
  induction earlier as [|tj rest IH]; cbn [scan_back].
  - split; [done | intros (n & Hn & _); by rewrite lookup_nil in Hn].
  - destruct (Task_eqb tj c) eqn:E.
    + apply Task_eqb_eq in E as ->. split; [intros _ | done].
      exists 0. split; [done | intros; lia].
    + assert (tj ≠ c) as Hne by (intros ->; by rewrite Task_eqb_refl in E).
      destruct (async_execution tj) eqn:Ha; cbn [negb].
      * rewrite IH. split.
        -- intros (n & Hn & Hall). exists (S n). split; [done|].
           intros [|m] tm Hm Hl; cbn in Hl; [congruence | eapply Hall; [|done]; lia].
        -- intros ([|n] & Hn & Hall); cbn in Hn; [congruence|].
           exists n. split; [done|]. intros m tm Hm Hl.
           apply (Hall (S m) tm); [lia | done].
      * split; [done|]. intros ([|n] & Hn & Hall); cbn in Hn; [congruence|].
        specialize (Hall 0 tj ltac:(lia) eq_refl). congruence.
Qed.

Lemma async_context_raises_true (earlier : list Task) (t : Task) :
  async_context_raises earlier t = true ↔
  async_execution t = true ∧
  ∃ c, c ∈ context t ∧ async_execution c = true ∧ scan_back earlier c = true.
Proof.
  unfold async_context_raises.
  rewrite !andb_true_iff, existsb_exists. split.
  - intros [[Ha _] (c & Hin & Hc)]. apply andb_true_iff in Hc as [? ?].
    split; [done|]. exists c. by rewrite list_elem_of_In.
  - intros [Ha (c & Hin & Hc & Hs)]. split; [split; [done|] |].
    + apply negb_true_iff, bool_decide_eq_false. intros E. rewrite E in Hin.
      by apply not_elem_of_nil in Hin.
    + exists c. rewrite <- list_elem_of_In. by rewrite Hc, Hs.
Qed.

Lemma async_context_loop_Some (rest earlier : list Task) :
  is_Some (async_context_loop earlier rest) ↔
  ∃ i t, rest !! i = Some t ∧
         async_context_raises (reverse (take i rest) ++ earlier) t = true.
Proof.
  revert earlier. induction rest as [|t rest IH]; intros earlier; cbn [async_context_loop].
  - split; [by intros [? ?] | by intros (i & t & Hi & _)].
  - destruct (async_context_raises earlier t) eqn:E.
    + split; [intros _ | by eauto]. exists 0, t. by split.
    + rewrite IH. split.
      * intros (i & t' & Hi & Hr). exists (S i), t'. split; [done|].
        cbn [take]. by rewrite reverse_cons, <- app_assoc.
      * intros ([|i] & t' & Hi & Hr); cbn in Hi.
        -- injection Hi as <-. cbn in Hr. congruence.
        -- exists i, t'. split; [done|].
           cbn [take] in Hr. by rewrite reverse_cons, <- app_assoc in Hr.
Qed.

Lemma reverse_take_lookup (ts : list Task) (i n : nat) :
  i ≤ length ts → n < i → reverse (take i ts) !! n = ts !! (i - S n).
Proof.
  intros Hi Hn. rewrite reverse_lookup by (rewrite length_take; lia).
  rewrite length_take, Nat.min_l by done. apply lookup_take_lt. lia.
Qed.

Lemma scan_back_positions (ts : list Task) (i : nat) (c : Task) :
  i ≤ length ts →
  scan_back (reverse (take i ts)) c = true ↔
  ∃ j, j < i ∧ ts !! j = Some c ∧
       ∀ k tk, j < k < i → ts !! k = Some tk → async_execution tk = true.
Proof.
  intros Hi. rewrite scan_back_true. split.
  - intros (n & Hn & Hall).
    assert (n < i) as Hlt.
    { apply lookup_lt_Some in Hn. rewrite length_reverse, length_take in Hn. lia. }
    rewrite reverse_take_lookup in Hn by done.
    exists (i - S n). split; [lia|]. split; [done|].
    intros k tk Hk Hl. apply (Hall (i - S k) tk); [lia|].
    rewrite reverse_take_lookup by lia. by replace (i - S (i - S k)) with k by lia.
  - intros (j & Hj & Hl & Hall). exists (i - S j). split.
    + rewrite reverse_take_lookup by lia. by replace (i - S (i - S j)) with j by lia.
    + intros m tm Hm Hlm. rewrite reverse_take_lookup in Hlm by lia.
      apply (Hall (i - S m) tm); [lia | done].
Qed.

Lemma async_context_loop_violation (ts : list Task) :
  is_Some (async_context_loop [] ts) ↔ async_context_violation ts.
Proof.
  rewrite async_context_loop_Some. unfold async_context_violation. split.
  - intros (i & t & Hi & Hr). rewrite app_nil_r in Hr.
    apply async_context_raises_true in Hr as (Ha & c & Hin & Hc & Hs).
    apply scan_back_positions in Hs as (j & Hj & Hl & Hall);
      [| apply lookup_lt_Some in Hi; lia].
    by exists i, j, t, c.
  - intros (i & j & t & c & Hi & Ha & Hin & Hc & Hj & Hl & Hall).
    exists i, t. split; [done|]. rewrite app_nil_r.
    apply async_context_raises_true. split; [done|]. exists c.
    split; [done|]. split; [done|].
    apply scan_back_positions; [apply lookup_lt_Some in Hi; lia|]. by exists j.
Qed.

(** Every validator hands back the crew it was given. *)
Lemma validators_return_self (c c' : Crew) :
  (check_manager_llm c = Ok c' → c' = c) ∧
  (check_config c = Ok c' → c' = c) ∧
  (validate_tasks c = Ok c' → c' = c) ∧
  (check_tasks_in_hierarchical_process_not_async c = Ok c' → c' = c) ∧
  (validate_end_with_at_most_one_async_task c = Ok c' → c' = c) ∧
  (validate_async_task_cannot_include_sequential_async_tasks_in_context c = Ok c'
   → c' = c) ∧
  (validate_context_no_future_tasks c = Ok c' → c' = c).
Proof.
  unfold check_manager_llm, check_config, validate_tasks,
    check_tasks_in_hierarchical_process_not_async,
    validate_end_with_at_most_one_async_task,
    validate_async_task_cannot_include_sequential_async_tasks_in_context,
    validate_context_no_future_tasks.
  repeat split; intros Hv; repeat case_match; congruence.
Qed.

(** Construction succeeds exactly when all seven validators accept. *)
Lemma construct_Ok (c c' : Crew) :
  construct c = Ok c' ↔
  c' = c ∧
  check_manager_llm c = Ok c ∧ check_config c = Ok c ∧ validate_tasks c = Ok c ∧
  check_tasks_in_hierarchical_process_not_async c = Ok c ∧
  validate_end_with_at_most_one_async_task c = Ok c ∧
  validate_async_task_cannot_include_sequential_async_tasks_in_context c = Ok c ∧
  validate_context_no_future_tasks c = Ok c.
Proof.
  unfold construct. split.
  - intros Hc.
    destruct (check_manager_llm c) as [c1|] eqn:E1; [|done].
    apply validators_return_self in E1 as ->. cbn in Hc.
    destruct (check_config c) as [c2|] eqn:E2; [|done].
    apply validators_return_self in E2 as ->. cbn in Hc.
    destruct (validate_tasks c) as [c3|] eqn:E3; [|done].
    apply validators_return_self in E3 as ->. cbn in Hc.
    destruct (check_tasks_in_hierarchical_process_not_async c) as [c4|] eqn:E4; [|done].
    apply validators_return_self in E4 as ->. cbn in Hc.
    destruct (validate_end_with_at_most_one_async_task c) as [c5|] eqn:E5; [|done].
    apply validators_return_self in E5 as ->. cbn in Hc.
    destruct (validate_async_task_cannot_include_sequential_async_tasks_in_context c)
      as [c6|] eqn:E6; [|done].
    apply validators_return_self in E6 as ->. cbn in Hc.
    pose proof Hc as Hc'. apply validators_return_self in Hc' as ->. done.
  - intros (-> & -> & E2 & E3 & E4 & E5 & E6 & E7). cbn.
    rewrite E2. cbn. rewrite E3. cbn. rewrite E4. cbn. rewrite E5. cbn.
    rewrite E6. cbn. done.
Qed.

(** The errors of the validators that run before the async-context check. *)
Lemma construct_async_context_error (c : Crew) (d : string) :
  construct c = Err (async_context_error d) →
  validate_async_task_cannot_include_sequential_async_tasks_in_context c
  = Err (async_context_error d).
Proof.
  unfold construct. intros Hc.
  destruct (check_manager_llm c) as [c1|] eqn:E1;
    [apply validators_return_self in E1 as -> |
     unfold check_manager_llm in E1; repeat case_match; cbn in Hc; congruence].
  cbn in Hc.
  destruct (check_config c) as [c2|] eqn:E2;
    [apply validators_return_self in E2 as -> |
     unfold check_config in E2; repeat case_match; cbn in Hc; congruence].
  cbn in Hc.
  destruct (validate_tasks c) as [c3|] eqn:E3;
    [apply validators_return_self in E3 as -> |
     unfold validate_tasks in E3; repeat case_match; cbn in Hc; congruence].
  cbn in Hc.
  destruct (check_tasks_in_hierarchical_process_not_async c) as [c4|] eqn:E4;
    [apply validators_return_self in E4 as -> |
     unfold check_tasks_in_hierarchical_process_not_async in E4;
     repeat case_match; cbn in Hc; congruence].
  cbn in Hc.
  destruct (validate_end_with_at_most_one_async_task c) as [c5|] eqn:E5;
    [apply validators_return_self in E5 as -> |
     unfold validate_end_with_at_most_one_async_task in E5;
     repeat case_match; cbn in Hc; congruence].
  cbn in Hc.
  destruct (validate_async_task_cannot_include_sequential_async_tasks_in_context c)
    as [c6|] eqn:E6; [apply validators_return_self in E6 as -> | cbn in Hc; congruence].
  cbn in Hc. unfold validate_context_no_future_tasks in Hc.
  repeat case_match; congruence.
Qed.

(** C5.  The async-context validator raises its error if and only if some
    asynchronous task lists, among its context dependencies, an
    asynchronous task placed before it with no synchronous task at a
    position strictly between the two; otherwise it returns the crew
    unchanged.  When it raises, construction returns an error and no crew,
    and construction ends with this error only in that situation. *)
Theorem async_context_isolation (c : Crew) :
  ((∃ d, validate_async_task_cannot_include_sequential_async_tasks_in_context c
         = Err (async_context_error d))
   ↔ async_context_violation (tasks c)) ∧
  ((validate_async_task_cannot_include_sequential_async_tasks_in_context c = Ok c)
   ↔ ¬ async_context_violation (tasks c)) ∧
  (async_context_violation (tasks c) →
   (∃ e, construct c = Err e) ∧ ∀ c', construct c ≠ Ok c') ∧
  (∀ d, construct c = Err (async_context_error d) →
        async_context_violation (tasks c)).
Proof.
  assert (Hiff : (∃ d, validate_async_task_cannot_include_sequential_async_tasks_in_context c
                       = Err (async_context_error d))
                 ↔ async_context_violation (tasks c)).
  { rewrite <- async_context_loop_violation.
    unfold validate_async_task_cannot_include_sequential_async_tasks_in_context.
    destruct (async_context_loop [] (tasks c)) as [t|].
    - split; [by eauto | intros _; by eexists].
    - split; [by intros [? ?] | by intros [? ?]]. }
  assert (Hok : validate_async_task_cannot_include_sequential_async_tasks_in_context c = Ok c
                ↔ ¬ async_context_violation (tasks c)).
  { rewrite <- Hiff.
    unfold validate_async_task_cannot_include_sequential_async_tasks_in_context.
    destruct (async_context_loop [] (tasks c)) as [t|].
    - split; [done | intros Hn; destruct Hn; by eexists].
    - split; [by intros _ [? ?] | done]. }
  split; [done|]. split; [done|]. split.
  - intros Hv.
    assert (∀ c', construct c ≠ Ok c') as Hno.
    { intros c' Hc. apply construct_Ok in Hc as (_ & _ & _ & _ & _ & _ & E6 & _).
      by apply Hok in E6. }
    split; [|done]. destruct (construct c) as [c'|e] eqn:E; [by destruct (Hno c') | by eexists].
  - intros d Hc. apply Hiff. exists d. by apply construct_async_context_error.
Qed.

Example async_context_rejected :
  construct crew_with_async_context = Err (async_context_error "B").
Proof. by vm_compute. Qed.

Example separated_async_context_accepted :
  construct crew_with_separated_async_context = Ok crew_with_separated_async_context.
Proof. by vm_compute. Qed.

(** ** No forward context *)

Lemma task_indices_snoc (ts : list Task) (t : Task) :
  task_indices (ts ++ [t]) = <[task_id t := length ts]> (task_indices ts).
Proof.
  unfold task_indices. rewrite imap_app, foldl_app. cbn.
  by rewrite Nat.add_0_r.
Qed.

(** With one uuid per task, the index map sends an id to the position of
    the task that carries it. *)
Lemma task_indices_lookup (ts : list Task) (k i : nat) :
  NoDup (task_id <$> ts) →
  task_indices ts !! k = Some i ↔ ∃ t, ts !! i = Some t ∧ task_id t = k.
Proof.
  induction ts as [|t ts IH] using rev_ind; intros Hnd.
  - unfold task_indices. cbn. rewrite lookup_empty.
    split; [done | by intros (t & Ht & _)].
  - rewrite fmap_app in Hnd. apply NoDup_app in Hnd as (Hnd & Hfresh & _).
    rewrite task_indices_snoc.
    destruct (decide (task_id t = k)) as [<-|Hne].
    + rewrite lookup_insert_eq. split.
      * intros [= <-]. exists t. split; [|done].
        by rewrite lookup_app_r, Nat.sub_diag.
      * intros (t' & Hl & Hid). f_equal.
        destruct (decide (i < length ts)) as [Hlt|Hge].
        -- rewrite lookup_app_l in Hl by done. exfalso.
           apply (Hfresh (task_id t)); [|cbn; left].
           rewrite <- Hid. apply list_elem_of_fmap. exists t'.
           split; [done|]. by eapply list_elem_of_lookup_2.
        -- apply lookup_lt_Some in Hl. rewrite length_app in Hl. cbn in Hl. lia.
    + rewrite lookup_insert_ne by done. rewrite IH by done. split.
      * intros (t' & Hl & Hid). exists t'. split; [|done].
        by apply lookup_app_l_Some.
      * intros (t' & Hl & Hid). exists t'. split; [|done].
        apply lookup_app_Some in Hl as [Hl | [Hge Hl]]; [done|].
        destruct (i - length ts) as [|n]; cbn in Hl; [|done].
        injection Hl as <-. done.
Qed.

Lemma future_context_loop_Some (m : gmap nat nat) (ts : list Task) :
  is_Some (future_context_loop m ts) ↔
  ∃ t x, t ∈ ts ∧ x ∈ context t ∧ is_future_reference m t x = true.
Proof.
  induction ts as [|t ts IH]; cbn [future_context_loop].
  - split; [by intros [? ?] | intros (t & x & Ht & _); by apply not_elem_of_nil in Ht].
  - destruct (List.find (is_future_reference m t) (context t)) as [x|] eqn:E.
    + split; [intros _ | by eauto].
      apply find_some in E as [Hin Hf]. exists t, x.
      split; [by left|]. split; [by apply list_elem_of_In | done].
    + rewrite IH. split.
      * intros (t' & x & Ht & Hrest). exists t', x. split; [by right | done].
      * intros (t' & x & Ht & Hx & Hf). apply elem_of_cons in Ht as [->|Ht].
        -- apply list_elem_of_In in Hx. pose proof (find_none _ _ E x Hx). congruence.
        -- by exists t', x.
Qed.


Lemma validate_context_no_future_tasks_Err (c : Crew) :
  NoDup (task_id <$> tasks c) →
  (∃ d1 d2, validate_context_no_future_tasks c = Err (future_context_error d1 d2))
  ↔ forward_reference (tasks c).
Proof.
  intros Hnd.
  assert ((∃ d1 d2, validate_context_no_future_tasks c
                    = Err (future_context_error d1 d2))
          ↔ is_Some (future_context_loop (task_indices (tasks c)) (tasks c))) as ->.
  { unfold validate_context_no_future_tasks.
    destruct (future_context_loop _ _) as [[t x]|].
    - split; [by eauto | intros _; by do 2 eexists].
    - split; [by intros (? & ? & ?) | by intros [? ?]]. }
  rewrite future_context_loop_Some. unfold forward_reference, is_future_reference. split.
  - intros (t & x & Ht & Hx & Hf).
    destruct (task_indices (tasks c) !! task_id x) as [ix|] eqn:Ex; [|done].
    destruct (task_indices (tasks c) !! task_id t) as [it|] eqn:Et; [|done].
    apply bool_decide_eq_true in Hf.
    apply task_indices_lookup in Ex as (y & Hy & Hid); [|done].
    apply task_indices_lookup in Et as (t' & Ht' & Hid'); [|done].
    apply list_elem_of_lookup in Ht as (i & Hi).
    assert (i = it) as ->.
    { eapply NoDup_lookup; [exact Hnd | |];
        rewrite list_lookup_fmap; [by rewrite Hi | by rewrite Ht'; cbn; rewrite Hid']. }
    by exists it, ix, t, x, y.
  - intros (i & j & t & x & y & Hi & Hx & Hj & Hid & Hlt).
    exists t, x. split; [by eapply list_elem_of_lookup_2|]. split; [done|].
    assert (task_indices (tasks c) !! task_id x = Some j) as ->.
    { apply task_indices_lookup; [done|]. by exists y. }
    assert (task_indices (tasks c) !! task_id t = Some i) as ->.
    { apply task_indices_lookup; [done|]. by exists t. }
    by apply bool_decide_eq_true.
Qed.


(** C6, as stated, fails: a task whose context names a task that is not
    in the list is accepted, and the crew is constructed. *)
Lemma no_forward_context_counterexample :
  reference_not_strictly_before (tasks crew_with_outside_reference) ∧
  construct crew_with_outside_reference = Ok crew_with_outside_reference.
Proof.
  split; [|by vm_compute].
  exists 0, (simple_task 10 "summarise" false (Some researcher) [outside_task]),
    outside_task.
  split; [done|]. split; [by left|]. intros (j & y & Hj & _). lia.
Qed.

(** C6, amended.  With one uuid per task, the no-future-tasks validator
    raises its error if and only if some context reference points to a task
    of the list placed strictly after the referencing task; construction
    then returns no crew.  References to tasks outside the list are skipped
    and a reference is not rejected for pointing at the task's own
    position. *)
Theorem no_forward_context (c : Crew) :
  NoDup (task_id <$> tasks c) →
  ((∃ d1 d2, validate_context_no_future_tasks c = Err (future_context_error d1 d2))
   ↔ forward_reference (tasks c)) ∧
  (forward_reference (tasks c) →
   (∃ e, construct c = Err e) ∧ ∀ c', construct c ≠ Ok c').
Proof.
  intros Hnd. split; [by apply validate_context_no_future_tasks_Err|].
  intros Hf. apply validate_context_no_future_tasks_Err in Hf as (d1 & d2 & He); [|done].
  assert (∀ c', construct c ≠ Ok c') as Hno.
  { intros c' Hc. apply construct_Ok in Hc as (_ & _ & _ & _ & _ & _ & _ & E7).
    congruence. }
  split; [|done].
  destruct (construct c) as [c'|e] eqn:E; [by destruct (Hno c') | by eexists].
Qed.

Lemma no_forward_context_witness :
  ((∃ d1 d2, validate_context_no_future_tasks crew_with_forward_reference
             = Err (future_context_error d1 d2))
   ↔ forward_reference (tasks crew_with_forward_reference)) ∧
  (forward_reference (tasks crew_with_forward_reference) →
   (∃ e, construct crew_with_forward_reference = Err e) ∧
   ∀ c', construct crew_with_forward_reference ≠ Ok c').
Proof.
  apply (no_forward_context crew_with_forward_reference).
  apply (bool_decide_unpack _). vm_compute. exact I.
Defined.

Example forward_reference_rejected :
  construct crew_with_forward_reference
  = Err (future_context_error "summarise" "collect").
Proof. by vm_compute. Qed.

(** ** The trace of a run *)

Lemma continues_refl (P : Event → Prop) (s : State) : continues P s s.
Proof. split; [done|]. exists []. by rewrite app_nil_r. Qed.

Lemma continues_trans (P : Event → Prop) (s1 s2 s3 : State) :
  continues P s1 s2 → continues P s2 s3 → continues P s1 s3.
Proof.
  intros (Hi1 & n1 & He1 & Hf1) (Hi2 & n2 & He2 & Hf2). split; [congruence|].
  exists (n1 ++ n2). rewrite He2, He1, <- app_assoc. split; [done|].
  by apply Forall_app.
Qed.

Lemma continues_impl (P Q : Event → Prop) (s s' : State) :
  (∀ ev, P ev → Q ev) → continues P s s' → continues Q s s'.
Proof.
  intros HPQ (Hi & new & He & Hf). split; [done|]. exists new. split; [done|].
  by eapply Forall_impl.
Qed.

Lemma continues_emit (P : Event → Prop) (ev : Event) (s : State) :
  P ev → continues P s (emit ev s).
Proof. intros HP. split; [done|]. exists [ev]. split; [done|]. by constructor. Qed.

(** A state that differs from [s] in neither inputs nor trace. *)
Lemma continues_same (P : Event → Prop) (s s' : State) :
  _inputs s' = _inputs s → events s' = events s → continues P s s'.
Proof. intros Hi He. split; [done|]. exists []. by rewrite app_nil_r. Qed.

Lemma loop_event_mono (n m : nat) (ev : Event) :
  n ≤ m → loop_event m ev → loop_event n ev.
Proof. intros Hnm. destruct ev; cbn; lia. Qed.

Lemma add_worker_delegation_frame (c : Crew) (task : Task) (s : State) :
  add_worker_delegation c task s
  = set_task_tools_now (task_tools_now (add_worker_delegation c task s)) s.
Proof. unfold add_worker_delegation. destruct s. by repeat case_match. Qed.

Lemma store_execution_log_continues (n : nat) (task : Task) (o : TaskOutput)
    (i : nat) (replayed : bool) (s : State) :
  continues (loop_event n) s (_store_execution_log task o i replayed s).
Proof.
  split; [done|]. eexists [_]. split; [done|]. by repeat constructor.
Qed.

Section Trace.
Context `{Collaborators}.

Lemma process_async_tasks_continues (n : nat) (pending : list (Task * Future * nat))
    (replayed : bool) (outs : list TaskOutput) (s : State) :
  continues (loop_event n) s
    (end_state snd (_process_async_tasks pending replayed outs s)) ∧
  raises_only loop_error (_process_async_tasks pending replayed outs s).
Proof.
  revert outs s. induction pending as [|[[t f] i] rest IH]; intros outs s; cbn.
  - split; [apply continues_refl | done].
  - destruct f as [o|]; cbn.
    + destruct (IH (outs ++ [o])
                  (_store_execution_log t o i replayed
                     (fill_task_output t o (emit (ev_future_result i) s))))
        as [Hc Hr].
      split; [|done].
      eapply continues_trans; [|exact Hc].
      eapply continues_trans; [by apply (continues_emit _ (ev_future_result i))|].
      eapply continues_trans; [|apply store_execution_log_continues].
      by apply continues_same.
    + split; [|done]. by apply (continues_emit _ (ev_future_result i)).
Qed.

Lemma flush_continues (n : nat) (replayed : bool) (l : Loop) :
  continues (loop_event n) (state l) (end_state state (flush replayed l)) ∧
  raises_only loop_error (flush replayed l).
Proof.
  unfold flush. destruct (futures l) as [|p rest] eqn:E.
  - split; [apply continues_refl | done].
  - destruct (process_async_tasks_continues n (p :: rest) replayed [] (state l))
      as [Hc Hr].
    destruct (_process_async_tasks (p :: rest) replayed [] (state l)) as [[o s']|e s'];
      by cbn in *.
Qed.

Lemma execute_task_continues (c : Crew) (with_manager : bool) (i : nat)
    (task : Task) (l : Loop) :
  continues (loop_event i) (state l)
    (end_state state (execute_task c with_manager i task l)) ∧
  raises_only loop_error (execute_task c with_manager i task l).
Proof.
  unfold execute_task.
  set (s1 := add_worker_delegation c task (state l)).
  set (s2 := if with_manager then _ else s1).
  assert (continues (loop_event i) (state l) s2) as H12.
  { apply continues_same; subst s2 s1; rewrite add_worker_delegation_frame;
      by destruct with_manager. }
  set (acting := agent_to_use s2 task _). clearbody acting s2.
  destruct (async_execution task).
  - destruct acting as [a|]; cbn; (split; [|done]); [|done].
    eapply continues_trans; [exact H12|]. apply continues_emit; cbn; lia.
  - destruct (flush_continues i false (mkLoop (task_outputs l) (futures l) s2))
      as [Hc Hr].
    destruct (flush false (mkLoop (task_outputs l) (futures l) s2)) as [l'|e s'];
      cbn in *; [|split; [by eapply continues_trans | done]].
    assert (continues (loop_event i) (state l) (state l')) as H13
      by (by eapply continues_trans).
    destruct acting as [a|]; [|by split].
    destruct (execute (Some a) task _ (agent_tools a)) as [o|]; cbn; (split; [|done]).
    + eapply continues_trans; [exact H13|]. split; [done|].
      eexists [_; _]. split; [cbn; by rewrite <- app_assoc|].
      repeat constructor; cbn; lia.
    + eapply continues_trans; [exact H13|]. apply continues_emit; cbn; lia.
Qed.

Lemma replay_task_continues (c : Crew) (stored : list LogEntry) (start i : nat)
    (task : Task) (l : Loop) :
  continues (loop_event start) (state l)
    (end_state state (replay_task c stored start i task l)) ∧
  raises_only loop_error (replay_task c stored start i task l).
Proof.
  unfold replay_task. case_bool_decide as Hlt.
  - destruct (stored !! i); cbn; (split; [|done]);
      [by apply continues_same | apply continues_refl].
  - assert (start ≤ i) as Hle by lia.
    set (s1 := add_worker_delegation c task (state l)).
    set (s2 := set_current_manager _ s1).
    assert (continues (loop_event start) (state l) s2) as H12.
    { apply continues_same; subst s2 s1; by rewrite add_worker_delegation_frame. }
    set (acting := agent_to_use s2 task _).
    set (tools := current_task_tools s2 task). clearbody acting tools s2.
    destruct (async_execution task); cbn.
    + split; [|done]. eapply continues_trans; [exact H12|]. apply continues_emit; cbn; lia.
    + destruct (flush_continues start true (mkLoop (task_outputs l) (futures l) s2))
        as [Hc Hr].
      destruct (flush true (mkLoop (task_outputs l) (futures l) s2)) as [l'|e s'];
        cbn in *; [|split; [by eapply continues_trans | done]].
      assert (continues (loop_event start) (state l) (state l')) as H13
        by (by eapply continues_trans).
      destruct (execute acting task _ tools) as [o|]; cbn; (split; [|done]).
      * eapply continues_trans; [exact H13|]. split; [done|].
        eexists [_; _]. split; [cbn; by rewrite <- app_assoc|].
        repeat constructor; cbn; lia.
      * eapply continues_trans; [exact H13|]. apply continues_emit; cbn; lia.
Qed.

Lemma run_tasks_continues (P : Event → Prop) (Q : Error → Prop)
    (step : nat → Task → Loop → run Loop) :
  (∀ i t l, continues P (state l) (end_state state (step i t l)) ∧
            raises_only Q (step i t l)) →
  ∀ ts n l, continues P (state l) (end_state state (run_tasks step n ts l)) ∧
            raises_only Q (run_tasks step n ts l).
Proof.
  intros Hstep. induction ts as [|t ts IH]; intros n l; cbn.
  - split; [apply continues_refl | done].
  - destruct (Hstep n t l) as [Hc Hr].
    destruct (step n t l) as [l'|e s']; cbn in *; [|by split].
    destruct (IH (S n) l') as [Hc' Hr']. split; [|done].
    by eapply continues_trans.
Qed.

End Trace.

(** ** Stopping the rate limiter *)

Lemma stop_count_app (evs1 evs2 : list Event) :
  stop_count (evs1 ++ evs2) = stop_count evs1 + stop_count evs2.
Proof. unfold stop_count. by rewrite filter_app, length_app. Qed.

Lemma stop_count_loop_events (n : nat) (evs : list Event) :
  Forall (loop_event n) evs → stop_count evs = 0.
Proof.
  unfold stop_count. induction 1 as [|ev evs Hev _ IH]; [done|].
  rewrite filter_cons. case_decide as E; [by subst ev|done].
Qed.

Lemma continues_stop_count (n : nat) (s s' : State) :
  continues (loop_event n) s s' → stop_count (events s') = stop_count (events s).
Proof.
  intros (_ & new & -> & Hnew).
  rewrite stop_count_app, (stop_count_loop_events n new Hnew). lia.
Qed.

Lemma finish_execution_stop_count (c : Crew) (final : string) (s : State) :
  stop_count (events (_finish_execution c final s))
  = stop_count (events s) + (if truthy_max_rpm c then 1 else 0).
Proof.
  assert (stop_count [ev_stop_rpm_counter] = 1) as H1 by done.
  assert (stop_count [ev_end_crew final] = 0) as H0 by done.
  unfold _finish_execution, emit.
  destruct (truthy_max_rpm c); cbn [events]; rewrite !stop_count_app; lia.
Qed.

Lemma get_summaries_errors (ags : list Agent) (e : Error) :
  get_summaries ags = Err e → e = attribute_error.
Proof.
  induction ags as [|a ags IH]; cbn; [done|].
  destruct (token_process a); [|congruence].
  destruct (get_summaries ags); cbn; [done|]. intros [= <-]. by apply IH.
Qed.

Lemma sum_key_errors (key : string) (metrics : list (gmap string Z)) (e : Error) :
  sum_key key metrics = Err e → e = key_error key.
Proof.
  induction metrics as [|m ms IH]; cbn; [done|].
  destruct (m !! key); [|congruence].
  destruct (sum_key key ms); cbn; [done|]. intros [= <-]. by apply IH.
Qed.

Lemma usage_comprehension_errors (keys : list string)
    (metrics : list (gmap string Z)) (e : Error) :
  usage_comprehension keys metrics = Err e → ∃ key, e = key_error key.
Proof.
  induction keys as [|k ks IH]; cbn; [done|].
  destruct (sum_key k metrics) as [v|e'] eqn:Ek; cbn.
  - destruct (usage_comprehension ks metrics) as [usage|e']; cbn; [done|].
    intros [= <-]. by apply IH.
  - intros [= <-]. apply sum_key_errors in Ek. eauto.
Qed.

(** The errors of the totals of [kickoff]. *)
Lemma kickoff_usage_metrics_errors `{Collaborators} (ags : list Agent) (e : Error) :
  kickoff_usage_metrics ags = Err e →
  e = attribute_error ∨ e = index_error ∨ ∃ key, e = key_error key.
Proof.
  unfold kickoff_usage_metrics.
  destruct (get_summaries ags) as [ms|e'] eqn:Es; cbn.
  - destruct ms as [|m0 ms]; [intros [= <-]; by auto|].
    intros He. apply usage_comprehension_errors in He. auto.
  - intros [= <-]. apply get_summaries_errors in Es. auto.
Qed.

Section RateLimiter.
Context `{Collaborators}.

Lemma finish_tasks_stops (c : Crew) (replayed : bool) (l : Loop) :
  stops_once_on_return c (state l) (finish_tasks c replayed l).
Proof.
  unfold finish_tasks.
  destruct (flush_continues 0 replayed l) as [Hc _].
  destruct (flush replayed l) as [l'|e s']; cbn in *;
    [|by apply (continues_stop_count 0)].
  apply (continues_stop_count 0) in Hc.
  destruct (task_outputs l') as [|o os]; cbn -[_finish_execution]; [done|].
  by rewrite finish_execution_stop_count, Hc.
Qed.

Lemma finish_replay_stops (c : Crew) (l : Loop) :
  stops_once_on_return c (state l) (finish_replay c l).
Proof.
  unfold finish_replay.
  destruct (flush_continues 0 true l) as [Hc _].
  destruct (flush true l) as [l'|e s']; cbn in *;
    [|by apply (continues_stop_count 0)].
  apply (continues_stop_count 0) in Hc.
  destruct (task_outputs l') as [|o [|o' os]]; cbn -[_finish_execution]; [done| |done].
  by rewrite finish_execution_stop_count, Hc.
Qed.

Lemma execute_tasks_stops (c : Crew) (with_manager : bool) (s : State) :
  stops_once_on_return c s (_execute_tasks c with_manager s).
Proof.
  unfold _execute_tasks.
  destruct (run_tasks_continues (loop_event 0) loop_error (execute_task c with_manager)
              (λ i t l, conj (continues_impl _ _ _ _
                                (λ ev, loop_event_mono 0 i ev (Nat.le_0_l i))
                                (proj1 (execute_task_continues c with_manager i t l)))
                             (proj2 (execute_task_continues c with_manager i t l)))
              (tasks c) 0 (mkLoop [] [] s)) as [Hc _].
  destruct (run_tasks _ 0 (tasks c) _) as [l|e s']; cbn in *;
    [|by apply (continues_stop_count 0)].
  apply (continues_stop_count 0) in Hc.
  pose proof (finish_tasks_stops c false l) as Hf.
  unfold stops_once_on_return in *.
  destruct (finish_tasks c false l) as [[o s']|e s']; congruence.
Qed.

Lemma create_manager_agent_events (c : Crew) (s : State) :
  events (end_state id (_create_manager_agent c s)) = events s ∧
  _inputs (end_state id (_create_manager_agent c s)) = _inputs s ∧
  raises_only (λ e, e = manager_should_not_have_tools) (_create_manager_agent c s).
Proof. unfold _create_manager_agent. by repeat case_match. Qed.

Lemma kickoff_stops (c : Crew) (inputs : option (gmap string string)) (s : State) :
  match kickoff c inputs s with
  | Done (_, s') =>
      stop_count (events s')
      = stop_count (events s) + (if truthy_max_rpm c then 1 else 0)
  | Raised e s' =>
      ∀ i, e = agent_failure i → stop_count (events s') = stop_count (events s)
  end.
Proof.
  unfold kickoff.
  set (s0 := match inputs with Some i => _ | None => _ end).
  assert (events s0 = events s) as He0 by (subst s0; by destruct inputs).
  assert (∀ r, stops_once_on_return c s0 r →
               match (r ← r;
                      match kickoff_usage_metrics (agents c) with
                      | Ok usage => Done (r.1, set_usage_metrics (Some usage) r.2)
                      | Err e => Raised e r.2
                      end) with
               | Done (_, s') =>
                   stop_count (events s')
                   = stop_count (events s) + (if truthy_max_rpm c then 1 else 0)
               | Raised e s' =>
                   (∃ i, e = agent_failure i) →
                   stop_count (events s') = stop_count (events s)
               end) as Hgen.
  { intros [[o s']|e s'] Hr; cbn in *; [|intros _; congruence].
    destruct (kickoff_usage_metrics (agents c)) as [u|e] eqn:Eu; cbn; [congruence|].
    intros [i ->]. apply kickoff_usage_metrics_errors in Eu.
    destruct Eu as [E|[E|[k E]]]; discriminate E. }
  destruct (process c).
  - unfold _run_sequential_process.
    pose proof (execute_tasks_stops c false (set_execution_logs [] s0)) as Hs.
    specialize (Hgen _ Hs).
    destruct (_ ← _execute_tasks c false _; _) as [[o s']|e s']; [done|].
    intros i ->. apply Hgen. by eexists.
  - unfold _run_hierarchical_process.
    destruct (create_manager_agent_events c (set_execution_logs [] s0)) as (He & _ & Hr).
    destruct (_create_manager_agent c (set_execution_logs [] s0)) as [s1|e s1];
      cbn in *; [|intros i ->; done].
    pose proof (execute_tasks_stops c true s1) as Hs.
    assert (stops_once_on_return c s0 (_execute_tasks c true s1)) as Hs'.
    { unfold stops_once_on_return in *.
      destruct (_execute_tasks c true s1) as [[o s']|e s']; cbn in *; congruence. }
    specialize (Hgen _ Hs').
    destruct (_ ← _execute_tasks c true _; _) as [[o s']|e s']; [done|].
    intros i ->. apply Hgen. by eexists.
Qed.

Lemma replay_stops (c : Crew) (id : nat) (inputs : option (gmap string string))
    (s : State) :
  stops_once_on_return c s (replay_from_task c id inputs s).
Proof.
  unfold replay_from_task.
  destruct (_find_task_index id (output_file s)) as [start|]; [|done].
  set (s0 := set_inputs _ s).
  assert (∀ s1, events s1 = events s →
                stops_once_on_return c s
                  (l ← run_tasks (replay_task c (output_file s) start) 0 (tasks c)
                                 (mkLoop [] [] s1);
                   finish_replay c l)) as Hrun.
  { intros s1 He1.
    destruct (run_tasks_continues (loop_event start) loop_error
                (replay_task c (output_file s) start)
                (replay_task_continues c (output_file s) start)
                (tasks c) 0 (mkLoop [] [] s1)) as [Hc _].
    destruct (run_tasks _ 0 (tasks c) _) as [l|e s']; cbn in *.
    - apply (continues_stop_count start) in Hc.
      pose proof (finish_replay_stops c l) as Hf. unfold stops_once_on_return in *.
      destruct (finish_replay c l) as [[o s']|e s']; congruence.
    - apply (continues_stop_count start) in Hc. congruence. }
  destruct (process c); [by apply Hrun|].
  destruct (create_manager_agent_events c s0) as (He & _ & _).
  destruct (_create_manager_agent c s0) as [s1|e s1]; cbn in *; [|by rewrite He].
  by apply Hrun.
Qed.

(** C8, amended.  The rate limiter is stopped exactly once by a run
    (kickoff or replay) that returns under a rate limit, and not at all by
    one that returns without a rate limit; a run that aborts with an
    agent-invocation failure does not stop it. *)
Theorem rate_limiter_stop (c : Crew) (inputs : option (gmap string string))
    (id : nat) (s : State) :
  match kickoff c inputs s with
  | Done (_, s') =>
      stop_count (events s')
      = stop_count (events s) + (if truthy_max_rpm c then 1 else 0)
  | Raised e s' =>
      ∀ i, e = agent_failure i → stop_count (events s') = stop_count (events s)
  end ∧
  match replay_from_task c id inputs s with
  | Done (_, s') =>
      stop_count (events s')
      = stop_count (events s) + (if truthy_max_rpm c then 1 else 0)
  | Raised e s' =>
      ∀ i, e = agent_failure i → stop_count (events s') = stop_count (events s)
  end.
Proof.
  split; [apply kickoff_stops|].
  pose proof (replay_stops c id inputs s) as Hr. unfold stops_once_on_return in Hr.
  destruct (replay_from_task c id inputs s) as [[o s']|e s']; [done|]. by intros.
Qed.

End RateLimiter.

(** C8, as stated, fails: under a rate limit, a run that aborts because
    the agent of the second task fails has not stopped the rate limiter. *)
Lemma rate_limiter_stop_counterexample :
  truthy_max_rpm (rate_limited_crew [task_A; task_B]) = true ∧
  ∃ s', @kickoff (failing_at 11) (rate_limited_crew [task_A; task_B]) None
          (initial_state (rate_limited_crew [task_A; task_B]))
        = Raised (agent_failure 1) s' ∧
        stop_count (events s') = 0.
Proof.
  split; [done|].
  match eval vm_compute in
        (@kickoff (failing_at 11) (rate_limited_crew [task_A; task_B]) None
           (initial_state (rate_limited_crew [task_A; task_B]))) with
  | Raised _ ?s => exists s
  end.
  split; by vm_compute.
Qed.

Example rate_limiter_stopped_after_success :
  ∃ r, @kickoff echo_agents (rate_limited_crew [task_A; task_B]) None
         (initial_state (rate_limited_crew [task_A; task_B])) = Done r ∧
       stop_count (events r.2) = 1.
Proof.
  match eval vm_compute in
        (@kickoff echo_agents (rate_limited_crew [task_A; task_B]) None
           (initial_state (rate_limited_crew [task_A; task_B]))) with
  | Done ?r => exists r
  end.
  split; by vm_compute.
Qed.

(** ** The rolling result list *)

Section Rolling.
Context `{Collaborators}.

Lemma store_execution_log_task_output (task : Task) (o : TaskOutput) (i : nat)
    (replayed : bool) (s : State) :
  task_output (_store_execution_log task o i replayed s) = task_output s.
Proof. done. Qed.

(** A synchronous task in the loop of [_execute_tasks]: either it ran and
    the rolling list is its output alone, or there was no agent to use. *)
Lemma execute_task_sync (c : Crew) (with_manager : bool) (i : nat) (task : Task)
    (l l' : Loop) :
  async_execution task = false →
  execute_task c with_manager i task l = Done l' →
  (∃ out a ctx,
      execute (Some a) task ctx (agent_tools a) = Some out ∧
      task_outputs l' = [out] ∧
      task_output (state l') !! task_id task = Some out)
  ∨ (agent task = None ∧ (with_manager = false ∨ current_manager (state l) = None)).
Proof.
  intros Ha. unfold execute_task. rewrite Ha.
  set (s1 := add_worker_delegation c task (state l)).
  set (s2 := if with_manager then _ else s1).
  destruct (flush false (mkLoop (task_outputs l) (futures l) s2)) as [lf|e sf];
    cbn; [|done].
  destruct (agent_to_use s2 task _) as [a|] eqn:Eact.
  - destruct (execute (Some a) task _ (agent_tools a)) as [o|] eqn:Ex; [|done].
    intros [= <-]. left. exists o, a. eexists. split; [exact Ex|]. split; [done|].
    cbn. by rewrite lookup_insert_eq.
  - intros _. right. unfold agent_to_use in Eact.
    destruct (agent task); [done|]. split; [done|].
    destruct with_manager; [right | by left].
    subst s2 s1. cbn in Eact. rewrite add_worker_delegation_frame in Eact.
    cbn in Eact. unfold wire_manager in Eact.
    destruct (process c); [done|].
    by destruct (agent task), (current_manager (state l)).
Qed.

(** A position of the loop of [replay_from_task]: before the start it is
    seeded from the stored entry, from the start on a synchronous task
    leaves its own output alone in the rolling list. *)
Lemma replay_task_sync (c : Crew) (stored : list LogEntry) (start i : nat)
    (task : Task) (l l' : Loop) :
  replay_task c stored start i task l = Done l' →
  (i < start →
   ∃ entry, stored !! i = Some entry ∧ task_outputs l' = [log_output entry] ∧
            task_output (state l') !! task_id task = Some (log_output entry) ∧
            events (state l') = events (state l)) ∧
  (start ≤ i → async_execution task = false →
   ∃ out acting ctx tools,
     execute acting task ctx tools = Some out ∧
     task_outputs l' = [out] ∧
     task_output (state l') !! task_id task = Some out).
Proof.
  unfold replay_task. case_bool_decide as Hlt; intros Hr.
  - split; [intros _ | lia].
    destruct (stored !! i) as [entry|]; [|done]. injection Hr as <-.
    exists entry. destruct (log_output entry). cbn.
    by rewrite lookup_insert_eq.
  - split; [lia | intros _ Ha]. rewrite Ha in Hr.
    destruct (flush true _) as [lf|e sf]; cbn in Hr; [|done].
    destruct (execute _ task _ _) as [o|] eqn:Ex; [|done].
    injection Hr as <-. exists o. do 3 eexists. split; [exact Ex|].
    split; [done|]. cbn. by rewrite lookup_insert_eq.
Qed.

(** The final output is built from element 0 of the rolling list. *)
Lemma execute_tasks_final (c : Crew) (with_manager : bool) (s s' : State)
    (out : CrewOutput) :
  _execute_tasks c with_manager s = Done (out, s') →
  ∃ l lf o,
    run_tasks (execute_task c with_manager) 0 (tasks c) (mkLoop [] [] s) = Done l ∧
    flush false l = Done lf ∧
    task_outputs lf !! 0 = Some o ∧
    crew_raw out = raw o ∧ crew_pydantic out = pydantic o ∧
    crew_json_dict out = json_dict o.
Proof.
  unfold _execute_tasks, finish_tasks.
  destruct (run_tasks _ 0 (tasks c) _) as [l|e se]; cbn; [|done].
  destruct (flush false l) as [lf|e se] eqn:Ef; cbn; [|done].
  destruct (task_outputs lf) as [|o os] eqn:Eo; [done|].
  intros [= <- <-]. exists l, lf, o. by rewrite Eo.
Qed.

Lemma replay_final (c : Crew) (id : nat) (inputs : option (gmap string string))
    (s s' : State) (out : CrewOutput) :
  replay_from_task c id inputs s = Done (out, s') →
  ∃ start s1 l lf o,
    _find_task_index id (output_file s) = Some start ∧
    run_tasks (replay_task c (output_file s) start) 0 (tasks c) (mkLoop [] [] s1)
    = Done l ∧
    flush true l = Done lf ∧
    task_outputs lf = [o] ∧
    crew_raw out = raw o ∧ crew_pydantic out = pydantic o ∧
    crew_json_dict out = json_dict o.
Proof.
  unfold replay_from_task, finish_replay.
  destruct (_find_task_index id (output_file s)) as [start|]; [|done].
  destruct (match process c with sequential => _ | hierarchical => _ end)
    as [s1|e se]; cbn; [|done].
  destruct (run_tasks _ 0 (tasks c) _) as [l|e se] eqn:Er; cbn; [|done].
  destruct (flush true l) as [lf|e se] eqn:Ef; cbn; [|done].
  destruct (task_outputs lf) as [|o [|o' os]] eqn:Eo; [done| |done].
  intros [= <- <-]. by exists start, s1, l, lf, o.
Qed.

(** With no task at all there is no element 0: the run raises. *)
Lemma empty_task_list_fails (c : Crew) (inputs : option (gmap string string))
    (id : nat) (s : State) :
  tasks c = [] →
  (∀ with_manager, _execute_tasks c with_manager s = Raised index_error s) ∧
  (∀ r, kickoff c inputs s ≠ Done r) ∧
  (∀ r, replay_from_task c id inputs s ≠ Done r).
Proof.
  intros Ht.
  assert (∀ wm s0, _execute_tasks c wm s0 = Raised index_error s0) as He.
  { intros wm s0. unfold _execute_tasks. by rewrite Ht. }
  split; [done|]. split.
  - intros r. unfold kickoff, _run_sequential_process, _run_hierarchical_process.
    destruct (process c); [by rewrite He|].
    destruct (_create_manager_agent c _); cbn; [by rewrite He | done].
  - intros r. unfold replay_from_task.
    destruct (_find_task_index id (output_file s)); [|done].
    destruct (match process c with sequential => _ | hierarchical => _ end);
      cbn; [|done].
    by rewrite Ht.
Qed.

(** C10.  In the loop of a kickoff and in the loop of a replay, right
    after a synchronous task has run the rolling result list holds exactly
    one element, the output of that task (a kickoff skips a task only when
    there is no agent to use); the final output is built from element 0 of
    the rolling list; and with an empty task list the run raises instead
    of returning a result. *)
Theorem rolling_list_invariant (c : Crew) :
  (∀ with_manager i task l l',
      async_execution task = false →
      execute_task c with_manager i task l = Done l' →
      (∃ out a ctx,
          execute (Some a) task ctx (agent_tools a) = Some out ∧
          task_outputs l' = [out] ∧
          task_output (state l') !! task_id task = Some out)
      ∨ (agent task = None
         ∧ (with_manager = false ∨ current_manager (state l) = None))) ∧
  (∀ stored start i task l l',
      start ≤ i → async_execution task = false →
      replay_task c stored start i task l = Done l' →
      ∃ out acting ctx tools,
        execute acting task ctx tools = Some out ∧
        task_outputs l' = [out] ∧
        task_output (state l') !! task_id task = Some out) ∧
  (∀ with_manager s s' out,
      _execute_tasks c with_manager s = Done (out, s') →
      ∃ l lf o,
        run_tasks (execute_task c with_manager) 0 (tasks c) (mkLoop [] [] s)
        = Done l ∧
        flush false l = Done lf ∧
        task_outputs lf !! 0 = Some o ∧
        crew_raw out = raw o ∧ crew_pydantic out = pydantic o ∧
        crew_json_dict out = json_dict o) ∧
  (∀ id inputs s s' out,
      replay_from_task c id inputs s = Done (out, s') →
      ∃ start s1 l lf o,
        _find_task_index id (output_file s) = Some start ∧
        run_tasks (replay_task c (output_file s) start) 0 (tasks c)
                  (mkLoop [] [] s1) = Done l ∧
        flush true l = Done lf ∧
        task_outputs lf = [o] ∧
        crew_raw out = raw o ∧ crew_pydantic out = pydantic o ∧
        crew_json_dict out = json_dict o) ∧
  (tasks c = [] →
   ∀ inputs id s,
     (∀ with_manager, _execute_tasks c with_manager s = Raised index_error s) ∧
     (∀ r, kickoff c inputs s ≠ Done r) ∧
     (∀ r, replay_from_task c id inputs s ≠ Done r)).
Proof.
  split; [intros; by eapply execute_task_sync|].
  split; [intros ?????? Hle Ha Hr; by apply (replay_task_sync _ _ _ _ _ _ _ Hr)|].
  split; [intros; by eapply execute_tasks_final|].
  split; [intros; by eapply replay_final|].
  intros Ht inputs id s. by apply empty_task_list_fails.
Qed.

End Rolling.

(** ** The context handed to a task *)

Lemma add_worker_delegation_change (c : Crew) (task : Task) (s : State) :
  ∃ tools_now, add_worker_delegation c task s = set_task_tools_now tools_now s.
Proof. eexists. apply add_worker_delegation_frame. Qed.

Lemma aggregate_single (o : TaskOutput) :
  aggregate_raw_outputs_from_task_outputs [o] = raw o.
Proof. done. Qed.

Section ContextOfTask.
Context `{Collaborators}.

(** The flush returns the results of the handles, in the order of the
    list, and dispatches nothing. *)
Lemma process_async_tasks_Done (pending : list (Task * Future * nat))
    (replayed : bool) (outs outs' : list TaskOutput) (s s' : State) :
  _process_async_tasks pending replayed outs s = Done (outs', s') →
  outs' = outs ++ omap (λ p, p.1.2) pending ∧
  ∃ new, events s' = events s ++ new ∧
         Forall (λ ev, dispatch_index ev = None) new.
Proof.
  revert outs s. induction pending as [|[[t f] i] rest IH]; intros outs s; cbn.
  - intros [= <- <-]. rewrite app_nil_r. split; [done|]. exists [].
    by rewrite app_nil_r.
  - destruct f as [o|]; [|done]. intros Hp. apply IH in Hp as (-> & new & -> & Hnew).
    cbn. rewrite <- app_assoc. split; [done|].
    eexists (_ :: _ :: new). split; [by rewrite <- !app_assoc|].
    by repeat constructor.
Qed.

Lemma flush_Done (replayed : bool) (l lf : Loop) :
  flush replayed l = Done lf →
  futures lf = [] ∧
  task_outputs lf = match futures l with
                    | [] => task_outputs l
                    | pending => omap (λ p, p.1.2) pending
                    end ∧
  ∃ new, events (state lf) = events (state l) ++ new ∧
         Forall (λ ev, dispatch_index ev = None) new.
Proof.
  unfold flush. destruct (futures l) as [|p rest] eqn:E.
  - intros [= <-]. split; [done|]. split; [done|]. exists [].
    by rewrite app_nil_r.
  - destruct (_process_async_tasks (p :: rest) replayed [] (state l))
      as [[o s']|e s'] eqn:Ep; [|done].
    cbn. intros [= <-]. by apply process_async_tasks_Done in Ep as [-> Hev].
Qed.

(** The context handed over by one iteration of the loop of
    [_execute_tasks] to a task without declared dependencies. *)
Lemma execute_task_context (c : Crew) (with_manager : bool) (i : nat) (task : Task)
    (l l' : Loop) :
  context task = [] →
  execute_task c with_manager i task l = Done l' →
  ∃ new,
    events (state l') = events (state l) ++ new ∧
    ∀ ev ctx, ev ∈ new → dispatch_context ev = Some ctx →
      dispatch_index ev = Some i ∧
      ctx = aggregate_raw_outputs_from_task_outputs (rolling_at_dispatch task l).
Proof.
  intros Hctx. unfold execute_task, rolling_at_dispatch, _set_context.
  rewrite Hctx.
  destruct (add_worker_delegation_change c task (state l)) as [tn ->].
  set (s2 := if with_manager then _ else _).
  assert (events s2 = events (state l)) as He2 by (subst s2; by destruct with_manager).
  destruct (async_execution task).
  - destruct (agent_to_use s2 task _) as [a|]; intros [= <-]; cbn.
    + exists [ev_execute_async i (Some a)
                (aggregate_raw_outputs_from_task_outputs (task_outputs l))
                (agent_tools a)].
      rewrite He2. split; [done|]. intros ev ctx Hin Hd.
      apply list_elem_of_singleton in Hin as ->. cbn in Hd. by injection Hd as <-.
    + exists []. rewrite He2, app_nil_r. split; [done|].
      intros ev ctx Hin. by apply not_elem_of_nil in Hin.
  - destruct (flush false (mkLoop (task_outputs l) (futures l) s2)) as [lf|e sf] eqn:Ef;
      cbn; [|done].
    apply flush_Done in Ef as (Hfut & Houts & new & Hev & Hnew). cbn in Houts, Hev.
    destruct (agent_to_use s2 task _) as [a|].
    + destruct (execute (Some a) task _ (agent_tools a)) as [o|]; [|done].
      intros [= <-]. cbn. rewrite Hev, He2.
      eexists (new ++ [_; _]). split; [by rewrite <- !app_assoc|].
      intros ev ctx Hin Hd. apply elem_of_app in Hin as [Hin|Hin].
      * rewrite Forall_forall in Hnew. apply Hnew in Hin. by destruct ev.
      * apply elem_of_cons in Hin as [->|Hin].
        -- cbn in Hd. injection Hd as <-. by rewrite Houts.
        -- apply list_elem_of_singleton in Hin as ->. done.
    + intros [= <-]. rewrite Hev, He2. exists new. split; [done|].
      intros ev ctx Hin Hd. rewrite Forall_forall in Hnew. apply Hnew in Hin.
      by destruct ev.
Qed.

(** After a synchronous task nothing is pending. *)
Lemma execute_task_sync_futures (c : Crew) (with_manager : bool) (i : nat)
    (task : Task) (l l' : Loop) :
  async_execution task = false →
  execute_task c with_manager i task l = Done l' → futures l' = [].
Proof.
  intros Ha. unfold execute_task. rewrite Ha.
  destruct (flush false _) as [lf|e sf] eqn:Ef; cbn; [|done].
  apply flush_Done in Ef as (Hfut & _).
  destruct (agent_to_use _ task _) as [a|]; [|by intros [= <-]].
  destruct (execute (Some a) task _ (agent_tools a)); [|done]. by intros [= <-].
Qed.

(** C1, amended.  A task without declared context dependencies is handed
    the concatenation of the raw outputs of the rolling result list as it
    is at its dispatch, not of all results flushed so far: an asynchronous
    task reads the list as it stands, a synchronous task reads the results
    of the handles it has just flushed when there were any.  After a
    synchronous task has run the list holds that task's output alone, so
    the next task is handed exactly the raw output of that one task. *)
Theorem context_without_dependencies (c : Crew) (with_manager : bool) :
  (∀ i task l l',
      context task = [] →
      execute_task c with_manager i task l = Done l' →
      ∃ new,
        events (state l') = events (state l) ++ new ∧
        ∀ ev ctx, ev ∈ new → dispatch_context ev = Some ctx →
          dispatch_index ev = Some i ∧
          ctx = aggregate_raw_outputs_from_task_outputs (rolling_at_dispatch task l)) ∧
  (∀ i task l l' out,
      async_execution task = false →
      execute_task c with_manager i task l = Done l' →
      task_outputs l' = [out] →
      ∀ j next l'',
        context next = [] →
        execute_task c with_manager j next l' = Done l'' →
        ∃ new,
          events (state l'') = events (state l') ++ new ∧
          ∀ ev ctx, ev ∈ new → dispatch_context ev = Some ctx →
            dispatch_index ev = Some j ∧ ctx = raw out).
Proof.
  split; [intros i task l l' Hc Hs; exact (execute_task_context _ _ _ _ _ _ Hc Hs)|].
  intros i task l l' out Ha Hstep Hout j next l'' Hctx Hnext.
  pose proof (execute_task_sync_futures _ _ _ _ _ _ Ha Hstep) as Hfut.
  apply (execute_task_context _ _ _ _ _ _ Hctx) in Hnext as (new & Hev & Hnew).
  exists new. split; [done|]. intros ev ctx Hin Hd.
  destruct (Hnew ev ctx Hin Hd) as [Hi ->]. split; [done|].
  unfold rolling_at_dispatch. rewrite Hfut, Hout.
  by destruct (async_execution next).
Qed.

End ContextOfTask.

(** C1, as stated, fails: in a run of three synchronous tasks without
    declared dependencies, the third task is handed the raw output of the
    second alone, although the results of the first and of the second have
    both been flushed. *)
Lemma context_without_dependencies_counterexample :
  Forall (λ t, context t = []) (tasks (sequential_crew [task_A; task_B; task_C])) ∧
  ∃ r, @kickoff echo_agents (sequential_crew [task_A; task_B; task_C]) None
         (initial_state (sequential_crew [task_A; task_B; task_C])) = Done r ∧
       ev_execute_sync 2 (Some researcher) "[B]" [] ∈ events r.2 ∧
       contexts_hold_all_flushed [] (events r.2) = false.
Proof.
  split; [by repeat constructor|].
  match eval vm_compute in
        (@kickoff echo_agents (sequential_crew [task_A; task_B; task_C]) None
           (initial_state (sequential_crew [task_A; task_B; task_C]))) with
  | Done ?r => exists r
  end.
  split; [by vm_compute|]. split; [|by vm_compute].
  apply list_elem_of_In. vm_compute. tauto.
Qed.

(** ** The flush barrier *)

Section FlushBarrier.
Context `{Collaborators}.

(** The acting agent and the context text read the manager and the
    result slots, and nothing else of the state. *)
Lemma current_agent_ext (s s' : State) (a : Agent) :
  current_manager s' = current_manager s → current_agent s' a = current_agent s a.
Proof. unfold current_agent. by intros ->. Qed.

Lemma set_context_ext (s s' : State) (task : Task) (outs : list TaskOutput) :
  task_output s' = task_output s → _set_context s' task outs = _set_context s task outs.
Proof.
  unfold _set_context, aggregate_raw_outputs_from_tasks. by intros ->.
Qed.

(** An asynchronous task of a sequential run, with its agent: the task
    is dispatched and its handle joins the pending list. *)
Lemma execute_task_async (c : Crew) (i : nat) (task : Task) (a : Agent) (l l' : Loop) :
  async_execution task = true → agent task = Some a →
  execute_task c false i task l = Done l' →
  task_outputs l' = task_outputs l ∧
  futures l'
  = futures l
    ++ [(task,
         execute (Some (current_agent (state l) a)) task
           (_set_context (state l) task (task_outputs l))
           (agent_tools (current_agent (state l) a)), i)] ∧
  events (state l')
  = events (state l)
    ++ [ev_execute_async i (Some (current_agent (state l) a))
          (_set_context (state l) task (task_outputs l))
          (agent_tools (current_agent (state l) a))] ∧
  _inputs (state l') = _inputs (state l) ∧
  execution_logs (state l') = execution_logs (state l) ∧
  output_file (state l') = output_file (state l) ∧
  current_manager (state l') = current_manager (state l) ∧
  task_output (state l') = task_output (state l).
Proof.
  intros Ha Hg. unfold execute_task, agent_to_use. rewrite Ha, Hg.
  destruct (add_worker_delegation_change c task (state l)) as [tn ->].
  by intros [= <-].
Qed.

(** C4.  In a sequential kickoff of [A(async); B(async); C(sync)], each
    with an agent and [C] without declared context, that returns: the two
    asynchronous tasks are dispatched first, each to its agent; at [C]
    their handles are resolved in enqueue order, and what each handle
    gives, the result [outA] and [outB] of the invocation its dispatch
    made, is written to the log at positions 0 and 1; only then [C] is
    dispatched, with the concatenation of the raw texts of [outA] and
    [outB] as its context, and the result [outC] of that invocation is
    written at position 2 and is what the kickoff returns.  Nothing else
    is dispatched or logged. *)
Theorem flush_barrier (c : Crew) (A B C : Task) (agA agB agC : Agent)
    (inputs : option (gmap string string)) (s s' : State) (out : CrewOutput) :
  process c = sequential →
  tasks c = [A; B; C] →
  async_execution A = true → async_execution B = true →
  async_execution C = false → context C = [] →
  agent A = Some agA → agent B = Some agB → agent C = Some agC →
  kickoff c inputs s = Done (out, s') →
  ∃ (outA outB outC : TaskOutput) (dispatchA dispatchB : Event)
    (logA logB logC : LogEntry) (finish : list Event),
    execute (Some (current_agent s agA)) A (_set_context s A [])
      (agent_tools (current_agent s agA)) = Some outA ∧
    execute (Some (current_agent s agB)) B (_set_context s B [])
      (agent_tools (current_agent s agB)) = Some outB ∧
    execute (Some (current_agent s agC)) C
      (aggregate_raw_outputs_from_task_outputs [outA; outB])
      (agent_tools (current_agent s agC)) = Some outC ∧
    dispatchA
    = ev_execute_async 0 (Some (current_agent s agA)) (_set_context s A [])
        (agent_tools (current_agent s agA)) ∧
    dispatchB
    = ev_execute_async 1 (Some (current_agent s agB)) (_set_context s B [])
        (agent_tools (current_agent s agB)) ∧
    logA = mkLogEntry (task_id A) (expected_output A) outA 0
             (default ∅ (from_option Some (_inputs s) inputs)) false ∧
    logB = mkLogEntry (task_id B) (expected_output B) outB 1
             (default ∅ (from_option Some (_inputs s) inputs)) false ∧
    logC = mkLogEntry (task_id C) (expected_output C) outC 2
             (default ∅ (from_option Some (_inputs s) inputs)) false ∧
    events s'
    = events s
      ++ [dispatchA; dispatchB;
          ev_future_result 0; ev_store_execution_log 0 logA;
          ev_future_result 1; ev_store_execution_log 1 logB;
          ev_execute_sync 2 (Some (current_agent s agC))
            (aggregate_raw_outputs_from_task_outputs [outA; outB])
            (agent_tools (current_agent s agC));
          ev_store_execution_log 2 logC]
      ++ finish ∧
    Forall (λ ev, dispatch_index ev = None ∧ ∀ i log, ev ≠ ev_store_execution_log i log)
           finish ∧
    execution_logs s' = [logA; logB; logC] ∧
    output_file s' = [logA; logB; logC] ∧
    task_output s' !! task_id C = Some outC ∧
    crew_raw out = raw outC.
Proof.
  intros Hp Ht HaA HaB HaC HcC HgA HgB HgC.
  unfold kickoff. rewrite Hp.
  set (s0 := match inputs with Some i => _ | None => _ end).
  assert (events s0 = events s ∧ output_file s0 = []
          ∧ current_manager s0 = current_manager s ∧ task_output s0 = task_output s
          ∧ _inputs s0 = from_option Some (_inputs s) inputs)
    as (He0 & Hf0 & Hm0 & Ho0 & Hi0)
    by (subst s0; by destruct inputs).
  unfold _run_sequential_process, _execute_tasks. rewrite Ht.
  cbn [run_tasks].
  (* A, then B, is dispatched *)
  destruct (execute_task c false 0 A _) as [l1|] eqn:E1; [|done].
  apply (execute_task_async _ _ _ _ _ _ HaA HgA) in E1
    as (Ho1 & Hf1 & He1 & Hi1 & Hl1 & Hfile1 & Hm1 & Hto1).
  cbn [mbind run_bind].
  destruct (execute_task c false 1 B l1) as [l2|] eqn:E2; [|done].
  apply (execute_task_async _ _ _ _ _ _ HaB HgB) in E2
    as (Ho2 & Hf2 & He2 & Hi2 & Hl2 & Hfile2 & Hm2 & Hto2).
  cbn [mbind run_bind].
  cbn [state task_outputs futures] in Ho1, Hf1, He1, Hi1, Hl1, Hfile1, Hm1, Hto1.
  cbn [set_execution_logs current_manager task_output events _inputs execution_logs
       output_file] in Hf1, He1, Hi1, Hl1, Hfile1, Hm1, Hto1.
  rewrite (current_agent_ext s (set_execution_logs [] s0) agA) in Hf1, He1
    by (by rewrite <- Hm0).
  rewrite (set_context_ext s (set_execution_logs [] s0) A) in Hf1, He1
    by (by rewrite <- Ho0).
  rewrite Ho1 in Hf2, He2.
  rewrite (current_agent_ext s (state l1) agB) in Hf2, He2 by congruence.
  rewrite (set_context_ext s (state l1) B) in Hf2, He2 by congruence.
  rewrite Hf1 in Hf2. cbn [app] in Hf2.
  (* C flushes the two handles, then runs *)
  unfold execute_task, agent_to_use. rewrite HaC, HgC.
  destruct (add_worker_delegation_change c C (state l2)) as [tnC ->].
  change (current_agent (set_task_tools_now tnC (state l2)) agC)
    with (current_agent (state l2) agC).
  rewrite (current_agent_ext s (state l2) agC) by congruence.
  unfold flush. cbn [futures state task_outputs]. rewrite Hf2.
  cbn [_process_async_tasks].
  destruct (execute (Some (current_agent s agA)) A _ _) as [outA|] eqn:EA; [|done].
  cbn [_process_async_tasks].
  destruct (execute (Some (current_agent s agB)) B _ _) as [outB|] eqn:EB; [|done].
  cbn [_process_async_tasks mbind run_bind fst snd task_outputs futures state app].
  unfold _set_context at 1 2. rewrite HcC.
  destruct (execute (Some (current_agent s agC)) C _ _) as [outC|] eqn:EC; [|done].
  cbn [mbind run_bind]. unfold finish_tasks, flush.
  cbn [futures task_outputs state mbind run_bind].
  destruct (kickoff_usage_metrics (agents c)) as [usage|e]; [|done].
  unfold _finish_execution.
  assert ((if truthy_inputs (_inputs (state l2))
           then default ∅ (_inputs (state l2)) else ∅)
          = default ∅ (from_option Some (_inputs s) inputs)) as Hlogged.
  { rewrite Hi2, Hi1, <- Hi0. cbn [_inputs set_execution_logs].
    unfold truthy_inputs. destruct (_inputs s0) as [i|]; [|done].
    cbn. by case_bool_decide. }
  intros [= <- <-].
  exists outA, outB, outC. do 5 eexists.
  exists ((if truthy_max_rpm c then [ev_stop_rpm_counter] else [])
          ++ [ev_end_crew (raw outC)]).
  split; [done|]. split; [done|]. split; [done|].
  split; [reflexivity|]. split; [reflexivity|].
  split; [reflexivity|]. split; [reflexivity|]. split; [reflexivity|].
  split.
  { destruct (truthy_max_rpm c); cbn; rewrite He2, He1, He0, <- !app_assoc; cbn;
      unfold _store_execution_log; cbn; rewrite ?Hlogged; reflexivity. }
  split; [destruct (truthy_max_rpm c); by repeat constructor|].
  split.
  { destruct (truthy_max_rpm c); cbn; rewrite Hl2, Hl1; cbn;
      by rewrite ?Hlogged. }
  split.
  { destruct (truthy_max_rpm c); cbn; rewrite Hfile2, Hfile1, Hf0; cbn;
      by rewrite ?Hlogged. }
  split; [destruct (truthy_max_rpm c); cbn; by rewrite lookup_insert_eq|].
  by destruct (truthy_max_rpm c).
Qed.

End FlushBarrier.

Lemma flush_barrier_witness :
  ∃ (out : CrewOutput) (s' : State),
    @kickoff echo_agents barrier_crew None (initial_state barrier_crew)
    = Done (out, s') ∧
    ∃ (outA outB outC : TaskOutput) (dispatchA dispatchB : Event)
      (logA logB logC : LogEntry) (finish : list Event),
      @execute echo_agents (Some (current_agent (initial_state barrier_crew) researcher))
        async_A (_set_context (initial_state barrier_crew) async_A [])
        (agent_tools (current_agent (initial_state barrier_crew) researcher))
      = Some outA ∧
      @execute echo_agents (Some (current_agent (initial_state barrier_crew) writer))
        async_B (_set_context (initial_state barrier_crew) async_B [])
        (agent_tools (current_agent (initial_state barrier_crew) writer))
      = Some outB ∧
      @execute echo_agents (Some (current_agent (initial_state barrier_crew) researcher))
        task_C (aggregate_raw_outputs_from_task_outputs [outA; outB])
        (agent_tools (current_agent (initial_state barrier_crew) researcher))
      = Some outC ∧
      dispatchA
      = ev_execute_async 0 (Some (current_agent (initial_state barrier_crew) researcher))
          (_set_context (initial_state barrier_crew) async_A [])
          (agent_tools (current_agent (initial_state barrier_crew) researcher)) ∧
      dispatchB
      = ev_execute_async 1 (Some (current_agent (initial_state barrier_crew) writer))
          (_set_context (initial_state barrier_crew) async_B [])
          (agent_tools (current_agent (initial_state barrier_crew) writer)) ∧
      logA = mkLogEntry (task_id async_A) (expected_output async_A) outA 0
               (default ∅ (from_option Some (_inputs (initial_state barrier_crew)) None))
               false ∧
      logB = mkLogEntry (task_id async_B) (expected_output async_B) outB 1
               (default ∅ (from_option Some (_inputs (initial_state barrier_crew)) None))
               false ∧
      logC = mkLogEntry (task_id task_C) (expected_output task_C) outC 2
               (default ∅ (from_option Some (_inputs (initial_state barrier_crew)) None))
               false ∧
      events s'
      = events (initial_state barrier_crew)
        ++ [dispatchA; dispatchB;
            ev_future_result 0; ev_store_execution_log 0 logA;
            ev_future_result 1; ev_store_execution_log 1 logB;
            ev_execute_sync 2
              (Some (current_agent (initial_state barrier_crew) researcher))
              (aggregate_raw_outputs_from_task_outputs [outA; outB])
              (agent_tools (current_agent (initial_state barrier_crew) researcher));
            ev_store_execution_log 2 logC]
        ++ finish ∧
      Forall (λ ev, dispatch_index ev = None
                    ∧ ∀ i log, ev ≠ ev_store_execution_log i log) finish ∧
      execution_logs s' = [logA; logB; logC] ∧
      output_file s' = [logA; logB; logC] ∧
      task_output s' !! task_id task_C = Some outC ∧
      crew_raw out = raw outC.
Proof.
  match eval vm_compute in
        (@kickoff echo_agents barrier_crew None (initial_state barrier_crew)) with
  | Done (?o, ?st) =>
      exists o, st; split; [by vm_compute|];
      apply (@flush_barrier echo_agents barrier_crew async_A async_B task_C
               researcher writer researcher None (initial_state barrier_crew) st o);
        by vm_compute
  end.
Defined.

Example flush_barrier_context :
  ∃ r, @kickoff echo_agents barrier_crew None (initial_state barrier_crew) = Done r ∧
       ev_execute_sync 2 (Some researcher) "[A][B]" [] ∈ events r.2.
Proof.
  match eval vm_compute in
        (@kickoff echo_agents barrier_crew None (initial_state barrier_crew)) with
  | Done ?r => exists r
  end.
  split; [by vm_compute|]. apply list_elem_of_In. vm_compute. tauto.
Qed.

(** ** Replay *)

Lemma find_task_index_None (id : nat) (stored : list LogEntry) :
  _find_task_index id stored = None ↔ ∀ entry, entry ∈ stored → log_task_id entry ≠ id.
Proof.
  unfold _find_task_index. rewrite fmap_None, list_find_None, Forall_forall. done.
Qed.

(** The index found is that of the first entry with the id. *)
Lemma find_task_index_Some (id : nat) (stored : list LogEntry) (start : nat) :
  _find_task_index id stored = Some start ↔
  ∃ entry, stored !! start = Some entry ∧ log_task_id entry = id ∧
           ∀ j e, j < start → stored !! j = Some e → log_task_id e ≠ id.
Proof.
  unfold _find_task_index. rewrite fmap_Some. split.
  - intros ([i entry] & Hf & ->). apply list_find_Some in Hf as (Hl & Hid & Hbefore).
    exists entry. split; [done|]. split; [done|].
    intros j e Hj He. by apply (Hbefore j e).
  - intros (entry & Hl & Hid & Hbefore). exists (start, entry). split; [|done].
    apply list_find_Some. split; [done|]. split; [done|].
    intros j e He Hj. by apply (Hbefore j e).
Qed.


Section Replay.
Context `{Collaborators}.




(** *** Seeding

    The positions before the start take their results from the log. *)







Section SlotFrame.
Context (k : nat) (v : option TaskOutput).






End SlotFrame.





End Replay.

(** A replay from the second of three tasks, after a kickoff: the first
    task is not dispatched again, the second and the third are, and their
    log entries are rewritten as replayed. *)
Example replay_from_second_task :
  ∃ r r',
    @kickoff echo_agents three_task_crew None (initial_state three_task_crew)
    = Done r ∧
    @replay_from_task echo_agents three_task_crew 11 None r.2 = Done r' ∧
    omap dispatch_index (drop (length (events r.2)) (events r'.2)) = [1; 2] ∧
    was_replayed <$> output_file r'.2 = [false; true; true].
Proof.
  match eval vm_compute in
        (@kickoff echo_agents three_task_crew None (initial_state three_task_crew))
  with
  | Done ?r =>
      exists r;
      match eval vm_compute in (@replay_from_task echo_agents three_task_crew 11 None r.2)
      with
      | Done ?r' => exists r'
      end
  end.
  repeat split; by vm_compute.
Qed.

Example replay_of_unknown_task :
  ∃ s', @replay_from_task echo_agents three_task_crew 11 None
          (initial_state three_task_crew) = Raised (task_not_found 11) s'.
Proof. eexists. by vm_compute. Qed.

(** A replay from the last of three tasks by a fresh crew object over the
    file a kickoff left: the result slots of the first two tasks are
    filled from the file, and the third task is handed the stored output
    of the second. *)
Example replay_from_last_task_seeds :
  ∃ r r',
    @kickoff echo_agents three_task_crew None (initial_state three_task_crew)
    = Done r ∧
    task_output (initial_state three_task_crew) = ∅ ∧
    @replay_from_task echo_agents three_task_crew 12 None
      (set_output_file (output_file r.2) (initial_state three_task_crew)) = Done r' ∧
    task_output r'.2 !! 10 = log_output <$> output_file r.2 !! 0 ∧
    task_output r'.2 !! 11 = log_output <$> output_file r.2 !! 1 ∧
    raw <$> task_output r'.2 !! 11 = Some "[B]" ∧
    events r'.2 !! 0 = Some (ev_execute_sync 2 (Some researcher) "[B]" []).
Proof.
  match eval vm_compute in
        (@kickoff echo_agents three_task_crew None (initial_state three_task_crew))
  with
  | Done ?r =>
      exists r;
      match eval vm_compute in
            (@replay_from_task echo_agents three_task_crew 12 None
               (set_output_file (output_file r.2) (initial_state three_task_crew)))
      with
      | Done ?r' => exists r'
      end
  end.
  repeat split; by vm_compute.
Qed.
(** ** Batch kickoff over copies *)

Section Batch.
Context `{Collaborators}.






(** A crew that holds a manager cannot be run in a batch: the first copy
    raises, before anything is dispatched. *)
Lemma kickoff_for_each_with_manager (c : Crew) (input : gmap string string)
    (inputs : list (gmap string string)) (s : State) :
  is_Some (current_manager s) →
  kickoff_for_each c (input :: inputs) s = Raised manager_agent_not_rebuilt s.
Proof.
  intros [m Hm]. unfold kickoff_for_each. cbn [kickoff_for_each_loop].
  unfold copy. by rewrite Hm.
Qed.

End Batch.



(** A hierarchical crew with a manager of its own: the batch raises in
    [Crew.copy] and nothing is run. *)
Example kickoff_for_each_of_managed_crew :
  @kickoff_for_each echo_agents managed_crew [inputs_x] (initial_state managed_crew)
  = Raised manager_agent_not_rebuilt (initial_state managed_crew).
Proof. by vm_compute. Qed.

(** ** Usage totals *)

Lemma add_token_sum_keys (token_sum : gmap string Z) (ks : list string) :
  NoDup ks →
  ∀ (tot : gmap string Z) (key : string),
    foldl (λ tot key,
             <[key := (default 0 (tot !! key) + default 0 (token_sum !! key))%Z]> tot)
          tot ks !! key
    = if decide (key ∈ ks)
      then Some (default 0 (tot !! key) + default 0 (token_sum !! key))%Z
      else tot !! key.
Proof.
  induction 1 as [|k ks Hk Hnd IH]; intros tot key; cbn.
  - case_decide as Hin; [by apply not_elem_of_nil in Hin | done].
  - rewrite IH. destruct (decide (key = k)) as [->|Hne].
    + rewrite decide_False by done. rewrite lookup_insert_eq.
      rewrite decide_True by (by left). done.
    + rewrite lookup_insert_ne by done.
      destruct (decide (key ∈ ks)) as [Hin|Hin].
      * rewrite decide_True by (by right). done.
      * rewrite decide_False; [done|]. intros [?|?]%elem_of_cons; done.
Qed.

Lemma add_token_sum_lookup (total token_sum : gmap string Z) (key : string) :
  add_token_sum total token_sum !! key
  = (λ v, (v + default 0 (token_sum !! key))%Z) <$> total !! key.
Proof.
  unfold add_token_sum.
  rewrite add_token_sum_keys by apply NoDup_fst_map_to_list.
  destruct (total !! key) as [v|] eqn:E; cbn.
  - rewrite decide_True; [done|].
    apply list_elem_of_fmap. exists (key, v). split; [done|].
    by apply elem_of_map_to_list.
  - rewrite decide_False; [done|].
    intros ([k v] & -> & Hin)%list_elem_of_fmap.
    apply elem_of_map_to_list in Hin. cbn in E. congruence.
Qed.

Lemma zero_usage_metrics_lookup (key : string) :
  key ∈ usage_keys → zero_usage_metrics !! key = Some 0%Z.
Proof.
  unfold usage_keys. intros Hin.
  repeat (apply elem_of_cons in Hin as [->|Hin]; [by vm_compute|]).
  by apply not_elem_of_nil in Hin.
Qed.

Lemma sum_over_agents (key : string) (ags : list Agent) :
  ∀ (total : gmap string Z) (v : Z),
    total !! key = Some v →
    foldl (λ tot a,
             match token_process a with
             | Some token_sum => add_token_sum tot token_sum
             | None => tot
             end) total ags !! key
    = Some (v + sum_reported ags key)%Z.
Proof.
  induction ags as [|a ags IH]; intros total v Hv; cbn [foldl sum_reported foldr].
  - rewrite Hv. apply (f_equal (@Some Z)). lia.
  - unfold reported at 1. destruct (token_process a) as [token_sum|].
    + rewrite (IH _ (v + default 0 (token_sum !! key))%Z).
      * apply (f_equal (@Some Z)). fold (sum_reported ags key). lia.
      * by rewrite add_token_sum_lookup, Hv.
    + rewrite (IH _ v Hv). apply (f_equal (@Some Z)). fold (sum_reported ags key). lia.
Qed.

(** The totals of [calculate_usage_metrics]: for each of the four fields,
    the sum of what the workers report plus what the manager reports. *)
Lemma calculate_usage_metrics_sum (c : Crew) (s : State) (key : string) :
  key ∈ usage_keys →
  calculate_usage_metrics c s !! key
  = Some (sum_reported (agents c) key
          + match current_manager s with
            | Some m => reported m key
            | None => 0
            end)%Z.
Proof.
  intros Hkey. unfold calculate_usage_metrics.
  pose proof (sum_over_agents key (agents c) zero_usage_metrics 0%Z
                (zero_usage_metrics_lookup key Hkey)) as Hsum.
  destruct (current_manager s) as [m|]; [|rewrite Hsum; apply (f_equal (@Some Z)); lia].
  unfold reported. destruct (token_process m) as [token_sum|].
  - rewrite add_token_sum_lookup, Hsum. cbn. apply (f_equal (@Some Z)). lia.
  - rewrite Hsum. apply (f_equal (@Some Z)). lia.
Qed.

(** C7.  In a hierarchical kickoff whose manager has run a task, the
    totals [kickoff] stores in the crew's [usage_metrics] leave the manager
    out: they are the sums over the workers alone (17 tokens), while the
    totals of [calculate_usage_metrics] in the returned output count the
    manager as well (22 tokens). *)
Lemma kickoff_usage_metrics_omit_manager :
  ∃ r, @kickoff echo_agents managed_crew None (initial_state managed_crew) = Done r ∧
       ev_execute_sync 0 (Some (set_agent_tools
                                  (get_delegation_tools [researcher; writer])
                                  (set_allow_delegation true counting_manager)))
         "" [DelegateTo "Researcher"; DelegateTo "Writer"] ∈ events r.2 ∧
       reported counting_manager "total_tokens" = 5%Z ∧
       sum_reported (agents managed_crew) "total_tokens" = 17%Z ∧
       token_usage r.1 !! "total_tokens" = Some 22%Z ∧
       (usage_metrics r.2 ≫= (.!! "total_tokens")) = Some 17%Z.
Proof.
  match eval vm_compute in
        (@kickoff echo_agents managed_crew None (initial_state managed_crew)) with
  | Done ?r => exists r
  end.
  split; [by vm_compute|].
  split; [apply list_elem_of_In; vm_compute; tauto|].
  repeat split; by vm_compute.
Qed.

(** ** The tools of the manager *)

(** In a hierarchical run the second assignment replaces the first: right
    before a dispatch the tools of the manager are the delegation tools
    over the workers of the crew, whatever the agent of the task. *)
Lemma wire_manager_hierarchical (c : Crew) (task : Task) (m : Agent) :
  process c = hierarchical →
  wire_manager c task (Some m)
  = Some (set_agent_tools (get_delegation_tools (agents c)) m).
Proof. intros Hp. unfold wire_manager. rewrite Hp. by destruct (agent task). Qed.

Lemma can_delegate_to_roster (ags : list Agent) (a : Agent) :
  can_delegate_to (get_delegation_tools ags) a ↔ ∃ w, w ∈ ags ∧ role w = role a.
Proof.
  unfold can_delegate_to, get_delegation_tools. rewrite list_elem_of_fmap. split.
  - intros (w & [= Hr] & Hin). by exists w.
  - intros (w & Hin & Hr). exists w. by rewrite Hr.
Qed.

(** C2.  A hierarchical crew whose task is assigned to an agent outside
    the worker roster is constructed and run; when the task is dispatched
    the manager can delegate to the roster but not to the agent of the
    task: the capability granted by the first assignment has been
    overwritten by the second. *)
Lemma manager_tools_overwritten :
  construct crew_with_outside_agent = Ok crew_with_outside_agent ∧
  agent <$> tasks crew_with_outside_agent = [Some writer] ∧
  ∃ r, @kickoff echo_agents crew_with_outside_agent None
         (initial_state crew_with_outside_agent) = Done r ∧
       (agent_tools <$> current_manager r.2) = Some [DelegateTo "Researcher"] ∧
       ∀ m, current_manager r.2 = Some m →
            can_delegate_to (agent_tools m) researcher ∧
            ¬ can_delegate_to (agent_tools m) writer.
Proof.
  split; [by vm_compute|]. split; [done|].
  match eval vm_compute in
        (@kickoff echo_agents crew_with_outside_agent None
           (initial_state crew_with_outside_agent)) with
  | Done ?r => exists r
  end.
  split; [by vm_compute|]. split; [by vm_compute|].
  intros m [= <-]. unfold can_delegate_to. cbn. split; [by left|].
  intros Hin. apply list_elem_of_singleton in Hin. discriminate Hin.
Qed.

(** ** The other validators *)

Lemma final_async_task_count_two (l : list Task) :
  1 < final_async_task_count l ↔
  ∃ b a rest, l = b :: a :: rest ∧ async_execution b = true ∧ async_execution a = true.
Proof.
  split.
  - destruct l as [|b [|a rest]]; cbn; [lia| |].
    + destruct (async_execution b); lia.
    + destruct (async_execution b) eqn:Eb; [|lia].
      destruct (async_execution a) eqn:Ea; [|lia].
      intros _. by exists b, a, rest.
  - intros (b & a & rest & -> & Hb & Ha). cbn. rewrite Hb, Ha. lia.
Qed.

Lemma trailing_async_pair_count (ts : list Task) :
  1 < final_async_task_count (reverse ts) ↔ trailing_async_pair ts.
Proof.
  rewrite final_async_task_count_two. unfold trailing_async_pair. split.
  - intros (b & a & rest & Hr & Hb & Ha). exists (reverse rest), a, b.
    split; [|done]. apply (inj reverse).
    rewrite Hr, reverse_app, reverse_involutive. done.
  - intros (earlier & a & b & -> & Ha & Hb). exists b, a, (reverse earlier).
    split; [|done]. by rewrite reverse_app.
Qed.

Lemma validate_end_Ok (c : Crew) :
  validate_end_with_at_most_one_async_task c = Ok c ↔ ¬ trailing_async_pair (tasks c).
Proof.
  unfold validate_end_with_at_most_one_async_task.
  rewrite <- trailing_async_pair_count. by case_bool_decide.
Qed.

(** X1.  The end-of-list validator raises exactly when the last two tasks are
    both asynchronous, wherever else asynchronous tasks stand; otherwise
    it returns the crew. *)
Theorem at_most_one_trailing_async (c : Crew) :
  (validate_end_with_at_most_one_async_task c = Err async_task_count
   ↔ trailing_async_pair (tasks c)) ∧
  (validate_end_with_at_most_one_async_task c = Ok c
   ↔ ¬ trailing_async_pair (tasks c)).
Proof.
  unfold validate_end_with_at_most_one_async_task.
  rewrite <- trailing_async_pair_count.
  case_bool_decide as Hc; split; split; try done; congruence.
Qed.

Lemma check_manager_llm_Ok (c : Crew) :
  check_manager_llm c = Ok c ↔
  (process c = hierarchical →
     (manager_llm c = true ∨ is_Some (manager_agent c)) ∧
     (∀ m, manager_agent c = Some m → m ∉ agents c)).
Proof.
  unfold check_manager_llm. destruct (process c); [by split|].
  destruct (manager_llm c), (manager_agent c) as [m|]; cbn.
  - case_bool_decide as Hin.
    + split; [done|]. intros H. destruct (H eq_refl) as [_ Hm]. by destruct (Hm m).
    + split; [|done]. intros _ _. split; [by left|]. by intros ? [= <-].
  - split; [|done]. intros _ _. split; [by left | done].
  - case_bool_decide as Hin.
    + split; [done|]. intros H. destruct (H eq_refl) as [_ Hm]. by destruct (Hm m).
    + split; [|done]. intros _ _. split; [by right; eexists|]. by intros ? [= <-].
  - split; [done|]. intros H. destruct (H eq_refl) as [[?|[? ?]] _]; done.
Qed.

Lemma check_config_Ok (c : Crew) :
  check_config c = Ok c ↔ tasks c ≠ [] ∨ agents c ≠ [].
Proof.
  unfold check_config. destruct (tasks c), (agents c); split; try done; auto.
  intros [?|?]; done.
Qed.

Lemma validate_tasks_Ok (c : Crew) :
  validate_tasks c = Ok c ↔
  (process c = sequential → Forall (λ t, is_Some (agent t)) (tasks c)).
Proof.
  unfold validate_tasks. destruct (process c); [|by split].
  destruct (List.find _ (tasks c)) as [t|] eqn:E.
  - split; [done|]. intros Hall. apply find_some in E as [Hin Ht].
    apply bool_decide_eq_true in Ht.
    specialize (Hall eq_refl). rewrite Forall_forall in Hall.
    apply list_elem_of_In in Hin. destruct (Hall t Hin) as [a Ha]. congruence.
  - split; [|done]. intros _ _. apply Forall_forall. intros t Hin.
    apply list_elem_of_In in Hin. pose proof (find_none _ _ E t Hin) as Hn.
    apply bool_decide_eq_false in Hn. by destruct (agent t); [eexists|].
Qed.

Lemma check_tasks_not_async_Ok (c : Crew) :
  check_tasks_in_hierarchical_process_not_async c = Ok c ↔
  (process c = hierarchical → Forall (λ t, async_execution t = false) (tasks c)).
Proof.
  unfold check_tasks_in_hierarchical_process_not_async.
  destruct (process c); [by split|].
  destruct (existsb async_execution (tasks c)) eqn:E.
  - split; [done|]. intros Hall. apply existsb_exists in E as (t & Hin & Ht).
    specialize (Hall eq_refl). rewrite Forall_forall in Hall.
    apply list_elem_of_In in Hin. rewrite (Hall t Hin) in Ht. done.
  - split; [|done]. intros _ _. apply Forall_forall. intros t Hin.
    apply list_elem_of_In in Hin.
    destruct (async_execution t) eqn:Et; [|done].
    assert (existsb async_execution (tasks c) = true) as Hex
      by (apply existsb_exists; eauto).
    congruence.
Qed.

(** X2.  Validation is sound and complete: with one uuid per task, a crew is
    constructed exactly when it satisfies the rules of the validators, and
    construction hands back the crew unchanged. *)
Theorem construct_well_formed (c : Crew) :
  NoDup (task_id <$> tasks c) →
  (construct c = Ok c ↔ well_formed_crew c) ∧
  (∀ c', construct c = Ok c' → c' = c).
Proof.
  intros Hnd. split; [|intros c' Hc; by apply construct_Ok in Hc as [-> _]].
  rewrite construct_Ok. unfold well_formed_crew.
  rewrite check_manager_llm_Ok, check_config_Ok, validate_tasks_Ok,
    check_tasks_not_async_Ok.
  rewrite validate_end_Ok.
  assert (validate_async_task_cannot_include_sequential_async_tasks_in_context c = Ok c
          ↔ ¬ async_context_violation (tasks c)) as ->.
  { rewrite <- async_context_loop_violation.
    unfold validate_async_task_cannot_include_sequential_async_tasks_in_context.
    destruct (async_context_loop [] (tasks c)) as [t|].
    - split; [done | intros Hn; destruct Hn; by eexists].
    - split; [by intros _ [? ?] | done]. }
  assert (validate_context_no_future_tasks c = Ok c
          ↔ ¬ forward_reference (tasks c)) as ->.
  { rewrite <- (validate_context_no_future_tasks_Err c Hnd).
    unfold validate_context_no_future_tasks.
    destruct (future_context_loop _ _) as [[t x]|].
    - split; [done | intros Hn; destruct Hn; by do 2 eexists].
    - split; [by intros _ (? & ? & ?) | done]. }
  split.
  - intros (_ & Hm & Hc & Ht & Hh & He & Ha & Hf).
    split; [|done]. intros Hp. destruct (Hm Hp). split; [done|]. split; [done|].
    by apply Hh.
  - intros (Hh & Hc & Ht & He & Ha & Hf). split; [done|].
    split; [intros Hp; by destruct (Hh Hp) as (? & ? & ?)|].
    split; [done|]. split; [done|].
    split; [intros Hp; by destruct (Hh Hp) as (? & ? & ?)|]. done.
Qed.

Lemma construct_well_formed_witness :
  (construct crew_with_separated_async_context = Ok crew_with_separated_async_context
   ↔ well_formed_crew crew_with_separated_async_context) ∧
  (∀ c', construct crew_with_separated_async_context = Ok c' →
         c' = crew_with_separated_async_context).
Proof.
  apply (construct_well_formed crew_with_separated_async_context).
  apply (bool_decide_unpack _). vm_compute. exact I.
Defined.

(** ** The flush, handle by handle *)

Lemma process_async_tasks_app (p1 p2 : list (Task * Future * nat)) (replayed : bool)
    (outs : list TaskOutput) (s : State) :
  _process_async_tasks (p1 ++ p2) replayed outs s
  = (x ← _process_async_tasks p1 replayed outs s;
     _process_async_tasks p2 replayed x.1 x.2).
Proof.
  revert outs s. induction p1 as [|[[t f] i] p1 IH]; intros outs s; cbn; [done|].
  destruct f as [o|]; [apply IH | done].
Qed.

Lemma process_async_tasks_resolved (done : list (Task * TaskOutput * nat))
    (replayed : bool) (outs : list TaskOutput) (s : State) :
  _process_async_tasks (resolved done) replayed outs s
  = Done (outs ++ ((λ x, x.1.2) <$> done), foldl (log_resolved replayed) s done).
Proof.
  revert outs s. induction done as [|[[t o] i] done IH]; intros outs s; cbn.
  - by rewrite app_nil_r.
  - unfold resolved in IH. rewrite IH, <- app_assoc. done.
Qed.

(** X3.  The flush is first in, first out, and a failure belongs to its own
    task: handles that succeed are resolved, filled in and logged one after
    the other in the order of the list; at the first handle that fails the
    flush raises with the position of that handle's task, after the
    results before it have been logged and without touching the handles
    behind it. *)
Theorem flush_first_in_first_out (done : list (Task * TaskOutput * nat))
    (failed : Task) (i : nat) (behind : list (Task * Future * nat))
    (replayed : bool) (outs : list TaskOutput) (s : State) :
  _process_async_tasks (resolved done) replayed outs s
  = Done (outs ++ ((λ x, x.1.2) <$> done), foldl (log_resolved replayed) s done) ∧
  _process_async_tasks (resolved done ++ (failed, None, i) :: behind) replayed outs s
  = Raised (agent_failure i)
           (emit (ev_future_result i) (foldl (log_resolved replayed) s done)).
Proof.
  split; [apply process_async_tasks_resolved|].
  by rewrite process_async_tasks_app, process_async_tasks_resolved.
Qed.

(** ** Writing a log entry *)

(** X4.  [_store_execution_log] keeps the in-memory log and the file in step
    and reads back: the entry carries the task's id, the position it was
    given, the output and the replay flag; it overwrites position
    [task_index] when the log is long enough and is appended at the end
    otherwise, which is position [task_index] only when the log has exactly
    that length; all other entries stay. *)
Theorem store_execution_log_read_back (task : Task) (output : TaskOutput)
    (task_index : nat) (replayed : bool) (s : State) :
  let s' := _store_execution_log task output task_index replayed s in
  let position := task_index `min` length (execution_logs s) in
  ∃ entry,
    log_task_id entry = task_id task ∧ log_task_index entry = task_index ∧
    log_output entry = output ∧ was_replayed entry = replayed ∧
    log_expected_output entry = expected_output task ∧
    execution_logs s' !! position = Some entry ∧
    length (execution_logs s') = length (execution_logs s) `max` S position ∧
    (∀ j, j ≠ position → execution_logs s' !! j = execution_logs s !! j) ∧
    events s' = events s ++ [ev_store_execution_log task_index entry] ∧
    (execution_logs s = output_file s → execution_logs s' = output_file s').
Proof.
  cbn. eexists. repeat split; try done.
  - unfold update_execution_logs. case_bool_decide as Hlt.
    + rewrite Nat.min_l by lia. by apply list_lookup_insert_eq.
    + rewrite Nat.min_r by lia. by rewrite lookup_app_r, Nat.sub_diag.
  - unfold update_execution_logs. case_bool_decide as Hlt.
    + rewrite length_insert. lia.
    + rewrite length_app. cbn. lia.
  - intros j Hj. unfold update_execution_logs. case_bool_decide as Hlt.
    + rewrite Nat.min_l in Hj by lia. by apply list_lookup_insert_ne.
    + rewrite Nat.min_r in Hj by lia.
      destruct (decide (j < length (execution_logs s))) as [Hjl|Hjl].
      * by rewrite lookup_app_l.
      * rewrite (lookup_ge_None_2 (execution_logs s)) by lia.
        apply lookup_ge_None_2. rewrite length_app. cbn. lia.
  - intros Heq. unfold update_execution_logs, file_update. by rewrite Heq.
Qed.

(** ** The shape of the log after a kickoff *)

Lemma process_async_tasks_Done_resolved (pending : list (Task * Future * nat))
    (replayed : bool) (outs : list TaskOutput) (s : State)
    (x : list TaskOutput * State) :
  _process_async_tasks pending replayed outs s = Done x →
  ∃ done, pending = resolved done.
Proof.
  revert outs s. induction pending as [|[[t f] i] rest IH]; intros outs s; cbn.
  - intros _. by exists [].
  - destruct f as [o|]; [|done]. intros Hp. apply IH in Hp as [done ->].
    by exists ((t, o, i) :: done).
Qed.

Lemma flush_events_app (e1 e2 : list LogEntry) :
  flush_events (e1 ++ e2) = flush_events e1 ++ flush_events e2.
Proof. unfold flush_events. apply bind_app. Qed.

Lemma flush_events_dispatch (entries : list LogEntry) :
  omap dispatch_index (flush_events entries) = [].
Proof. induction entries as [|e es IH]; [done|]. cbn. exact IH. Qed.

Lemma flush_events_store (entries : list LogEntry) :
  omap store_index (flush_events entries) = log_task_index <$> entries.
Proof. induction entries as [|e es IH]; [done|]. cbn. by rewrite <- IH. Qed.

(** Resolved handles whose positions continue the log are appended to it,
    in the file and in memory alike. *)
Lemma log_resolved_dense (replayed : bool) (done : list (Task * TaskOutput * nat)) :
  ∀ s : State,
    (λ x, x.2) <$> done = seq (length (output_file s)) (length done) →
    execution_logs s = output_file s →
    let s' := foldl (log_resolved replayed) s done in
    output_file s' = output_file s ++ entries_of replayed (logged_inputs s) done ∧
    execution_logs s' = output_file s' ∧
    events s' = events s ++ flush_events (entries_of replayed (logged_inputs s) done) ∧
    _inputs s' = _inputs s ∧ current_manager s' = current_manager s ∧
    usage_metrics s' = usage_metrics s ∧ task_tools_now s' = task_tools_now s.
Proof.
  induction done as [|[[t o] i] done IH]; intros s Hidx Hlogs.
  - cbn. rewrite !app_nil_r. done.
  - cbn [foldl]. cbn in Hidx. injection Hidx as Hi Hidx. cbn in Hi. subst i.
    set (s1 := log_resolved replayed s (t, o, length (output_file s))).
    assert (output_file s1
            = output_file s ++ [mkLogEntry (task_id t) (expected_output t) o
                                  (length (output_file s)) (logged_inputs s) replayed])
      as Hf1.
    { subst s1. unfold log_resolved, _store_execution_log. cbn.
      unfold file_update. by rewrite bool_decide_eq_false_2 by lia. }
    assert (execution_logs s1 = output_file s1) as Hl1.
    { rewrite Hf1. subst s1. unfold log_resolved, _store_execution_log. cbn.
      unfold update_execution_logs. rewrite Hlogs.
      by rewrite bool_decide_eq_false_2 by lia. }
    assert (_inputs s1 = _inputs s) as Hi1 by done.
    assert (logged_inputs s1 = logged_inputs s) as Hli by done.
    destruct (IH s1) as (Hf & Hl & He & Hi & Hm & Hu & Ht).
    { rewrite Hf1, length_app. cbn. by rewrite Nat.add_1_r. }
    { done. }
    cbn zeta in *. rewrite Hli in Hf, He.
    split; [rewrite Hf, Hf1, <- app_assoc; done|].
    split; [done|].
    split; [rewrite He; subst s1; unfold log_resolved, _store_execution_log;
            cbn; by rewrite <- !app_assoc|].
    by rewrite Hi, Hm, Hu, Ht.
Qed.

Section DenseLog.
Context `{Collaborators}.

(** What a flush that returns has done, in terms of the handles. *)
Lemma flush_resolved (replayed : bool) (l lf : Loop) :
  flush replayed l = Done lf →
  ∃ done,
    futures l = resolved done ∧ futures lf = [] ∧
    state lf = foldl (log_resolved replayed) (state l) done ∧
    task_outputs lf = match done with
                      | [] => task_outputs l
                      | _ => (λ x, x.1.2) <$> done
                      end.
Proof.
  unfold flush. destruct (futures l) as [|p rest] eqn:E.
  - intros [= <-]. by exists [].
  - destruct (_process_async_tasks (p :: rest) replayed [] (state l)) as [x|e se] eqn:Ep;
      [|done].
    cbn. intros [= <-].
    destruct (process_async_tasks_Done_resolved _ _ _ _ _ Ep) as [done Hd].
    rewrite Hd, process_async_tasks_resolved in Ep. injection Ep as <-.
    exists done. cbn. split; [done|]. split; [done|]. split; [done|].
    destruct done; [done|done].
Qed.

Lemma wire_manager_is_Some (c : Crew) (task : Task) (manager : option Agent) :
  is_Some (wire_manager c task manager) ↔ is_Some manager.
Proof.
  unfold wire_manager. destruct (process c); [done|].
  destruct (agent task), manager; split; intros [? ?]; try done; by eexists.
Qed.

(** One iteration of the loop of [_execute_tasks] keeps the log dense. *)
Lemma execute_task_dense (c : Crew) (with_manager : bool) (s0 : State)
    (done : list Task) (task : Task) (l l' : Loop) :
  dense_log s0 done l →
  acting_agent_available with_manager (state l) [task] →
  execute_task c with_manager (length done) task l = Done l' →
  dense_log s0 (done ++ [task]) l' ∧
  (is_Some (current_manager (state l)) → is_Some (current_manager (state l'))).
Proof.
  intros (entries & new & Hfile & Hlogs & Hin & Hlen & Hidx & Htasks & Hli & Hlid
          & Hflags & Hev & Hdisp & Hstore & Hasync & Hlast) Hagent.
  unfold execute_task.
  destruct (add_worker_delegation_change c task (state l)) as [tn ->].
  set (s2 := if with_manager then _ else _).
  assert (output_file s2 = entries ∧ execution_logs s2 = entries ∧
          _inputs s2 = _inputs s0 ∧ events s2 = events s0 ++ new) as (Hf2 & Hl2 & Hi2 & He2)
    by (subst s2; by destruct with_manager).
  assert (is_Some (current_manager (state l)) → is_Some (current_manager s2)) as Hm2.
  { subst s2. destruct with_manager; [|done]. cbn. by rewrite wire_manager_is_Some. }
  assert (is_Some (agent_to_use s2 task (if with_manager then current_manager s2 else None)))
    as [a Ha].
  { unfold agent_to_use. destruct Hagent as [Hall|[-> Hm]].
    - apply Forall_inv in Hall as [a' ->]. by eexists.
    - destruct (agent task); [by eexists | by apply Hm2]. }
  rewrite Ha. clear Hagent.
  destruct (async_execution task) eqn:Easync.
  - (* asynchronous: the handle joins the pending list *)
    intros [= <-]. cbn [state futures task_outputs]. split; [|by cbn].
    exists entries, (new ++ [ev_execute_async (length done) (Some a)
                               (_set_context s2 task (task_outputs l)) (agent_tools a)]).
    cbn. rewrite Hf2, Hl2, Hi2, He2, !length_app, !fmap_app, !omap_app,
      Hidx, Htasks, Hdisp, Hstore. cbn.
    split; [done|]. split; [done|]. split; [done|]. split; [lia|].
    split; [rewrite seq_app; cbn; do 2 f_equal; lia|].
    split; [by rewrite drop_app_le by lia|].
    split; [done|].
    split; [by rewrite take_app_le by lia|].
    split; [done|]. split; [by rewrite <- app_assoc|].
    split; [by rewrite Nat.add_1_r, seq_S|].
    split; [by rewrite app_nil_r|].
    split; [apply Forall_app; split; [done|by repeat constructor]|].
    intros Hnil. by apply app_eq_nil in Hnil as [_ ?].
  - (* synchronous: flush, then run and log *)
    destruct (flush false (mkLoop (task_outputs l) (futures l) s2)) as [lf|e se] eqn:Ef;
      cbn [mbind run_bind]; [|done].
    apply flush_resolved in Ef as (fdone & Hres & Hfut & Hst & _).
    cbn [futures state] in Hres, Hst.
    destruct (log_resolved_dense false fdone s2) as (Hff & Hlf & Hef & Hif & Hmf & _).
    { rewrite Hf2. rewrite Hres in Hidx. unfold resolved in Hidx.
      rewrite <- list_fmap_compose in Hidx. rewrite length_fmap in Hidx. exact Hidx. }
    { by rewrite Hf2, Hl2. }
    cbn zeta in Hff, Hlf, Hef, Hif, Hmf. rewrite <- Hst in Hff, Hlf, Hef, Hif, Hmf.
    assert (logged_inputs s2 = logged_inputs s0) as Hls
      by (unfold logged_inputs; by rewrite Hi2).
    rewrite Hls in Hff, Hef.
    set (fentries := entries_of false (logged_inputs s0) fdone) in *.
    assert (length fentries = length (futures l)) as Hflen
      by (subst fentries; unfold entries_of; rewrite Hres; unfold resolved;
          by rewrite !length_fmap).
    assert (log_task_index <$> fentries = seq (length entries) (length (futures l)))
      as Hfidx.
    { rewrite <- Hidx, Hres. subst fentries. unfold entries_of, resolved.
      rewrite <- !list_fmap_compose. done. }
    assert (log_task_id <$> fentries = task_id <$> drop (length entries) done) as Hfid.
    { rewrite <- Htasks, Hres. subst fentries. unfold entries_of, resolved.
      rewrite <- !list_fmap_compose. done. }
    destruct (execute (Some a) task _ (agent_tools a)) as [o|]; [|done].
    intros [= <-].
    set (entry := mkLogEntry (task_id task) (expected_output task) o (length done)
                    (logged_inputs s0) false).
    set (sync_event := ev_execute_sync (length done) (Some a)
                         (_set_context (state lf) task (task_outputs lf))
                         (agent_tools a)).
    set (s3 := _store_execution_log task o (length done) false
                 (fill_task_output task o (emit sync_event (state lf)))).
    assert (logged_inputs (state lf) = logged_inputs s0) as Hlsf
      by (unfold logged_inputs; by rewrite Hif, Hi2).
    assert (length (entries ++ fentries) = length done) as Hfull
      by (rewrite length_app; lia).
    assert (output_file s3 = (entries ++ fentries) ++ [entry]) as Hf3.
    { subst s3. unfold _store_execution_log. cbn.
      fold (logged_inputs (state lf)). rewrite Hlsf, Hff, Hf2. unfold file_update.
      by rewrite bool_decide_eq_false_2 by lia. }
    assert (execution_logs s3 = (entries ++ fentries) ++ [entry]) as Hl3.
    { subst s3. unfold _store_execution_log. cbn.
      fold (logged_inputs (state lf)). rewrite Hlsf, Hlf, Hff, Hf2.
      unfold update_execution_logs. by rewrite bool_decide_eq_false_2 by lia. }
    assert (_inputs s3 = _inputs s0) as Hi3 by (subst s3; cbn; by rewrite Hif).
    assert (events s3 = events s0 ++ new ++ flush_events fentries
                        ++ [sync_event; ev_store_execution_log (length done) entry])
      as He3.
    { subst s3. unfold _store_execution_log. cbn.
      fold (logged_inputs (state lf)). rewrite Hlsf, Hef, He2. fold entry.
      by rewrite <- !app_assoc. }
    assert (current_manager s3 = current_manager s2) as Hm3
      by (subst s3; cbn; by rewrite Hmf).
    clearbody s3. split; [|cbn [state]; intros Hm; rewrite Hm3; by apply Hm2].
    exists ((entries ++ fentries) ++ [entry]),
      (new ++ flush_events fentries
           ++ [sync_event; ev_store_execution_log (length done) entry]).
    cbn [state futures task_outputs].
    rewrite Hfut, Hf3, Hl3, Hi3, He3.
    rewrite !length_app, !fmap_app, !omap_app, flush_events_dispatch,
      flush_events_store, Hli, Hlid, Hfidx, Hfid, Hdisp, Hstore, Hflen.
    cbn [length fmap list_fmap omap list_omap dispatch_index store_index app
         sync_event entry log_task_index log_task_id].
    assert (length entries + length (futures l) + 1 = S (length done)) as -> by lia.
    rewrite Nat.add_1_r, seq_S, Nat.add_0_r. cbn [Nat.add].
    split; [done|]. split; [done|]. split; [done|]. split; [lia|].
    split; [done|].
    split; [by rewrite drop_ge by (rewrite length_app; cbn; lia)|].
    split; [by rewrite <- Hlen, seq_app|].
    split.
    { rewrite (take_ge (done ++ [task])) by (rewrite length_app; cbn; lia).
      rewrite <- (take_drop (length entries) done) at 3.
      by rewrite !fmap_app. }
    split.
    { apply Forall_app. split; [apply Forall_app; split; [done|]|].
      - subst fentries. unfold entries_of. apply Forall_fmap, Forall_true. done.
      - by repeat constructor. }
    split; [done|]. split; [done|].
    split; [by rewrite <- Hlen, seq_app, <- app_assoc|].
    split; [done|].
    intros _ _. exists entry. by rewrite last_snoc.
Qed.

Lemma run_tasks_dense (c : Crew) (with_manager : bool) (s0 : State)
    (rest : list Task) :
  ∀ (done : list Task) (l l' : Loop),
    dense_log s0 done l →
    acting_agent_available with_manager (state l) rest →
    run_tasks (execute_task c with_manager) (length done) rest l = Done l' →
    dense_log s0 (done ++ rest) l'.
Proof.
  induction rest as [|task rest IH]; intros done l l' Hinv Hagent; cbn [run_tasks].
  - intros [= <-]. by rewrite app_nil_r.
  - destruct (execute_task c with_manager (length done) task l) as [l1|e se] eqn:E1;
      cbn [mbind run_bind]; [|done].
    intros Hrest.
    destruct (execute_task_dense c with_manager s0 done task l l1 Hinv) as [Hinv1 Hm1];
      [|done|].
    { destruct Hagent as [Hall|Hm]; [left | by right].
      apply Forall_cons in Hall as [? _]. by constructor. }
    replace (S (length done)) with (length (done ++ [task])) in Hrest
      by (rewrite length_app; cbn; lia).
    apply IH in Hrest; [by rewrite <- app_assoc in Hrest|done|].
    destruct Hagent as [Hall|[-> Hm]]; [left | right].
    + by apply Forall_cons in Hall as [_ ?].
    + split; [done|]. by apply Hm1.
Qed.

(** Two or more asynchronous tasks at the end of the list make a
    trailing pair. *)
Lemma async_tail_pair (ts : list Task) (k : nat) :
  2 ≤ length (drop k ts) →
  Forall (λ t, async_execution t = true) (drop k ts) →
  trailing_async_pair ts.
Proof.
  rewrite <- (take_drop k ts) at 3. generalize (take k ts) as front.
  generalize (drop k ts) as tail. clear ts k.
  intros tail. destruct tail as [|b tail _] using rev_ind; [cbn; lia|].
  destruct tail as [|a tail _] using rev_ind; [cbn; lia|].
  intros front _ Hall.
  apply Forall_app in Hall as [Hall Hb]. apply Forall_app in Hall as [_ Ha].
  apply Forall_inv in Ha, Hb.
  exists (front ++ tail), a, b. by rewrite <- !app_assoc.
Qed.

(** The log and the trace of [_execute_tasks] when it returns, started
    with an empty log and an agent for every task. *)
Lemma execute_tasks_dense (c : Crew) (with_manager : bool) (s s' : State)
    (out : CrewOutput) :
  output_file s = [] → execution_logs s = [] →
  acting_agent_available with_manager s (tasks c) →
  _execute_tasks c with_manager s = Done (out, s') →
  log_task_index <$> output_file s' = seq 0 (length (tasks c)) ∧
  log_task_id <$> output_file s' = task_id <$> tasks c ∧
  execution_logs s' = output_file s' ∧
  Forall (λ e, was_replayed e = false ∧ log_inputs e = logged_inputs s)
         (output_file s') ∧
  _inputs s' = _inputs s ∧
  (¬ trailing_async_pair (tasks c) →
   ∃ entry, last (output_file s') = Some entry ∧ result_of out (log_output entry)) ∧
  ∃ new, events s' = events s ++ new ∧
         omap dispatch_index new = seq 0 (length (tasks c)) ∧
         omap store_index new = seq 0 (length (tasks c)).
Proof.
  intros Hf0 Hl0 Hagent. unfold _execute_tasks.
  destruct (run_tasks _ 0 (tasks c) _) as [l|e se] eqn:Er; cbn [mbind run_bind]; [|done].
  pose proof Er as Er0.
  apply (run_tasks_dense c with_manager s (tasks c) []) in Er; [|..|done].
  2:{ exists [], []. cbn. rewrite Hf0, Hl0, app_nil_r. repeat split; done. }
  cbn [app] in Er.
  destruct Er as (entries & new & Hfile & Hlogs & Hin & Hlen & Hidx & Htasks & Hli
                  & Hlid & Hflags & Hev & Hdisp & Hstore & Hasync & Hlast).
  unfold finish_tasks.
  destruct (flush false l) as [lf|e se] eqn:Ef; cbn [mbind run_bind]; [|done].
  apply flush_resolved in Ef as (fdone & Hres & Hfut & Hst & Hout).
  destruct (log_resolved_dense false fdone (state l)) as (Hff & Hlf & Hef & Hif & _).
  { rewrite Hfile. rewrite Hres in Hidx. unfold resolved in Hidx.
    rewrite <- list_fmap_compose in Hidx. rewrite length_fmap in Hidx. exact Hidx. }
  { by rewrite Hfile, Hlogs. }
  cbn zeta in Hff, Hlf, Hef, Hif. rewrite <- Hst in Hff, Hlf, Hef, Hif.
  assert (logged_inputs (state l) = logged_inputs s) as Hls
    by (unfold logged_inputs; by rewrite Hin).
  rewrite Hls in Hff, Hef.
  set (fentries := entries_of false (logged_inputs s) fdone) in *.
  assert (length fentries = length (futures l)) as Hflen
    by (subst fentries; unfold entries_of; rewrite Hres; unfold resolved;
        by rewrite !length_fmap).
  assert (log_task_index <$> fentries = seq (length entries) (length (futures l)))
    as Hfidx.
  { rewrite <- Hidx, Hres. subst fentries. unfold entries_of, resolved.
    rewrite <- !list_fmap_compose. done. }
  assert (log_task_id <$> fentries = task_id <$> drop (length entries) (tasks c))
    as Hfid.
  { rewrite <- Htasks, Hres. subst fentries. unfold entries_of, resolved.
    rewrite <- !list_fmap_compose. done. }
  destruct (task_outputs lf) as [|final rest] eqn:Eo; [done|].
  intros [= <- <-].
  assert (¬ trailing_async_pair (tasks c) →
          ∃ entry, last (entries ++ fentries) = Some entry ∧ final = log_output entry)
    as Hresult.
  { intros Hpair. destruct fdone as [|x [|y more]].
    - destruct (decide (tasks c = [])) as [Hnil|Hne].
      { rewrite Hnil in Er0. cbn in Er0. injection Er0 as <-. cbn in Hout. discriminate Hout. }
      destruct (Hlast Hres Hne) as (entry & He & Ho).
      exists entry. subst fentries. cbn. rewrite app_nil_r. split; [done|]. congruence.
    - cbn in Hout. injection Hout as -> _.
      eexists. subst fentries. cbn. rewrite last_snoc. by split.
    - destruct Hpair. apply (async_tail_pair _ (length entries)).
      + rewrite <- Htasks, Hres. cbn. lia.
      + rewrite <- Htasks. by apply Forall_fmap. }
  assert (∀ st, output_file (_finish_execution c (raw final) st) = output_file st
                ∧ execution_logs (_finish_execution c (raw final) st) = execution_logs st
                ∧ _inputs (_finish_execution c (raw final) st) = _inputs st
                ∧ ∃ tail, events (_finish_execution c (raw final) st) = events st ++ tail
                          ∧ omap dispatch_index tail = []
                          ∧ omap store_index tail = []) as Hfin.
  { intros st. unfold _finish_execution. destruct (truthy_max_rpm c); cbn.
    - repeat split; try done. eexists [_; _]. by rewrite <- app_assoc.
    - repeat split; try done. by eexists [_]. }
  destruct (Hfin (state lf)) as (-> & -> & -> & tail & -> & Htd & Hts).
  rewrite Hlf, Hff, Hfile, Hif, Hin, Hef, Hev.
  rewrite !fmap_app, Hli, Hlid, Hfidx, Hfid, <- seq_app, Hlen.
  rewrite <- fmap_app, take_drop.
  split; [done|]. split; [done|]. split; [done|]. split.
  { apply Forall_app. split; [done|].
    subst fentries. unfold entries_of. apply Forall_fmap, Forall_true. done. }
  split; [done|].
  split.
  { intros Hpair. destruct (Hresult Hpair) as (entry & He & ->). by exists entry. }
  exists (new ++ flush_events fentries ++ tail).
  rewrite !omap_app, flush_events_dispatch, flush_events_store, Hdisp, Hstore,
    Htd, Hts, Hfidx, !app_nil_r, <- seq_app, Hlen, <- !app_assoc.
  done.
Qed.

End DenseLog.

(** ** The log of a kickoff that returns *)

Lemma logged_inputs_default (s : State) :
  logged_inputs s = default ∅ (_inputs s).
Proof.
  unfold logged_inputs, truthy_inputs. destruct (_inputs s) as [i|]; [|done].
  cbn. by case_bool_decide.
Qed.

Section KickoffLog.
Context `{Collaborators}.

(** The run of the process inside [kickoff], started on an empty file. *)
Lemma run_process_dense (c : Crew) (s1 sr : State) (o : CrewOutput) :
  validate_tasks c = Ok c →
  output_file s1 = [] →
  match process c with
  | sequential => _run_sequential_process c s1
  | hierarchical => _run_hierarchical_process c s1
  end = Done (o, sr) →
  log_task_index <$> output_file sr = seq 0 (length (tasks c)) ∧
  log_task_id <$> output_file sr = task_id <$> tasks c ∧
  execution_logs sr = output_file sr ∧
  Forall (λ e, was_replayed e = false ∧ log_inputs e = default ∅ (_inputs s1))
         (output_file sr) ∧
  (¬ trailing_async_pair (tasks c) →
   ∃ entry, last (output_file sr) = Some entry ∧ result_of o (log_output entry)) ∧
  ∃ new, events sr = events s1 ++ new ∧
         omap dispatch_index new = seq 0 (length (tasks c)) ∧
         omap store_index new = seq 0 (length (tasks c)).
Proof.
  intros Hvalid Hf1 Er. pose proof (proj1 (validate_tasks_Ok c) Hvalid) as Hagents.
  assert (∃ with_manager s2,
            _execute_tasks c with_manager s2 = Done (o, sr)
            ∧ output_file s2 = [] ∧ execution_logs s2 = []
            ∧ events s2 = events s1 ∧ _inputs s2 = _inputs s1
            ∧ acting_agent_available with_manager s2 (tasks c))
    as (with_manager & s2 & Hrun & Hf2 & Hl2 & He2 & Hi2 & Hav).
  { destruct (process c) eqn:Ep.
    - exists false, (set_execution_logs [] s1). repeat split; try done.
      left. by apply Hagents.
    - unfold _run_hierarchical_process in Er.
      destruct (_create_manager_agent c (set_execution_logs [] s1)) as [s2|e se] eqn:Em;
        cbn [mbind run_bind] in Er; [|done].
      exists true, s2. split; [done|].
      unfold _create_manager_agent in Em. cbn in Em.
      destruct (current_manager s1) as [m|]; [case_bool_decide; [done|]|];
        injection Em as <-; cbn; repeat split; try done; right; by split. }
  destruct (execute_tasks_dense c with_manager s2 sr o Hf2 Hl2 Hav Hrun)
    as (Hidx & Hid & Hlogs & Hflags & Hin & Hres & new & Hev & Hd & Hs).
  rewrite logged_inputs_default, Hi2 in Hflags.
  repeat split; try done.
  exists new. by rewrite Hev, He2.
Qed.

Lemma kickoff_dense (c : Crew) (inputs : option (gmap string string))
    (s s' : State) (out : CrewOutput) :
  validate_tasks c = Ok c →
  kickoff c inputs s = Done (out, s') →
  log_task_index <$> output_file s' = seq 0 (length (tasks c)) ∧
  log_task_id <$> output_file s' = task_id <$> tasks c ∧
  execution_logs s' = output_file s' ∧
  Forall (λ e, was_replayed e = false ∧ log_inputs e = kickoff_inputs inputs s)
         (output_file s') ∧
  (¬ trailing_async_pair (tasks c) →
   ∃ entry, last (output_file s') = Some entry ∧ result_of out (log_output entry)) ∧
  ∃ new, events s' = events s ++ new ∧
         omap dispatch_index new = seq 0 (length (tasks c)) ∧
         omap store_index new = seq 0 (length (tasks c)).
Proof.
  intros Hvalid. unfold kickoff.
  set (s1 := match inputs with
             | Some i => set_inputs (Some i) (set_output_file [] s)
             | None => set_output_file [] s
             end).
  assert (output_file s1 = [] ∧ events s1 = events s
          ∧ default ∅ (_inputs s1) = kickoff_inputs inputs s) as (Hf1 & He1 & Hi1)
    by (subst s1; unfold kickoff_inputs; by destruct inputs).
  clearbody s1.
  destruct (match process c with
            | sequential => _run_sequential_process c s1
            | hierarchical => _run_hierarchical_process c s1
            end) as [[o sr]|e se] eqn:Er; cbn [mbind run_bind]; [|done].
  destruct (kickoff_usage_metrics (agents c)) as [usage|e]; [|done].
  intros [= <- <-]. cbn [fst snd].
  destruct (run_process_dense c s1 sr o Hvalid Hf1 Er)
    as (Hidx & Hid & Hlogs & Hflags & Hres & new & Hev & Hd & Hs).
  cbn. rewrite Hi1 in Hflags.
  repeat split; try done.
  exists new. by rewrite Hev, He1.
Qed.

End KickoffLog.

(** ** The log of a kickoff that fails *)

Lemma process_async_tasks_Raised (pending : list (Task * Future * nat))
    (replayed : bool) (e : Error) (se : State) :
  ∀ (outs : list TaskOutput) (s : State),
    _process_async_tasks pending replayed outs s = Raised e se →
    ∃ done failed i behind,
      pending = resolved done ++ (failed, None, i) :: behind ∧
      e = agent_failure i ∧
      se = emit (ev_future_result i) (foldl (log_resolved replayed) s done).
Proof.
  induction pending as [|[[t f] i] rest IH]; intros outs s; cbn; [done|].
  destruct f as [o|].
  - intros Hp. apply IH in Hp as (done & failed & j & behind & -> & -> & ->).
    by exists ((t, o, i) :: done), failed, j, behind.
  - intros [= <- <-]. by exists [], t, i, rest.
Qed.

Lemma log_prefix_app (ts more : list Task) (i : nat) (s : State) :
  i ≤ length ts → log_prefix ts i s → log_prefix (ts ++ more) i s.
Proof.
  intros Hi (Hidx & Hid & Hlogs). split; [done|]. split; [|done].
  by rewrite take_app_le.
Qed.

(** A flush that fails on a dense log leaves the entries of the tasks
    before the failing one. *)
Lemma flush_raised_prefix (done : list Task) (outs : list TaskOutput)
    (pending : list (Task * Future * nat)) (s : State) (e : Error) (se : State) :
  execution_logs s = output_file s →
  length (output_file s) + length pending = length done →
  (λ p, p.2) <$> pending = seq (length (output_file s)) (length pending) →
  (λ p, p.1.1) <$> pending = drop (length (output_file s)) done →
  log_task_index <$> output_file s = seq 0 (length (output_file s)) →
  log_task_id <$> output_file s = task_id <$> take (length (output_file s)) done →
  flush false (mkLoop outs pending s) = Raised e se →
  ∃ i, e = agent_failure i ∧ i < length done ∧ log_prefix done i se.
Proof.
  intros Hlogs Hlen Hidx Htasks Hli Hlid. unfold flush. cbn [futures state].
  destruct pending as [|p rest] eqn:Ep; [done|]. rewrite <- Ep in *. clear Ep p rest.
  destruct (_process_async_tasks pending false [] s) as [x|e' se'] eqn:E;
    cbn [mbind run_bind]; [done|].
  intros [= -> ->].
  apply process_async_tasks_Raised in E as (d1 & failed & i & behind & -> & -> & ->).
  set (k := length (output_file s)) in *.
  rewrite length_app in Hlen, Hidx. cbn [length] in Hlen, Hidx.
  assert (length (resolved d1) = length d1) as Hrl by (unfold resolved; by rewrite length_fmap).
  rewrite Hrl in Hlen, Hidx.
  rewrite fmap_app, seq_app in Hidx. cbn in Hidx.
  apply app_inj_1 in Hidx as [Hidx1 Hidx2];
    [|by rewrite length_fmap, length_seq].
  injection Hidx2 as -> _.
  unfold resolved in Hidx1. rewrite <- list_fmap_compose in Hidx1.
  change ((λ x : Task * TaskOutput * nat, x.2) <$> d1 = seq k (length d1)) in Hidx1.
  destruct (log_resolved_dense false d1 s Hidx1 Hlogs) as (Hff & Hlf & _).
  cbn zeta in Hff, Hlf.
  exists (k + length d1). split; [done|]. split; [lia|].
  unfold log_prefix. cbn [output_file execution_logs emit].
  rewrite Hlf, Hff. split; [|split; [|done]].
  - rewrite fmap_app, Hli. unfold entries_of. rewrite <- list_fmap_compose.
    change (log_task_index ∘ _) with (λ x : Task * TaskOutput * nat, x.2).
    by rewrite Hidx1, <- seq_app.
  - rewrite fmap_app, Hlid. unfold entries_of. rewrite <- list_fmap_compose.
    rewrite fmap_app in Htasks. unfold resolved in Htasks.
    rewrite <- list_fmap_compose in Htasks.
    rewrite <- (take_drop k done) at 2.
    rewrite take_app_add' by (rewrite length_take; lia).
    rewrite <- Htasks, take_app_length' by (by rewrite length_fmap).
    by rewrite fmap_app, <- list_fmap_compose.
Qed.

Section FailureLog.
Context `{Collaborators}.

(** An iteration of the loop of [_execute_tasks] that raises on a dense
    log. *)
Lemma execute_task_raised (c : Crew) (with_manager : bool) (s0 : State)
    (done : list Task) (task : Task) (l : Loop) (e : Error) (se : State) :
  dense_log s0 done l →
  execute_task c with_manager (length done) task l = Raised e se →
  ∃ i, e = agent_failure i ∧ i ≤ length done ∧ log_prefix done i se.
Proof.
  intros (entries & new & Hfile & Hlogs & Hin & Hlen & Hidx & Htasks & Hli & Hlid
          & Hflags & Hev & Hdisp & Hstore).
  unfold execute_task.
  destruct (add_worker_delegation_change c task (state l)) as [tn ->].
  set (s2 := if with_manager then _ else _).
  assert (output_file s2 = entries ∧ execution_logs s2 = entries) as (Hf2 & Hl2)
    by (subst s2; by destruct with_manager).
  clearbody s2.
  destruct (async_execution task); [by destruct (agent_to_use _ _ _)|].
  destruct (flush false (mkLoop (task_outputs l) (futures l) s2)) as [lf|e' se'] eqn:Ef;
    cbn [mbind run_bind].
  - destruct (agent_to_use _ _ _) as [a|]; [|done].
    destruct (execute (Some a) task _ (agent_tools a)) as [o|]; [done|].
    intros [= <- <-]. exists (length done). split; [done|]. split; [done|].
    apply flush_resolved in Ef as (fdone & Hres & Hfut & Hst & _).
    cbn [futures state] in Hres, Hst.
    destruct (log_resolved_dense false fdone s2) as (Hff & Hlf & _).
    { rewrite Hf2. rewrite Hres in Hidx. unfold resolved in Hidx.
      rewrite <- list_fmap_compose in Hidx. rewrite length_fmap in Hidx. exact Hidx. }
    { by rewrite Hf2, Hl2. }
    cbn zeta in Hff, Hlf. rewrite <- Hst in Hff, Hlf.
    unfold log_prefix. cbn [output_file execution_logs emit].
    rewrite Hlf, Hff, Hf2. split; [|split; [|done]].
    + rewrite fmap_app, Hli. unfold entries_of. rewrite <- list_fmap_compose.
      change (log_task_index ∘ _) with (λ x : Task * TaskOutput * nat, x.2).
      rewrite Hres in Hidx. unfold resolved in Hidx.
      rewrite <- list_fmap_compose, length_fmap in Hidx.
      change ((λ p : Task * Future * nat, p.2) ∘ _)
        with (λ x : Task * TaskOutput * nat, x.2) in Hidx.
      rewrite Hidx, <- seq_app. f_equal.
      rewrite Hres in Hlen. unfold resolved in Hlen. by rewrite length_fmap in Hlen.
    + rewrite fmap_app, Hlid, (take_ge done (length done)) by lia. unfold entries_of.
      rewrite <- list_fmap_compose.
      rewrite Hres in Htasks. unfold resolved in Htasks.
      rewrite <- list_fmap_compose in Htasks.
      rewrite <- (take_drop (length entries) done) at 2.
      rewrite fmap_app, <- Htasks, <- list_fmap_compose. done.
  - intros [= <- <-].
    apply (flush_raised_prefix done) in Ef as (i & -> & Hi & Hp);
      rewrite ?Hf2, ?Hl2; try done.
    exists i. split; [done|]. split; [lia|done].
Qed.

Lemma run_tasks_raised (c : Crew) (with_manager : bool) (s0 : State)
    (rest : list Task) (e : Error) (se : State) :
  ∀ (before : list Task) (l : Loop),
    dense_log s0 before l →
    acting_agent_available with_manager (state l) rest →
    run_tasks (execute_task c with_manager) (length before) rest l = Raised e se →
    ∃ i, e = agent_failure i ∧ i < length (before ++ rest)
         ∧ log_prefix (before ++ rest) i se.
Proof.
  induction rest as [|task rest IH]; intros before l Hinv Hagent; cbn [run_tasks]; [done|].
  destruct (execute_task c with_manager (length before) task l) as [l1|e1 se1] eqn:E1;
    cbn [mbind run_bind].
  - intros Hrest.
    destruct (execute_task_dense c with_manager s0 before task l l1 Hinv) as [Hinv1 Hm1];
      [|done|].
    { destruct Hagent as [Hall|Hm]; [left | by right].
      apply Forall_cons in Hall as [? _]. by constructor. }
    replace (S (length before)) with (length (before ++ [task])) in Hrest
      by (rewrite length_app; cbn; lia).
    apply IH in Hrest; [by rewrite <- app_assoc in Hrest|done|].
    destruct Hagent as [Hall|[-> Hm]]; [left | right].
    + by apply Forall_cons in Hall as [_ ?].
    + split; [done|]. by apply Hm1.
  - intros [= <- <-].
    apply (execute_task_raised c with_manager s0 before) in E1 as (i & -> & Hi & Hp);
      [|done].
    exists i. split; [done|]. split; [rewrite length_app; cbn; lia|].
    by apply log_prefix_app.
Qed.

Lemma execute_tasks_raised (c : Crew) (with_manager : bool) (s se : State) (i : nat) :
  output_file s = [] → execution_logs s = [] →
  acting_agent_available with_manager s (tasks c) →
  _execute_tasks c with_manager s = Raised (agent_failure i) se →
  i < length (tasks c) ∧ log_prefix (tasks c) i se.
Proof.
  intros Hf0 Hl0 Hagent. unfold _execute_tasks.
  assert (dense_log s [] (mkLoop [] [] s)) as Hinv0.
  { exists [], []. cbn. rewrite Hf0, Hl0, app_nil_r. repeat split; done. }
  destruct (run_tasks _ 0 (tasks c) _) as [l|e se'] eqn:Er; cbn [mbind run_bind].
  - apply (run_tasks_dense c with_manager s (tasks c) []) in Er; [|done..].
    cbn [app] in Er.
    destruct Er as (entries & new & Hfile & Hlogs & Hin & Hlen & Hidx & Htasks & Hli
                    & Hlid & _).
    unfold finish_tasks.
    destruct (flush false l) as [lf|e se'] eqn:Ef; cbn [mbind run_bind].
    + by destruct (task_outputs lf).
    + intros [= -> ->]. destruct l as [outs pending sl]. cbn [state futures] in *.
      apply (flush_raised_prefix (tasks c)) in Ef as (j & [= <-] & Hj & Hp);
        rewrite ?Hfile, ?Hlogs; done.
  - intros [= -> ->].
    apply (run_tasks_raised c with_manager s (tasks c) _ _ []) in Er
      as (j & [= <-] & Hj & Hp); done.
Qed.

Lemma kickoff_raised (c : Crew) (inputs : option (gmap string string))
    (s se : State) (i : nat) :
  validate_tasks c = Ok c →
  kickoff c inputs s = Raised (agent_failure i) se →
  i < length (tasks c) ∧ log_prefix (tasks c) i se.
Proof.
  intros Hvalid. pose proof (proj1 (validate_tasks_Ok c) Hvalid) as Hagents.
  unfold kickoff.
  set (s1 := match inputs with
             | Some i => set_inputs (Some i) (set_output_file [] s)
             | None => set_output_file [] s
             end).
  assert (output_file s1 = []) as Hf1 by (subst s1; by destruct inputs).
  clearbody s1.
  destruct (match process c with
            | sequential => _run_sequential_process c s1
            | hierarchical => _run_hierarchical_process c s1
            end) as [[o sr]|e se'] eqn:Er; cbn [mbind run_bind].
  { destruct (kickoff_usage_metrics (agents c)) as [usage|e] eqn:Eu; [done|].
    intros [= -> _]. apply kickoff_usage_metrics_errors in Eu.
    by destruct Eu as [?|[?|[? ?]]]. }
  intros [= -> ->].
  destruct (process c) eqn:Ep.
  - apply execute_tasks_raised in Er; [done..|]. left. by apply Hagents.
  - unfold _run_hierarchical_process in Er.
    destruct (_create_manager_agent c (set_execution_logs [] s1)) as [s2|e se'] eqn:Em;
      cbn [mbind run_bind] in Er.
    + apply execute_tasks_raised in Er; [done|..];
        unfold _create_manager_agent in Em; cbn in Em;
        (destruct (current_manager s1) as [m|]; [case_bool_decide; [done|]|];
         injection Em as <-; cbn; try done; right; by split).
    + unfold _create_manager_agent in Em. cbn in Em.
      destruct (current_manager s1); [case_bool_decide|]; congruence.
Qed.

(** The errors of [_execute_tasks], started with an empty log and an
    agent for every task: the failure of a task, or the read of element 0
    of an empty result list, which happens only without tasks. *)
Lemma execute_tasks_errors (c : Crew) (with_manager : bool) (s se : State)
    (e : Error) :
  output_file s = [] → execution_logs s = [] →
  acting_agent_available with_manager s (tasks c) →
  _execute_tasks c with_manager s = Raised e se →
  (∃ i, e = agent_failure i) ∨ (e = index_error ∧ tasks c = []).
Proof.
  intros Hf0 Hl0 Hagent. unfold _execute_tasks.
  assert (dense_log s [] (mkLoop [] [] s)) as Hinv0.
  { exists [], []. cbn. rewrite Hf0, Hl0, app_nil_r. repeat split; done. }
  destruct (run_tasks _ 0 (tasks c) _) as [l|e' se'] eqn:Er; cbn [mbind run_bind].
  - pose proof Er as Er0.
    apply (run_tasks_dense c with_manager s (tasks c) []) in Er; [|done..].
    cbn [app] in Er.
    destruct Er as (entries & new & Hfile & Hlogs & Hin & Hlen & Hidx & Htasks & Hli
                    & Hlid & _ & _ & _ & _ & _ & Hlast).
    unfold finish_tasks.
    destruct (flush false l) as [lf|e' se'] eqn:Ef; cbn [mbind run_bind].
    + destruct (task_outputs lf) as [|final rest] eqn:Eo; [|done].
      intros [= <- <-]. right. split; [done|].
      apply flush_resolved in Ef as (fdone & Hres & _ & _ & Hout).
      destruct fdone as [|x more]; [|by rewrite Eo in Hout].
      destruct (decide (tasks c = [])) as [Hnil|Hne]; [done|].
      destruct (Hlast Hres Hne) as (entry & _ & Ho). congruence.
    + intros [= -> ->]. left. destruct l as [outs pending sl]. cbn [state futures] in *.
      apply (flush_raised_prefix (tasks c)) in Ef as (j & -> & _);
        rewrite ?Hfile, ?Hlogs; try done.
      by exists j.
  - intros [= -> ->]. left.
    apply (run_tasks_raised c with_manager s (tasks c) _ _ []) in Er
      as (j & -> & _); [|done..].
    by exists j.
Qed.

(** Why a kickoff raises. *)
Lemma kickoff_errors (c : Crew) (inputs : option (gmap string string))
    (s se : State) (e : Error) :
  validate_tasks c = Ok c →
  kickoff c inputs s = Raised e se →
  (∃ i, e = agent_failure i ∧ i < length (tasks c)) ∨
  (e = manager_should_not_have_tools ∧ process c = hierarchical
   ∧ manager_holds_tools s ∧ events se = events s) ∨
  (e = index_error ∧ tasks c = []) ∨
  (kickoff_usage_metrics (agents c) = Err e
   ∧ length (execution_logs se) = length (tasks c)).
Proof.
  intros Hvalid Hrun.
  assert ((∃ i, e = agent_failure i) ∨ ¬ ∃ i, e = agent_failure i) as [[i ->]|Hother]
    by (destruct e; first [by left; eexists | right; by intros [? ?]]).
  { left. exists i. split; [done|]. by apply (kickoff_raised c inputs s se). }
  right. revert Hrun.
  pose proof (proj1 (validate_tasks_Ok c) Hvalid) as Hagents.
  unfold kickoff.
  set (s1 := match inputs with
             | Some i => set_inputs (Some i) (set_output_file [] s)
             | None => set_output_file [] s
             end).
  assert (output_file s1 = [] ∧ events s1 = events s
          ∧ current_manager s1 = current_manager s) as (Hf1 & He1 & Hm1)
    by (subst s1; by destruct inputs).
  clearbody s1.
  destruct (match process c with
            | sequential => _run_sequential_process c s1
            | hierarchical => _run_hierarchical_process c s1
            end) as [[o sr]|e' se'] eqn:Er; cbn [mbind run_bind].
  { destruct (kickoff_usage_metrics (agents c)) as [usage|e'] eqn:Eu; [done|].
    intros [= -> <-]. right; right. split; [done|].
    destruct (run_process_dense c s1 sr o Hvalid Hf1 Er) as (Hidx & _ & Hlogs & _).
    by rewrite Hlogs, <- (length_fmap log_task_index), Hidx, length_seq. }
  intros [= -> ->].
  destruct (process c) eqn:Ep.
  - apply execute_tasks_errors in Er as [[i ->]|[-> Hnil]]; [..|done|done|].
    + destruct Hother. by exists i.
    + by right; left.
    + left. by apply Hagents.
  - unfold _run_hierarchical_process in Er.
    destruct (_create_manager_agent c (set_execution_logs [] s1)) as [s2|e' se'] eqn:Em;
      cbn [mbind run_bind] in Er.
    + apply execute_tasks_errors in Er as [[i ->]|[-> Hnil]].
      * destruct Hother. by exists i.
      * by right; left.
      * unfold _create_manager_agent in Em. cbn in Em.
        destruct (current_manager s1) as [m|]; [case_bool_decide; [done|]|];
          by injection Em as <-.
      * unfold _create_manager_agent in Em. cbn in Em.
        destruct (current_manager s1) as [m|]; [case_bool_decide; [done|]|];
          by injection Em as <-.
      * right. unfold _create_manager_agent in Em. cbn in Em.
        destruct (current_manager s1) as [m|]; [case_bool_decide; [done|]|];
          injection Em as <-; by split.
    + injection Er as -> ->. left.
      unfold _create_manager_agent in Em. cbn in Em. rewrite Hm1 in Em.
      destruct (current_manager s) as [m|] eqn:Hm; [|done].
      case_bool_decide as Hlen; [|done]. injection Em as <- <-.
      split; [done|]. split; [done|]. split; [|done].
      exists m. split; [done|]. cbn in Hlen. destruct (agent_tools m); [cbn in Hlen; lia|done].
Qed.

End FailureLog.

(** ** What a kickoff leaves behind *)

(** The log finds a task at its position when the entries before it have
    other ids. *)
Lemma find_task_index_at (ts : list Task) (file : list LogEntry) (k : nat) (t : Task) :
  NoDup (task_id <$> ts) →
  ts !! k = Some t →
  is_Some (file !! k) →
  (∀ j e, file !! j = Some e → task_id <$> ts !! j = Some (log_task_id e)) →
  _find_task_index (task_id t) file = Some k.
Proof.
  intros Hnodup Hk [entry He] Hids. apply find_task_index_Some.
  exists entry. split; [done|].
  pose proof (Hids k entry He) as Hke. rewrite Hk in Hke. injection Hke as Hke.
  split; [done|].
  intros j e Hj Hje Heq. pose proof (Hids j e Hje) as Hjt.
  assert ((task_id <$> ts) !! j = Some (task_id t)) as H1
    by (by rewrite list_lookup_fmap, Hjt, Heq).
  assert ((task_id <$> ts) !! k = Some (task_id t)) as H2
    by (by rewrite list_lookup_fmap, Hk).
  pose proof (NoDup_lookup _ _ _ _ Hnodup H1 H2). lia.
Qed.

Lemma log_ids_lookup (ts : list Task) (file : list LogEntry) (i : nat) :
  log_task_id <$> file = task_id <$> take i ts →
  ∀ j e, file !! j = Some e → task_id <$> ts !! j = Some (log_task_id e).
Proof.
  intros Hids j e He.
  assert ((log_task_id <$> file) !! j = Some (log_task_id e)) as Hl
    by (by rewrite list_lookup_fmap, He).
  rewrite Hids, list_lookup_fmap in Hl.
  destruct (take i ts !! j) as [t|] eqn:Et; [|done].
  apply lookup_take_Some in Et as [-> _]. done.
Qed.

Section KickoffTheorems.
Context `{Collaborators}.

(** X5.  A kickoff that returns has handed every task to an agent exactly
    once, in the order of the task list, and has written the log entry of
    every task exactly once, again in that order: the positions of the
    dispatches it added to the trace are [0, 1, ..., n-1], and so are the
    positions of its log writes. *)
Theorem kickoff_runs_every_task_once (c : Crew)
    (inputs : option (gmap string string)) (s s' : State) (out : CrewOutput) :
  validate_tasks c = Ok c →
  kickoff c inputs s = Done (out, s') →
  ∃ new, events s' = events s ++ new ∧
         omap dispatch_index new = seq 0 (length (tasks c)) ∧
         omap store_index new = seq 0 (length (tasks c)).
Proof.
  intros Hvalid Hrun.
  by destruct (kickoff_dense c inputs s s' out Hvalid Hrun) as (_ & _ & _ & _ & _ & ?).
Qed.

(** X6.  After a kickoff that returns, [execution_logs] holds one entry per
    task and nothing from earlier runs: entry [k] carries position [k] and
    the id of task [k], is not marked as replayed and records the inputs
    of this kickoff; the file holds the same entries. *)
Theorem kickoff_log_layout (c : Crew)
    (inputs : option (gmap string string)) (s s' : State) (out : CrewOutput) :
  validate_tasks c = Ok c →
  kickoff c inputs s = Done (out, s') →
  log_task_index <$> execution_logs s' = seq 0 (length (tasks c)) ∧
  log_task_id <$> execution_logs s' = task_id <$> tasks c ∧
  Forall (λ e, was_replayed e = false ∧ log_inputs e = kickoff_inputs inputs s)
         (execution_logs s') ∧
  output_file s' = execution_logs s'.
Proof.
  intros Hvalid Hrun.
  destruct (kickoff_dense c inputs s s' out Hvalid Hrun) as (? & ? & Heq & ? & _).
  by rewrite Heq.
Qed.

(** X7.  After a kickoff that returns, looking up the id of a task in the log
    gives the position of that task in the task list, provided the ids of
    the tasks are distinct: every task can be named as the start of a
    replay. *)
Theorem kickoff_log_finds_every_task (c : Crew)
    (inputs : option (gmap string string)) (s s' : State) (out : CrewOutput)
    (k : nat) (t : Task) :
  validate_tasks c = Ok c →
  NoDup (task_id <$> tasks c) →
  kickoff c inputs s = Done (out, s') →
  tasks c !! k = Some t →
  _find_task_index (task_id t) (output_file s') = Some k.
Proof.
  intros Hvalid Hnodup Hrun Hk.
  destruct (kickoff_dense c inputs s s' out Hvalid Hrun) as (Hidx & Hids & _).
  apply (find_task_index_at (tasks c)); [done..| |].
  - apply lookup_lt_is_Some.
    rewrite <- (length_fmap log_task_index), Hidx, length_seq.
    by apply lookup_lt_Some in Hk.
  - apply (log_ids_lookup _ _ (length (tasks c))). by rewrite firstn_all.
Qed.

(** X8.  The result of a kickoff that returns, for a crew that does not end
    with two asynchronous tasks: it carries the raw text and the
    structured forms of the output logged for the last task. *)
Theorem kickoff_returns_last_task (c : Crew)
    (inputs : option (gmap string string)) (s s' : State) (out : CrewOutput) :
  validate_tasks c = Ok c →
  validate_end_with_at_most_one_async_task c = Ok c →
  kickoff c inputs s = Done (out, s') →
  ∃ t entry,
    last (tasks c) = Some t ∧ last (output_file s') = Some entry ∧
    log_task_id entry = task_id t ∧ log_task_index entry = length (tasks c) - 1 ∧
    result_of out (log_output entry).
Proof.
  intros Hvalid Hend%validate_end_Ok Hrun.
  destruct (kickoff_dense c inputs s s' out Hvalid Hrun)
    as (Hidx & Hids & _ & _ & Hres & _).
  destruct (Hres Hend) as (entry & Hlast & Hout).
  assert (last (log_task_id <$> output_file s') = Some (log_task_id entry)) as Hl
    by (by rewrite fmap_last, Hlast).
  rewrite Hids, fmap_last in Hl.
  destruct (last (tasks c)) as [t|] eqn:Et; [|done]. injection Hl as Hl.
  exists t, entry. split; [done|]. split; [done|]. split; [done|]. split; [|done].
  assert (last (log_task_index <$> output_file s') = Some (log_task_index entry)) as Hi
    by (by rewrite fmap_last, Hlast).
  rewrite Hidx in Hi. destruct (tasks c) as [|t0 ts] using rev_ind; [done|].
  rewrite length_app in Hi |- *. cbn [length] in Hi |- *.
  rewrite Nat.add_1_r, seq_S, last_snoc in Hi. injection Hi as <-. lia.
Qed.

(** X9.  A kickoff that fails with the failure of the task at position [i]
    keeps the progress made: [execution_logs] holds exactly the entries of
    the tasks before [i], each at its own position, and nothing of the
    failed task or of those behind it; the file holds the same entries. *)
Theorem kickoff_failure_keeps_progress (c : Crew)
    (inputs : option (gmap string string)) (s s' : State) (i : nat) :
  validate_tasks c = Ok c →
  kickoff c inputs s = Raised (agent_failure i) s' →
  i < length (tasks c) ∧
  log_task_index <$> execution_logs s' = seq 0 i ∧
  log_task_id <$> execution_logs s' = task_id <$> take i (tasks c) ∧
  output_file s' = execution_logs s'.
Proof.
  intros Hvalid Hrun.
  destruct (kickoff_raised c inputs s s' i Hvalid Hrun) as (? & ? & ? & Heq).
  by rewrite Heq.
Qed.

(** X10.  After a kickoff that failed at position [i], with distinct task ids:
    the log finds the tasks before [i] at their positions and does not
    find the failed task or any task behind it, so that a replay named
    after one of those raises "task not found" and leaves the crew as it
    is. *)
Theorem replay_after_failure (c : Crew)
    (inputs inputs' : option (gmap string string)) (s s' : State) (i k : nat)
    (t : Task) :
  validate_tasks c = Ok c →
  NoDup (task_id <$> tasks c) →
  kickoff c inputs s = Raised (agent_failure i) s' →
  tasks c !! k = Some t →
  (k < i → _find_task_index (task_id t) (output_file s') = Some k) ∧
  (i ≤ k → replay_from_task c (task_id t) inputs' s'
           = Raised (task_not_found (task_id t)) s').
Proof.
  intros Hvalid Hnodup Hrun Hk.
  destruct (kickoff_raised c inputs s s' i Hvalid Hrun) as (Hi & Hidx & Hids & _).
  assert (length (output_file s') = i) as Hlen
    by (by rewrite <- (length_fmap log_task_index), Hidx, length_seq).
  split.
  - intros Hki. apply (find_task_index_at (tasks c)); [done..| |].
    + apply lookup_lt_is_Some. lia.
    + by apply (log_ids_lookup _ _ i).
  - intros Hik. unfold replay_from_task.
    assert (_find_task_index (task_id t) (output_file s') = None) as ->; [|done].
    apply find_task_index_None. intros entry [j Hj]%list_elem_of_lookup Heq.
    pose proof (log_ids_lookup _ _ i Hids j entry Hj) as Hjt.
    assert (j < i) by (apply lookup_lt_Some in Hj; lia).
    assert ((task_id <$> tasks c) !! j = Some (task_id t)) as H1
      by (by rewrite list_lookup_fmap, Hjt, Heq).
    assert ((task_id <$> tasks c) !! k = Some (task_id t)) as H2
      by (by rewrite list_lookup_fmap, Hk).
    pose proof (NoDup_lookup _ _ _ _ Hnodup H1 H2). lia.
Qed.

(** X11.  Why a kickoff raises, for a crew whose tasks passed [validate_tasks]:
    a task failed, at a position of the task list; or the crew is
    hierarchical and already held a manager with tools, in which case
    nothing was dispatched; or there are no tasks; or every task has run
    and been logged and the totals for [usage_metrics] could not be
    computed, which is always so for a crew without workers. *)
Theorem kickoff_failures (c : Crew) (inputs : option (gmap string string))
    (s s' : State) (e : Error) :
  validate_tasks c = Ok c →
  kickoff c inputs s = Raised e s' →
  (∃ i, e = agent_failure i ∧ i < length (tasks c)) ∨
  (e = manager_should_not_have_tools ∧ process c = hierarchical
   ∧ manager_holds_tools s ∧ events s' = events s) ∨
  (e = index_error ∧ tasks c = []) ∨
  (kickoff_usage_metrics (agents c) = Err e
   ∧ length (execution_logs s') = length (tasks c)).
Proof. apply kickoff_errors. Qed.

End KickoffTheorems.

Lemma kickoff_runs_every_task_once_witness :
  ∃ out s',
    @kickoff echo_agents barrier_crew None (initial_state barrier_crew)
    = Done (out, s') ∧
    ∃ new, events s' = events (initial_state barrier_crew) ++ new ∧
           omap dispatch_index new = seq 0 (length (tasks barrier_crew)) ∧
           omap store_index new = seq 0 (length (tasks barrier_crew)).
Proof.
  match eval vm_compute in
        (@kickoff echo_agents barrier_crew None (initial_state barrier_crew)) with
  | Done (?o, ?st) =>
      exists o, st; split; [by vm_compute|];
      apply (@kickoff_runs_every_task_once echo_agents barrier_crew None
               (initial_state barrier_crew) st o); by vm_compute
  end.
Defined.

Lemma kickoff_log_layout_witness :
  ∃ out s',
    @kickoff echo_agents barrier_crew (Some inputs_x) (initial_state barrier_crew)
    = Done (out, s') ∧
    log_task_index <$> execution_logs s' = seq 0 (length (tasks barrier_crew)) ∧
    log_task_id <$> execution_logs s' = task_id <$> tasks barrier_crew ∧
    Forall (λ e, was_replayed e = false
                 ∧ log_inputs e
                   = kickoff_inputs (Some inputs_x) (initial_state barrier_crew))
           (execution_logs s') ∧
    output_file s' = execution_logs s'.
Proof.
  match eval vm_compute in
        (@kickoff echo_agents barrier_crew (Some inputs_x)
           (initial_state barrier_crew)) with
  | Done (?o, ?st) =>
      exists o, st; split; [by vm_compute|];
      apply (@kickoff_log_layout echo_agents barrier_crew (Some inputs_x)
               (initial_state barrier_crew) st o); by vm_compute
  end.
Defined.

Lemma kickoff_log_finds_every_task_witness :
  ∃ out s',
    @kickoff echo_agents barrier_crew None (initial_state barrier_crew)
    = Done (out, s') ∧
    _find_task_index (task_id async_B) (output_file s') = Some 1.
Proof.
  match eval vm_compute in
        (@kickoff echo_agents barrier_crew None (initial_state barrier_crew)) with
  | Done (?o, ?st) =>
      exists o, st; split; [by vm_compute|];
      apply (@kickoff_log_finds_every_task echo_agents barrier_crew None
               (initial_state barrier_crew) st o);
        [by vm_compute| |by vm_compute|done]
  end.
  apply (bool_decide_unpack _). by vm_compute.
Defined.

Lemma kickoff_returns_last_task_witness :
  ∃ out s',
    @kickoff echo_agents barrier_crew None (initial_state barrier_crew)
    = Done (out, s') ∧
    ∃ t entry,
      last (tasks barrier_crew) = Some t ∧ last (output_file s') = Some entry ∧
      log_task_id entry = task_id t ∧
      log_task_index entry = length (tasks barrier_crew) - 1 ∧
      result_of out (log_output entry).
Proof.
  match eval vm_compute in
        (@kickoff echo_agents barrier_crew None (initial_state barrier_crew)) with
  | Done (?o, ?st) =>
      exists o, st; split; [by vm_compute|];
      apply (@kickoff_returns_last_task echo_agents barrier_crew None
               (initial_state barrier_crew) st o); by vm_compute
  end.
Defined.

Lemma kickoff_failure_keeps_progress_witness :
  ∃ s',
    @kickoff (failing_at (task_id async_B)) barrier_crew None
      (initial_state barrier_crew)
    = Raised (agent_failure 1) s' ∧
    1 < length (tasks barrier_crew) ∧
    log_task_index <$> execution_logs s' = seq 0 1 ∧
    log_task_id <$> execution_logs s' = task_id <$> take 1 (tasks barrier_crew) ∧
    output_file s' = execution_logs s'.
Proof.
  match eval vm_compute in
        (@kickoff (failing_at (task_id async_B)) barrier_crew None
           (initial_state barrier_crew)) with
  | Raised _ ?st =>
      exists st; split; [by vm_compute|];
      apply (@kickoff_failure_keeps_progress (failing_at (task_id async_B))
               barrier_crew None (initial_state barrier_crew) st 1); by vm_compute
  end.
Defined.

Lemma replay_after_failure_witness :
  ∃ s',
    @kickoff (failing_at (task_id async_B)) barrier_crew None
      (initial_state barrier_crew)
    = Raised (agent_failure 1) s' ∧
    (1 < 1 → _find_task_index (task_id async_B) (output_file s') = Some 1) ∧
    (1 ≤ 1 → @replay_from_task (failing_at (task_id async_B)) barrier_crew
               (task_id async_B) None s'
             = Raised (task_not_found (task_id async_B)) s').
Proof.
  match eval vm_compute in
        (@kickoff (failing_at (task_id async_B)) barrier_crew None
           (initial_state barrier_crew)) with
  | Raised _ ?st =>
      exists st; split; [by vm_compute|];
      apply (@replay_after_failure (failing_at (task_id async_B)) barrier_crew
               None None (initial_state barrier_crew) st 1 1 async_B);
        [by vm_compute| |by vm_compute|done]
  end.
  apply (bool_decide_unpack _). by vm_compute.
Defined.

Lemma kickoff_failures_witness :
  ∃ s',
    @kickoff (failing_at (task_id async_B)) barrier_crew None
      (initial_state barrier_crew)
    = Raised (agent_failure 1) s' ∧
    ((∃ i, agent_failure 1 = agent_failure i ∧ i < length (tasks barrier_crew)) ∨
     (agent_failure 1 = manager_should_not_have_tools
      ∧ process barrier_crew = hierarchical
      ∧ manager_holds_tools (initial_state barrier_crew)
      ∧ events s' = events (initial_state barrier_crew)) ∨
     (agent_failure 1 = index_error ∧ tasks barrier_crew = []) ∨
     (@kickoff_usage_metrics (failing_at (task_id async_B)) (agents barrier_crew)
      = Err (agent_failure 1)
      ∧ length (execution_logs s') = length (tasks barrier_crew))).
Proof.
  match eval vm_compute in
        (@kickoff (failing_at (task_id async_B)) barrier_crew None
           (initial_state barrier_crew)) with
  | Raised _ ?st =>
      exists st; split; [by vm_compute|];
      apply (@kickoff_failures (failing_at (task_id async_B)) barrier_crew None
               (initial_state barrier_crew) st (agent_failure 1)); by vm_compute
  end.
Defined.

(** ** Usage totals, in general *)

Lemma zero_usage_metrics_None (key : string) :
  key ∉ usage_keys → zero_usage_metrics !! key = None.
Proof.
  intros Hkey. unfold zero_usage_metrics. apply not_elem_of_list_to_map_1.
  rewrite <- list_fmap_compose. by rewrite list_fmap_id.
Qed.

Lemma sum_over_agents_None (key : string) (ags : list Agent) :
  ∀ total : gmap string Z,
    total !! key = None →
    foldl (λ tot a,
             match token_process a with
             | Some token_sum => add_token_sum tot token_sum
             | None => tot
             end) total ags !! key
    = None.
Proof.
  induction ags as [|a ags IH]; intros total Hnone; cbn [foldl]; [done|].
  apply IH. destruct (token_process a); [|done].
  by rewrite add_token_sum_lookup, Hnone.
Qed.

Lemma calculate_usage_metrics_None (c : Crew) (s : State) (key : string) :
  key ∉ usage_keys → calculate_usage_metrics c s !! key = None.
Proof.
  intros Hkey. unfold calculate_usage_metrics.
  pose proof (sum_over_agents_None key (agents c) zero_usage_metrics
                (zero_usage_metrics_None key Hkey)) as Hnone.
  destruct (current_manager s) as [m|]; [|done].
  destruct (token_process m); [|done].
  by rewrite add_token_sum_lookup, Hnone.
Qed.

(** X12.  The totals of [calculate_usage_metrics] have the four fixed keys and
    no other; under each, the sum of what the workers report plus what the
    manager the crew holds reports, a missing key or a missing counter
    counting as zero. *)
Theorem calculate_usage_metrics_totals (c : Crew) (s : State) (key : string) :
  calculate_usage_metrics c s !! key
  = if bool_decide (key ∈ usage_keys)
    then Some (sum_reported (agents c) key + manager_reported s key)%Z
    else None.
Proof.
  case_bool_decide as Hkey.
  - by apply calculate_usage_metrics_sum.
  - by apply calculate_usage_metrics_None.
Qed.

Lemma get_summaries_Ok (ags : list Agent) :
  ∀ ms, get_summaries ags = Ok ms → token_process <$> ags = Some <$> ms.
Proof.
  induction ags as [|a ags IH]; intros ms; cbn.
  - by intros [= <-].
  - destruct (token_process a) as [m|]; [|done].
    destruct (get_summaries ags) as [ms'|e]; cbn; [|done].
    intros [= <-]. cbn. by rewrite (IH ms').
Qed.

Lemma get_summaries_Err (ags : list Agent) (e : Error) :
  get_summaries ags = Err e → ∃ a, a ∈ ags ∧ token_process a = None.
Proof.
  induction ags as [|a ags IH]; cbn; [done|].
  destruct (token_process a) as [m|] eqn:Em.
  - destruct (get_summaries ags) as [ms'|e']; cbn; [done|].
    intros [= <-]. destruct (IH eq_refl) as (a' & Hin & Ha').
    exists a'. split; [by right | done].
  - intros _. exists a. split; [by left | done].
Qed.

Lemma sum_key_Ok (key : string) (ags : list Agent) :
  ∀ ms v, token_process <$> ags = Some <$> ms →
          sum_key key ms = Ok v → v = sum_reported ags key.
Proof.
  induction ags as [|a ags IH]; intros [|m ms] v Hms; cbn; try done.
  - by intros [= <-].
  - cbn in Hms. injection Hms as Hm Hms.
    destruct (m !! key) as [x|] eqn:Ex; [|done].
    destruct (sum_key key ms) as [r|e] eqn:Er; cbn; [|done].
    intros [= <-]. unfold reported. rewrite Hm, Ex. cbn.
    by rewrite (IH ms r Hms Er).
Qed.

Lemma sum_key_Err (key : string) (ags : list Agent) (e : Error) :
  ∀ ms, token_process <$> ags = Some <$> ms →
        sum_key key ms = Err e →
        ∃ a m, a ∈ ags ∧ token_process a = Some m ∧ m !! key = None.
Proof.
  induction ags as [|a ags IH]; intros [|m ms] Hms; cbn; try done.
  cbn in Hms. injection Hms as Hm Hms.
  destruct (m !! key) as [x|] eqn:Ex.
  - destruct (sum_key key ms) as [r|e'] eqn:Er; cbn; [done|].
    intros [= <-]. destruct (IH ms Hms Er) as (a' & m' & Hin & Ha' & Hk').
    exists a', m'. split; [by right | done].
  - intros _. exists a, m. split; [by left | done].
Qed.

Lemma sum_key_reports (key : string) (ags : list Agent) :
  ∀ ms v, token_process <$> ags = Some <$> ms →
          sum_key key ms = Ok v → reports_key ags key.
Proof.
  induction ags as [|a ags IH]; intros [|m ms] v Hms; cbn; try done.
  - intros _ a report Hin. by apply elem_of_nil in Hin.
  - cbn in Hms. injection Hms as Hm Hms.
    destruct (m !! key) as [x|] eqn:Ex; [|done].
    destruct (sum_key key ms) as [r|e] eqn:Er; cbn; [|done].
    intros _ a' report [->|Hin]%elem_of_cons Hrep.
    + rewrite Hm in Hrep. injection Hrep as <-. by eexists.
    + by apply (IH ms r Hms Er a').
Qed.

Lemma summaries_counters (ags : list Agent) (ms : list (gmap string Z)) :
  token_process <$> ags = Some <$> ms → ∀ a, a ∈ ags → is_Some (token_process a).
Proof.
  intros Hms a Hin. apply (list_elem_of_fmap_2 token_process) in Hin.
  rewrite Hms in Hin. apply list_elem_of_fmap in Hin as (m & -> & _). by eexists.
Qed.

(** The comprehension over a list of keys: the totals under the keys, or
    the failure at the first key that some summary lacks. *)
Lemma usage_comprehension_cases (metrics : list (gmap string Z)) (keys : list string) :
  match usage_comprehension keys metrics with
  | Ok usage =>
      ∀ key, match usage !! key with
             | Some v => key ∈ keys ∧ sum_key key metrics = Ok v
             | None => key ∉ keys
             end
  | Err e =>
      ∃ before key after,
        keys = before ++ key :: after ∧
        Forall (λ k, ∃ v, sum_key k metrics = Ok v) before ∧
        sum_key key metrics = Err e
  end.
Proof.
  induction keys as [|k keys IH]; cbn [usage_comprehension].
  - intros key. rewrite lookup_empty. apply not_elem_of_nil.
  - destruct (sum_key k metrics) as [v|e] eqn:Ek; cbn [mbind result_bind].
    + destruct (usage_comprehension keys metrics) as [usage|e];
        cbn [mbind result_bind].
      * intros key. destruct (decide (key = k)) as [->|Hne].
        -- rewrite lookup_insert_eq. split; [by left | done].
        -- rewrite lookup_insert_ne by done. specialize (IH key).
           destruct (usage !! key) as [x|].
           ++ destruct IH. split; [by right | done].
           ++ intros [?|?]%elem_of_cons; done.
      * destruct IH as (before & key & after & -> & Hbefore & Hkey).
        exists (k :: before), key, after. split; [done|].
        split; [|done]. constructor; [by exists v | done].
    + exists [], k, keys. by repeat split.
Qed.

Section UsageOfKickoff.
Context `{Collaborators}.

Lemma summary_keys_elem (m : gmap string Z) (key : string) :
  key ∈ summary_keys m ↔ is_Some (m !! key).
Proof.
  rewrite (summary_keys_dict m). split.
  - intros ([k v] & -> & Hin)%list_elem_of_fmap.
    apply elem_of_map_to_list in Hin. by eexists.
  - intros [v Hv]. apply list_elem_of_fmap. exists (key, v).
    split; [done|]. by apply elem_of_map_to_list.
Qed.

(** The totals [kickoff] stores, and the three ways in which it fails to
    compute them. *)
Lemma kickoff_usage_metrics_cases (ags : list Agent) :
  match kickoff_usage_metrics ags with
  | Ok usage =>
      ∃ first report,
        head ags = Some first ∧ token_process first = Some report ∧
        (∀ a, a ∈ ags → is_Some (token_process a)) ∧
        (∀ key, is_Some (report !! key) → reports_key ags key) ∧
        ∀ key, usage !! key = if bool_decide (is_Some (report !! key))
                              then Some (sum_reported ags key)
                              else None
  | Err e =>
      (e = index_error ∧ ags = []) ∨
      (e = attribute_error ∧ ∃ a, a ∈ ags ∧ token_process a = None) ∨
      (∃ key first report before after a lacking,
          e = key_error key ∧
          (∀ a, a ∈ ags → is_Some (token_process a)) ∧
          head ags = Some first ∧ token_process first = Some report ∧
          summary_keys report = before ++ key :: after ∧
          Forall (reports_key ags) before ∧
          a ∈ ags ∧ token_process a = Some lacking ∧ lacking !! key = None)
  end.
Proof.
  unfold kickoff_usage_metrics.
  destruct (get_summaries ags) as [ms|e] eqn:Es; cbn [mbind result_bind].
  2:{ right; left. split; [by apply get_summaries_errors in Es|].
      by apply get_summaries_Err in Es. }
  pose proof (get_summaries_Ok ags ms Es) as Hms.
  pose proof (summaries_counters ags ms Hms) as Hcounters.
  destruct ms as [|m0 ms].
  { left. split; [done|]. by destruct ags. }
  destruct ags as [|a0 ags]; [done|].
  assert (token_process a0 = Some m0) as Hm0 by (cbn in Hms; congruence).
  pose proof (usage_comprehension_cases (m0 :: ms) (summary_keys m0)) as Hc.
  destruct (usage_comprehension (summary_keys m0) (m0 :: ms)) as [usage|e].
  - exists a0, m0. split; [done|]. split; [done|]. split; [done|].
    assert (∀ key, is_Some (m0 !! key) → ∃ v, usage !! key = Some v
                                              ∧ sum_key key (m0 :: ms) = Ok v)
      as Hall.
    { intros key Hkey%summary_keys_elem. specialize (Hc key).
      destruct (usage !! key) as [v|]; [|done]. exists v. by destruct Hc. }
    split.
    + intros key Hkey. destruct (Hall key Hkey) as (v & _ & Hsum).
      by apply (sum_key_reports key (a0 :: ags) (m0 :: ms) v).
    + intros key. case_bool_decide as Hkey.
      * destruct (Hall key Hkey) as (v & -> & Hsum). f_equal.
        by apply (sum_key_Ok key (a0 :: ags) (m0 :: ms)).
      * specialize (Hc key). destruct (usage !! key) as [v|]; [|done].
        destruct Hc as [Hin _]. by apply summary_keys_elem in Hin.
  - right; right. destruct Hc as (before & key & after & Hkeys & Hbefore & Hk).
    pose proof (sum_key_errors _ _ _ Hk) as ->.
    destruct (sum_key_Err key (a0 :: ags) _ (m0 :: ms) Hms Hk)
      as (a & m & Ha & Hm & Hnone).
    exists key, a0, m0, before, after, a, m.
    split; [done|]. split; [done|]. split; [done|]. split; [done|].
    split; [done|]. split; [|done].
    eapply Forall_impl; [exact Hbefore|]. intros k [v Hv].
    by apply (sum_key_reports k (a0 :: ags) (m0 :: ms) v).
Qed.

(** X13.  The totals [kickoff] computes for [usage_metrics], and when it cannot
    compute them.  When it can, they are keyed by the keys of the first
    worker's report and hold, under each, the sum over the workers alone;
    then every worker has a counter and every report has every key of the
    first.  It fails with the index error exactly when there are no
    workers (the read of [metrics[0]]), with the attribute error exactly
    when some worker has no counter, and with a key error exactly when
    every worker has a counter and some report lacks a key of the first
    report; the key named is the first one, in the order in which the
    first report yields its keys, that some report lacks. *)
Theorem kickoff_usage_metrics_totals (ags : list Agent) :
  match kickoff_usage_metrics ags with
  | Ok usage =>
      ∃ first report,
        head ags = Some first ∧ token_process first = Some report ∧
        (∀ a, a ∈ ags → is_Some (token_process a)) ∧
        (∀ key, is_Some (report !! key) → reports_key ags key) ∧
        ∀ key, usage !! key = if bool_decide (is_Some (report !! key))
                              then Some (sum_reported ags key)
                              else None
  | Err e =>
      (e = index_error ∧ ags = []) ∨
      (e = attribute_error ∧ ∃ a, a ∈ ags ∧ token_process a = None) ∨
      (∃ key first report before after a lacking,
          e = key_error key ∧
          (∀ a, a ∈ ags → is_Some (token_process a)) ∧
          head ags = Some first ∧ token_process first = Some report ∧
          summary_keys report = before ++ key :: after ∧
          Forall (reports_key ags) before ∧
          a ∈ ags ∧ token_process a = Some lacking ∧ lacking !! key = None)
  end ∧
  (ags = [] → kickoff_usage_metrics ags = Err index_error) ∧
  ((∃ a, a ∈ ags ∧ token_process a = None) →
   kickoff_usage_metrics ags = Err attribute_error) ∧
  (∀ first report key a lacking,
      head ags = Some first → token_process first = Some report →
      (∀ a, a ∈ ags → is_Some (token_process a)) →
      is_Some (report !! key) →
      a ∈ ags → token_process a = Some lacking → lacking !! key = None →
      ∃ missing, kickoff_usage_metrics ags = Err (key_error missing)).
Proof.
  pose proof (kickoff_usage_metrics_cases ags) as Hcases.
  split; [exact Hcases|]. split; [by intros ->|]. split.
  - intros (a & Hin & Hnone).
    destruct (kickoff_usage_metrics ags) as [usage|e].
    + destruct Hcases as (_ & _ & _ & _ & Hcounters & _).
      destruct (Hcounters a Hin) as [m Hm]. congruence.
    + destruct Hcases as [[_ ->]|[[-> _]|Hkey]]; [by apply elem_of_nil in Hin|done|].
      destruct Hkey as (_ & _ & _ & _ & _ & _ & _ & _ & Hcounters & _).
      destruct (Hcounters a Hin) as [m Hm]. congruence.
  - intros first report key a lacking Hhead Hfirst Hcounters Hkey Hin Hlacking Hnone.
    destruct (kickoff_usage_metrics ags) as [usage|e].
    + destruct Hcases as (first' & report' & Hhead' & Hfirst' & _ & Hall & _).
      assert (report' = report) as -> by congruence.
      destruct (Hall key Hkey a lacking Hin Hlacking) as [v Hv]. congruence.
    + destruct Hcases as [[_ ->]|[[_ (a' & Hin' & Hnone')]|Hmissing]];
        [by apply elem_of_nil in Hin| |].
      * destruct (Hcounters a' Hin') as [m Hm]. congruence.
      * destruct Hmissing as (missing & _ & _ & _ & _ & _ & _ & -> & _).
        by exists missing.
Qed.

End UsageOfKickoff.

(** Two workers, the second without the request counter: the totals
    cannot be computed, and the key named is one the second report lacks. *)
Example kickoff_usage_metrics_of_partial_report :
  @kickoff_usage_metrics echo_agents [metered_researcher; partial_writer]
  = Err (key_error "successful_requests").
Proof. by vm_compute. Qed.

Section UsageOfRuns.
Context `{Collaborators}.

Lemma execute_tasks_token_usage (c : Crew) (with_manager : bool) (s s' : State)
    (out : CrewOutput) :
  _execute_tasks c with_manager s = Done (out, s') →
  token_usage out = calculate_usage_metrics c s'.
Proof.
  unfold _execute_tasks, finish_tasks.
  destruct (run_tasks _ 0 (tasks c) _) as [l|e se]; cbn [mbind run_bind]; [|done].
  destruct (flush false l) as [lf|e se]; cbn [mbind run_bind]; [|done].
  destruct (task_outputs lf) as [|final rest]; [done|]. by intros [= <- <-].
Qed.

(** X14.  The two usage totals of a kickoff that returns.  What the crew stores
    in [usage_metrics] is keyed by the first worker's report and sums the
    workers alone; what the returned output carries in [token_usage] has
    the four fixed keys and counts the manager the crew holds as well. *)
Theorem kickoff_usage_totals (c : Crew) (inputs : option (gmap string string))
    (s s' : State) (out : CrewOutput) :
  kickoff c inputs s = Done (out, s') →
  ∃ usage first report,
    usage_metrics s' = Some usage ∧
    head (agents c) = Some first ∧ token_process first = Some report ∧
    ∀ key,
      usage !! key = (if bool_decide (is_Some (report !! key))
                      then Some (sum_reported (agents c) key)
                      else None) ∧
      token_usage out !! key
      = (if bool_decide (key ∈ usage_keys)
         then Some (sum_reported (agents c) key + manager_reported s' key)%Z
         else None).
Proof.
  unfold kickoff.
  set (s1 := match inputs with
             | Some i => set_inputs (Some i) (set_output_file [] s)
             | None => set_output_file [] s
             end).
  clearbody s1.
  destruct (match process c with
            | sequential => _run_sequential_process c s1
            | hierarchical => _run_hierarchical_process c s1
            end) as [[o sr]|e se] eqn:Er; cbn [mbind run_bind]; [|done].
  pose proof (kickoff_usage_metrics_cases (agents c)) as Hu.
  destruct (kickoff_usage_metrics (agents c)) as [usage|e]; [|done].
  intros [= <- <-]. cbn [fst snd].
  destruct Hu as (first & report & Hhead & Hreport & _ & _ & Hkeys).
  exists usage, first, report. split; [done|]. split; [done|]. split; [done|].
  intros key. split; [apply Hkeys|].
  assert (token_usage o = calculate_usage_metrics c sr) as ->.
  { destruct (process c).
    - by apply execute_tasks_token_usage in Er.
    - unfold _run_hierarchical_process in Er.
      destruct (_create_manager_agent c _) as [s2|e se]; cbn [mbind run_bind] in Er;
        [|done].
      by apply execute_tasks_token_usage in Er. }
  case_bool_decide as Hkey.
  - by rewrite calculate_usage_metrics_sum.
  - by apply calculate_usage_metrics_None.
Qed.

End UsageOfRuns.

Lemma kickoff_usage_totals_witness :
  ∃ out s',
    @kickoff echo_agents managed_crew None (initial_state managed_crew)
    = Done (out, s') ∧
    ∃ usage first report,
      usage_metrics s' = Some usage ∧
      head (agents managed_crew) = Some first ∧ token_process first = Some report ∧
      ∀ key,
        usage !! key = (if bool_decide (is_Some (report !! key))
                        then Some (sum_reported (agents managed_crew) key)
                        else None) ∧
        token_usage out !! key
        = (if bool_decide (key ∈ usage_keys)
           then Some (sum_reported (agents managed_crew) key
                      + manager_reported s' key)%Z
           else None).
Proof.
  match eval vm_compute in
        (@kickoff echo_agents managed_crew None (initial_state managed_crew)) with
  | Done (?o, ?st) =>
      exists o, st; split; [by vm_compute|];
      apply (@kickoff_usage_totals echo_agents managed_crew None
               (initial_state managed_crew) st o); by vm_compute
  end.
Defined.

(** ** The usage totals of a batch *)

Lemma stored_usage_add (total : gmap string Z) (st : State) (key : string) :
  (if truthy_usage (usage_metrics st)
   then add_token_sum total (default ∅ (usage_metrics st))
   else total) !! key
  = (λ v, (v + stored_usage st key)%Z) <$> total !! key.
Proof.
  unfold stored_usage, truthy_usage. destruct (usage_metrics st) as [u|]; cbn.
  - case_bool_decide as Hu; cbn.
    + subst u. rewrite lookup_empty. cbn. destruct (total !! key); cbn; [|done].
      apply (f_equal (@Some Z)). lia.
    + by rewrite add_token_sum_lookup.
  - destruct (total !! key); cbn; [|done]. apply (f_equal (@Some Z)). lia.
Qed.

Section BatchUsage.
Context `{Collaborators}.

Lemma kickoff_for_each_loop_usage (c : Crew) (inputs : list (gmap string string)) :
  ∀ (results : list CrewOutput) (copies : list State) (total : gmap string Z)
    (s : State) r,
    kickoff_for_each_loop c inputs results copies total s = Done r →
    ∃ new_copies,
      r.1.1.2 = copies ++ new_copies ∧
      ∀ key, r.1.2 !! key = (λ v, (v + sum_stored new_copies key)%Z) <$> total !! key.
Proof.
  induction inputs as [|input rest IH]; intros results copies total s r;
    cbn [kickoff_for_each_loop].
  - intros [= <-]. exists []. cbn. rewrite app_nil_r. split; [done|].
    intros key. destruct (total !! key); cbn; [|done]. apply (f_equal (@Some Z)). lia.
  - destruct (copy c s) as [[clone start]|e se]; cbn [mbind run_bind]; [|done].
    cbn [fst snd].
    destruct (kickoff clone (Some input) start) as [[out st]|e se]; [|done].
    cbn [fst snd]. intros Hr.
    apply IH in Hr as (nc & Hcopies & Htotal).
    exists (st :: nc). rewrite Hcopies, <- app_assoc. split; [done|].
    intros key. rewrite Htotal, stored_usage_add.
    destruct (total !! key); cbn; [|done]. apply (f_equal (@Some Z)).
    fold (sum_stored nc key). lia.
Qed.

(** X15.  The usage totals of a batch that returns: the crew's [usage_metrics]
    has the four fixed keys and no other and holds, under each, the sum of
    what the copies stored for it, a copy that stored nothing for a key
    counting as zero. *)
Theorem kickoff_for_each_usage (c : Crew) (inputs : list (gmap string string))
    (s s' : State) (results : list CrewOutput) (copies : list State) :
  kickoff_for_each c inputs s = Done (results, copies, s') →
  ∃ total,
    usage_metrics s' = Some total ∧
    ∀ key, total !! key = if bool_decide (key ∈ usage_keys)
                          then Some (sum_stored copies key)
                          else None.
Proof.
  unfold kickoff_for_each.
  destruct (kickoff_for_each_loop c inputs [] [] zero_usage_metrics s)
    as [[[[rs cs] tot] sf]|e se] eqn:El; cbn [mbind run_bind]; [|done].
  intros [= <- <- <-]. cbn [fst snd].
  apply kickoff_for_each_loop_usage in El as (nc & Hcopies & Htotal).
  cbn [fst snd app] in Hcopies, Htotal. subst cs.
  exists tot. split; [done|]. intros key. rewrite Htotal.
  case_bool_decide as Hkey.
  - rewrite zero_usage_metrics_lookup by done. cbn. apply (f_equal (@Some Z)). lia.
  - by rewrite zero_usage_metrics_None.
Qed.

End BatchUsage.

Lemma kickoff_for_each_usage_witness :
  ∃ results copies s',
    @kickoff_for_each echo_agents metered_crew [inputs_x; inputs_y]
      (initial_state metered_crew) = Done (results, copies, s') ∧
    ∃ total,
      usage_metrics s' = Some total ∧
      ∀ key, total !! key = if bool_decide (key ∈ usage_keys)
                            then Some (sum_stored copies key)
                            else None.
Proof.
  match eval vm_compute in
        (@kickoff_for_each echo_agents metered_crew [inputs_x; inputs_y]
           (initial_state metered_crew)) with
  | Done (?r, ?cs, ?st) =>
      exists r, cs, st; split; [by vm_compute|];
      apply (@kickoff_for_each_usage echo_agents metered_crew [inputs_x; inputs_y]
               (initial_state metered_crew) st r cs); by vm_compute
  end.
Defined.

(** The batch of the crew with counted usage: each of the two copies
    stores the totals of its agents, and the crew ends with their sum. *)
Example kickoff_for_each_usage_of_metered_crew :
  ∃ results first second s',
    @kickoff_for_each echo_agents metered_crew [inputs_x; inputs_y]
      (initial_state metered_crew) = Done (results, [first; second], s') ∧
    usage_metrics first = Some (usage_of 17 11 6 2) ∧
    usage_metrics second = Some (usage_of 17 11 6 2) ∧
    usage_metrics s' = Some (usage_of 34 22 12 4).
Proof.
  match eval vm_compute in
        (@kickoff_for_each echo_agents metered_crew [inputs_x; inputs_y]
           (initial_state metered_crew)) with
  | Done (?r, [?st1; ?st2], ?st) => exists r, st1, st2, st
  end.
  repeat split; by vm_compute.
Qed.

(** ** The manager after a hierarchical run *)

Lemma process_async_tasks_manager (pending : list (Task * Future * nat))
    (replayed : bool) :
  ∀ (outs : list TaskOutput) (s : State),
    current_manager (end_state snd (_process_async_tasks pending replayed outs s))
    = current_manager s.
Proof.
  induction pending as [|[[t f] i] rest IH]; intros outs s; cbn; [done|].
  destruct f as [o|]; [|done]. by rewrite IH.
Qed.

Lemma flush_manager (replayed : bool) (l : Loop) :
  current_manager (end_state state (flush replayed l)) = current_manager (state l).
Proof.
  unfold flush. destruct (futures l) as [|p rest]; [done|].
  pose proof (process_async_tasks_manager (p :: rest) replayed [] (state l)) as Hm.
  by destruct (_process_async_tasks (p :: rest) replayed [] (state l)).
Qed.

Section ManagerTools.
Context `{Collaborators}.

Lemma wire_manager_holds_tools (c : Crew) (task : Task) (s : State) :
  process c = hierarchical → get_delegation_tools (agents c) ≠ [] →
  manager_holds_tools s →
  manager_holds_tools (set_current_manager (wire_manager c task (current_manager s)) s).
Proof.
  intros Hp Htools (m & Hm & _). unfold wire_manager. rewrite Hp, Hm.
  destruct (agent task); by eexists.
Qed.

Lemma execute_task_manager (c : Crew) (i : nat) (task : Task) (l : Loop) :
  process c = hierarchical → get_delegation_tools (agents c) ≠ [] →
  manager_holds_tools (state l) →
  manager_holds_tools (end_state state (execute_task c true i task l)).
Proof.
  intros Hp Htools Hm. unfold execute_task.
  destruct (add_worker_delegation_change c task (state l)) as [tn ->].
  pose proof (wire_manager_holds_tools c task (set_task_tools_now tn (state l))
                Hp Htools Hm) as Hw.
  set (s2 := set_current_manager _ _) in *. clearbody s2.
  destruct (async_execution task).
  - by destruct (agent_to_use _ _ _).
  - pose proof (flush_manager false (mkLoop (task_outputs l) (futures l) s2)) as Hf.
    destruct (flush false _) as [lf|e se]; cbn [mbind run_bind end_state] in *.
    + assert (manager_holds_tools (state lf)) as Hlf
        by (destruct Hw as (m & ? & ?); exists m; by rewrite Hf).
      destruct (agent_to_use _ _ _) as [a|]; [|done].
      by destruct (execute (Some a) task _ (agent_tools a)).
    + destruct Hw as (m & ? & ?). exists m. by rewrite Hf.
Qed.

Lemma run_tasks_manager (c : Crew) (ts : list Task) :
  process c = hierarchical → get_delegation_tools (agents c) ≠ [] →
  ∀ (i : nat) (l : Loop),
    manager_holds_tools (state l) →
    manager_holds_tools (end_state state (run_tasks (execute_task c true) i ts l)).
Proof.
  intros Hp Htools. induction ts as [|task ts IH]; intros i l Hm; cbn [run_tasks];
    [done|].
  pose proof (execute_task_manager c i task l Hp Htools Hm) as Hstep.
  destruct (execute_task c true i task l) as [l1|e se]; cbn [mbind run_bind]; [|done].
  by apply IH.
Qed.

Lemma execute_tasks_manager (c : Crew) (s : State) :
  process c = hierarchical → get_delegation_tools (agents c) ≠ [] →
  manager_holds_tools s →
  manager_holds_tools (end_state snd (_execute_tasks c true s)).
Proof.
  intros Hp Htools Hm. unfold _execute_tasks.
  pose proof (run_tasks_manager c (tasks c) Hp Htools 0 (mkLoop [] [] s) Hm) as Hr.
  destruct (run_tasks _ 0 (tasks c) _) as [l|e se]; cbn [mbind run_bind]; [|done].
  unfold finish_tasks. pose proof (flush_manager false l) as Hf.
  cbn [end_state] in Hr.
  assert (manager_holds_tools (end_state state (flush false l))) as Hlf
    by (destruct Hr as (m & ? & ?); exists m; by rewrite Hf).
  destruct (flush false l) as [lf|e se]; cbn [mbind run_bind end_state] in *; [|done].
  destruct (task_outputs lf); [done|]. cbn.
  unfold _finish_execution. by destruct (truthy_max_rpm c).
Qed.

(** However a hierarchical kickoff ends, it leaves a manager with tools. *)
Lemma kickoff_manager (c : Crew) (inputs : option (gmap string string)) (s : State) :
  process c = hierarchical → get_delegation_tools (agents c) ≠ [] →
  manager_holds_tools (end_state snd (kickoff c inputs s)).
Proof.
  intros Hp Htools. unfold kickoff. rewrite Hp.
  set (s1 := match inputs with
             | Some i => set_inputs (Some i) (set_output_file [] s)
             | None => set_output_file [] s
             end).
  clearbody s1. unfold _run_hierarchical_process.
  assert (manager_holds_tools
            (end_state id (_create_manager_agent c (set_execution_logs [] s1))))
    as Hm.
  { unfold _create_manager_agent. cbn [current_manager set_execution_logs].
    destruct (current_manager s1) as [m|]; [case_bool_decide as Hlen|].
    - eexists. split; [done|]. cbn in Hlen |- *.
      destruct (agent_tools m); [cbn in Hlen; lia | done].
    - by eexists.
    - by eexists. }
  destruct (_create_manager_agent c (set_execution_logs [] s1)) as [s2|e se];
    cbn [mbind run_bind end_state id] in *; [|done].
  pose proof (execute_tasks_manager c s2 Hp Htools Hm) as He.
  destruct (_execute_tasks c true s2) as [[o sr]|e se];
    cbn [mbind run_bind end_state snd] in *; [|done].
  by destruct (kickoff_usage_metrics (agents c)).
Qed.

(** A hierarchical crew that holds a manager with tools refuses to start. *)
Lemma kickoff_refused (c : Crew) (inputs : option (gmap string string)) (s : State) :
  process c = hierarchical → manager_holds_tools s →
  ∃ s2, kickoff c inputs s = Raised manager_should_not_have_tools s2
        ∧ events s2 = events s ∧ output_file s2 = [] ∧ execution_logs s2 = [].
Proof.
  intros Hp (m & Hm & Hnonempty).
  assert (0 < length (agent_tools (set_allow_delegation true m))) as Hlen
    by (cbn; destruct (agent_tools m); [done | cbn; lia]).
  unfold kickoff. rewrite Hp. unfold _run_hierarchical_process, _create_manager_agent.
  destruct inputs as [i|]; cbn [current_manager set_execution_logs set_inputs
                               set_output_file];
    rewrite Hm, bool_decide_eq_true_2 by done; cbn; by eexists.
Qed.

(** X16.  A hierarchical crew runs once.  However its kickoff has ended
    (returned, failed in a task, or was itself refused), the crew is left
    with a manager that holds tools, provided the delegation tools over
    the workers are not empty; the next kickoff empties the log, raises
    "Manager agent should not have tools" and dispatches nothing, and a
    replay raises the same error, or "task not found", before it
    dispatches anything. *)
Theorem hierarchical_crew_runs_once (c : Crew)
    (inputs again : option (gmap string string)) (id : nat) (s : State) :
  process c = hierarchical →
  get_delegation_tools (agents c) ≠ [] →
  let s1 := end_state snd (kickoff c inputs s) in
  (∃ s2, kickoff c again s1 = Raised manager_should_not_have_tools s2
         ∧ events s2 = events s1 ∧ output_file s2 = [] ∧ execution_logs s2 = []) ∧
  (∃ e s3, replay_from_task c id again s1 = Raised e s3
           ∧ (e = manager_should_not_have_tools ∨ e = task_not_found id)
           ∧ events s3 = events s1 ∧ output_file s3 = output_file s1).
Proof.
  intros Hp Htools s1.
  destruct (kickoff_manager c inputs s Hp Htools) as (m & Hm & Hnonempty).
  fold s1 in Hm. clearbody s1.
  assert (0 < length (agent_tools (set_allow_delegation true m))) as Hlen
    by (cbn; destruct (agent_tools m); [done | cbn; lia]).
  split.
  - apply kickoff_refused; [done|]. by exists m.
  - unfold replay_from_task.
    destruct (_find_task_index id (output_file s1)) as [start|].
    + rewrite Hp. unfold _create_manager_agent.
      cbn [current_manager set_inputs]. rewrite Hm, bool_decide_eq_true_2 by done.
      cbn. eexists _, _. split; [done|]. split; [by left|]. done.
    + eexists _, _. split; [done|]. split; [by right|]. done.
Qed.

(** X17.  Training a hierarchical crew for two or more iterations never gets
    through its loop, provided the delegation tools over the workers are
    not empty: either the first kickoff raises, or it leaves the manager
    with tools and the second kickoff raises "Manager agent should not
    have tools". *)
Theorem train_hierarchical_fails (c : Crew) (n_iterations : Z)
    (inputs : option (gmap string string)) (s : State) :
  process c = hierarchical →
  get_delegation_tools (agents (_setup_for_training c)) ≠ [] →
  (2 ≤ n_iterations)%Z →
  ∃ e se,
    train c n_iterations inputs s = Raised e se ∧
    (kickoff (_setup_for_training c) inputs s = Raised e se
     ∨ e = manager_should_not_have_tools).
Proof.
  intros Hp Htools Hn. unfold train.
  destruct (Z.to_nat n_iterations) as [|[|n]] eqn:En; [lia..|].
  cbn [train_iterations].
  pose proof (kickoff_manager (_setup_for_training c) inputs s Hp Htools) as Hm.
  destruct (kickoff (_setup_for_training c) inputs s) as [[o s1]|e se];
    cbn [mbind run_bind end_state snd] in *.
  - destruct (kickoff_refused (_setup_for_training c) inputs s1 Hp Hm)
      as (s2 & -> & _).
    cbn. eexists _, _. split; [done|]. by right.
  - eexists _, _. split; [done|]. by left.
Qed.

End ManagerTools.

Lemma train_hierarchical_fails_witness :
  ∃ e se,
    @train echo_agents managed_crew 2 None (initial_state managed_crew) = Raised e se ∧
    (@kickoff echo_agents (_setup_for_training managed_crew) None
       (initial_state managed_crew) = Raised e se
     ∨ e = manager_should_not_have_tools).
Proof.
  apply (@train_hierarchical_fails echo_agents managed_crew 2 None
           (initial_state managed_crew)); [done|by vm_compute|lia].
Defined.

Lemma hierarchical_crew_runs_once_witness :
  let s1 := end_state snd (@kickoff echo_agents managed_crew None
                             (initial_state managed_crew)) in
  (∃ s2, @kickoff echo_agents managed_crew None s1
         = Raised manager_should_not_have_tools s2
         ∧ events s2 = events s1 ∧ output_file s2 = [] ∧ execution_logs s2 = []) ∧
  (∃ e s3, @replay_from_task echo_agents managed_crew 10 None s1 = Raised e s3
           ∧ (e = manager_should_not_have_tools ∨ e = task_not_found 10)
           ∧ events s3 = events s1 ∧ output_file s3 = output_file s1).
Proof.
  apply (@hierarchical_crew_runs_once echo_agents managed_crew None None 10
           (initial_state managed_crew)); by vm_compute.
Defined.

(** ** The log of a replay *)

Lemma rewritten_length (old : list LogEntry) (start : nat) (written : list LogEntry) :
  start ≤ length old →
  length (rewritten old start written) = (start + length written) `max` length old.
Proof.
  intros Hs. unfold rewritten. rewrite !length_app, length_take, length_drop. lia.
Qed.

Lemma rewritten_lookup_below (old : list LogEntry) (start : nat)
    (written : list LogEntry) (i : nat) :
  i < start → start ≤ length old → rewritten old start written !! i = old !! i.
Proof.
  intros Hi Hs. unfold rewritten.
  rewrite lookup_app_l by (rewrite length_take; lia). by rewrite lookup_take_lt.
Qed.

Lemma rewritten_lookup_last (old : list LogEntry) (start : nat)
    (written : list LogEntry) (e : LogEntry) :
  start ≤ length old →
  rewritten old start (written ++ [e]) !! (start + length written) = Some e.
Proof.
  intros Hs. unfold rewritten.
  rewrite lookup_app_r by (rewrite length_take; lia).
  rewrite length_take, Nat.min_l by lia.
  replace (start + length written - start) with (length written) by lia.
  rewrite <- app_assoc. rewrite lookup_app_r by lia. by rewrite Nat.sub_diag.
Qed.

(** Writing at the frontier of a rewritten log rewrites one more entry,
    whether the old log reaches that far or not. *)
Lemma rewritten_update (old : list LogEntry) (start : nat) (written : list LogEntry)
    (e : LogEntry) :
  start ≤ length old →
  file_update (start + length written) e (rewritten old start written)
  = rewritten old start (written ++ [e]).
Proof.
  intros Hs. unfold file_update. rewrite rewritten_length by done. unfold rewritten.
  rewrite length_app. cbn [length].
  replace (start + (length written + 1)) with (S (start + length written)) by lia.
  case_bool_decide as Hlt.
  - assert (start + length written < length old) as Hold by lia.
    destruct (lookup_lt_is_Some_2 old (start + length written) Hold) as [x Hx].
    rewrite (drop_S old x (start + length written)) by done.
    rewrite insert_app_r_alt by (rewrite length_take; lia).
    rewrite length_take, Nat.min_l by lia.
    replace (start + length written - start) with (length written) by lia.
    rewrite insert_app_r_alt by lia. rewrite Nat.sub_diag. cbn.
    by rewrite <- !app_assoc.
  - rewrite !drop_ge by lia. by rewrite !app_nil_r, <- app_assoc.
Qed.

(** Resolved handles whose positions continue the rewritten part are
    rewritten in their turn. *)
Lemma log_resolved_rewritten (old : list LogEntry) (start : nat)
    (handles : list (Task * TaskOutput * nat)) :
  start ≤ length old →
  ∀ (s : State) (written : list LogEntry),
    output_file s = rewritten old start written →
    (λ x, x.2) <$> handles = seq (start + length written) (length handles) →
    let s' := foldl (log_resolved true) s handles in
    output_file s'
    = rewritten old start (written ++ entries_of true (logged_inputs s) handles) ∧
    (execution_logs s = output_file s → execution_logs s' = output_file s') ∧
    events s' = events s ++ flush_events (entries_of true (logged_inputs s) handles) ∧
    _inputs s' = _inputs s.
Proof.
  intros Hs. induction handles as [|[[t o] i] handles IH]; intros s written Hfile Hidx.
  - cbn. rewrite !app_nil_r. done.
  - cbn [foldl]. cbn in Hidx. injection Hidx as Hi Hidx. cbn in Hi. subst i.
    set (entry := mkLogEntry (task_id t) (expected_output t) o (start + length written)
                    (logged_inputs s) true).
    set (s1 := log_resolved true s (t, o, start + length written)).
    assert (output_file s1 = rewritten old start (written ++ [entry])) as Hf1.
    { subst s1. unfold log_resolved, _store_execution_log. cbn.
      rewrite Hfile. by apply rewritten_update. }
    assert (execution_logs s = output_file s → execution_logs s1 = output_file s1)
      as Hl1.
    { intros Heq. subst s1. unfold log_resolved, _store_execution_log. cbn.
      unfold update_execution_logs, file_update. by rewrite Heq. }
    assert (events s1 = events s ++ flush_events [entry]) as He1
      by (subst s1; unfold log_resolved, _store_execution_log; cbn;
          by rewrite <- app_assoc).
    assert (_inputs s1 = _inputs s) as Hi1 by done.
    assert (logged_inputs s1 = logged_inputs s) as Hli1
      by (unfold logged_inputs; by rewrite Hi1).
    clearbody s1.
    destruct (IH s1 (written ++ [entry]) Hf1) as (Hf & Hl & He & Hi).
    { rewrite length_app. cbn [length].
      by replace (start + (length written + 1)) with (S (start + length written))
        by lia. }
    cbn zeta in *. rewrite Hli1 in Hf, He.
    split; [by rewrite Hf, <- app_assoc|].
    split; [intros Heq; by apply Hl, Hl1|].
    split; [|by rewrite Hi, Hi1].
    rewrite He, He1, <- app_assoc. done.
Qed.

Section ReplayLog.
Context `{Collaborators}.

(** One iteration of the loop of [replay_from_task] keeps the shape of the
    log. *)
Lemma replay_task_log (c : Crew) (old : list LogEntry) (start : nat)
    (values : gmap string string) (s0 : State) (before : list Task) (task : Task)
    (l l' : Loop) :
  start ≤ length old →
  replay_log old start values s0 before l →
  replay_task c old start (length before) task l = Done l' →
  replay_log old start values s0 (before ++ [task]) l'.
Proof.
  intros Hs (written & new & Hfile & Hlogs & Hin & Hlen & Hidx & Htasks & Hli & Hlid
             & Hflags & Hev & Hdisp & Hstore & Hasync & Hlast).
  unfold replay_task. case_bool_decide as Hbelow.
  - (* below the start: seeded from the log *)
    destruct (old !! length before) as [entry|] eqn:Eold; [|done].
    intros [= <-]. cbn [state futures task_outputs].
    assert (length written = 0 ∧ length (futures l) = 0) as [Hw Hf] by lia.
    destruct written; [|done]. destruct (futures l) eqn:Efut; [|done].
    exists [], new. cbn [length] in *. rewrite length_app. cbn [length].
    rewrite Nat.add_0_r in *.
    split; [done|]. split; [done|]. split; [done|]. split; [lia|].
    split; [done|].
    split; [by rewrite drop_ge by (rewrite length_app; cbn; lia)|].
    split; [done|]. split; [done|]. split; [done|]. split; [done|].
    split; [rewrite Hdisp; f_equal; lia|].
    split; [done|]. split; [done|].
    intros _ _. exists entry. cbn [task_outputs].
    replace (length before + 1 - 1) with (length before) by lia.
    split; [|by destruct (log_output entry)].
    cbn [state output_file fill_task_output set_task_output].
    rewrite Hfile, rewritten_lookup_below by lia. done.
  - (* from the start on: run again *)
    assert (start ≤ length before) as Hge by lia.
    rewrite Nat.max_r in Hlen by lia.
    destruct (add_worker_delegation_change c task (state l)) as [tn ->].
    set (s2 := set_current_manager _ _).
    assert (output_file s2 = rewritten old start written
            ∧ (execution_logs s0 = output_file s0 → execution_logs s2 = output_file s2)
            ∧ _inputs s2 = Some values ∧ events s2 = events s0 ++ new)
      as (Hf2 & Hl2 & Hi2 & He2) by (subst s2; cbn; by rewrite <- Hfile).
    assert (logged_inputs s2 = values) as Hls
      by (rewrite logged_inputs_default; by rewrite Hi2).
    set (acting := agent_to_use s2 task (current_manager s2)).
    set (tools := current_task_tools s2 task).
    clearbody s2 acting tools.
    destruct (async_execution task) eqn:Easync.
    + intros [= <-]. cbn [state futures task_outputs].
      exists written,
        (new ++ [ev_execute_async (length before) acting
                   (_set_context s2 task (task_outputs l)) tools]).
      cbn [state futures task_outputs].
      assert (∀ ev, output_file (emit ev s2) = output_file s2) as -> by done.
      assert (∀ ev, execution_logs (emit ev s2) = execution_logs s2) as Hel by done.
      assert (∀ ev, _inputs (emit ev s2) = _inputs s2) as -> by done.
      assert (∀ ev, events (emit ev s2) = events s2 ++ [ev]) as -> by done.
      rewrite !length_app, !fmap_app, !omap_app, Hidx, Htasks, Hdisp, Hstore.
      cbn [length fmap list_fmap omap list_omap dispatch_index store_index app].
      split; [done|]. split; [intros Heq; rewrite Hel; by apply Hl2|].
      split; [done|]. split; [lia|].
      split; [rewrite seq_app; cbn; do 2 f_equal; lia|].
      split; [by rewrite drop_app_le by lia|].
      split; [done|].
      split.
      { rewrite Hlid. f_equal. rewrite drop_app_le by lia.
        rewrite take_app_le; [done|]. rewrite length_drop. lia. }
      split; [done|]. split; [by rewrite He2, <- app_assoc|].
      split.
      { replace (length before + 1 - start) with (S (length before - start)) by lia.
        rewrite seq_S. do 2 f_equal. lia. }
      split; [by rewrite app_nil_r|].
      split; [apply Forall_app; split; [done|by repeat constructor]|].
      intros Hnil. by apply app_eq_nil in Hnil as [_ ?].
    + destruct (flush true (mkLoop (task_outputs l) (futures l) s2)) as [lf|e se] eqn:Ef;
        cbn [mbind run_bind]; [|done].
      apply flush_resolved in Ef as (fdone & Hres & Hfut & Hst & _).
      cbn [futures state] in Hres, Hst.
      assert (length (futures l) = length fdone) as Hfl
        by (rewrite Hres; unfold resolved; by rewrite length_fmap).
      destruct (log_resolved_rewritten old start fdone Hs s2 written Hf2)
        as (Hff & Hlf & Hef & Hif).
      { rewrite Hres in Hidx. unfold resolved in Hidx.
        rewrite <- list_fmap_compose, length_fmap in Hidx. exact Hidx. }
      cbn zeta in Hff, Hlf, Hef, Hif. rewrite <- Hst, Hls in Hff, Hef.
      rewrite <- Hst in Hlf, Hif.
      set (fentries := entries_of true values fdone) in *.
      assert (length fentries = length (futures l)) as Hflen
        by (subst fentries; unfold entries_of; by rewrite length_fmap).
      assert (log_task_index <$> fentries
              = seq (start + length written) (length (futures l))) as Hfidx.
      { rewrite <- Hidx, Hres. subst fentries. unfold entries_of, resolved.
        rewrite <- !list_fmap_compose. done. }
      assert (log_task_id <$> fentries
              = task_id <$> drop (start + length written) before) as Hfid.
      { rewrite <- Htasks, Hres. subst fentries. unfold entries_of, resolved.
        rewrite <- !list_fmap_compose. done. }
      destruct (execute acting task _ tools) as [o|]; [|done].
      intros [= <-].
      set (entry := mkLogEntry (task_id task) (expected_output task) o (length before)
                      values true).
      set (sync_event := ev_execute_sync (length before) acting
                           (_set_context (state lf) task (task_outputs lf)) tools).
      set (s3 := _store_execution_log task o (length before) true
                   (fill_task_output task o (emit sync_event (state lf)))).
      assert (logged_inputs (state lf) = values) as Hlsf
        by (rewrite logged_inputs_default; by rewrite Hif, Hi2).
      assert (length (written ++ fentries) = length before - start) as Hfull
        by (rewrite length_app; lia).
      assert (length before = start + length (written ++ fentries)) as Hpos by lia.
      assert (output_file s3 = rewritten old start ((written ++ fentries) ++ [entry]))
        as Hf3.
      { subst s3. unfold _store_execution_log. cbn.
        fold (logged_inputs (state lf)). rewrite Hlsf, Hff. fold entry.
        rewrite Hpos at 1. by apply rewritten_update. }
      assert (execution_logs s0 = output_file s0 → execution_logs s3 = output_file s3)
        as Hl3.
      { intros Heq. subst s3. unfold _store_execution_log. cbn.
        unfold update_execution_logs, file_update. by rewrite (Hlf (Hl2 Heq)). }
      assert (_inputs s3 = Some values) as Hi3 by (subst s3; cbn; by rewrite Hif).
      assert (events s3 = events s0 ++ new ++ flush_events fentries
                          ++ [sync_event; ev_store_execution_log (length before) entry])
        as He3.
      { subst s3. unfold _store_execution_log. cbn.
        fold (logged_inputs (state lf)). rewrite Hlsf, Hef, He2. fold entry.
        by rewrite <- !app_assoc. }
      clearbody s3.
      exists ((written ++ fentries) ++ [entry]),
        (new ++ flush_events fentries
             ++ [sync_event; ev_store_execution_log (length before) entry]).
      cbn [state futures task_outputs].
      rewrite Hfut, Hf3, Hi3, He3.
      rewrite !length_app, !fmap_app, !omap_app, flush_events_dispatch,
        flush_events_store, Hli, Hlid, Hfidx, Hfid, Hdisp, Hstore, Hflen.
      cbn [length fmap list_fmap omap list_omap dispatch_index store_index app
           sync_event entry log_task_index log_task_id].
      split; [done|]. split; [intros Heq; rewrite <- Hf3; by apply Hl3|].
      split; [done|]. split; [lia|].
      split; [done|].
      split; [by rewrite drop_ge by (rewrite length_app; cbn; lia)|].
      split.
      { rewrite <- seq_app, Nat.add_1_r, seq_S. do 2 f_equal. lia. }
      split.
      { rewrite drop_app_le by lia.
        rewrite (take_ge (drop start before ++ [task]))
          by (rewrite length_app, length_drop; cbn; lia).
        rewrite fmap_app. f_equal.
        rewrite <- fmap_app. f_equal.
        rewrite <- (take_drop (length written) (drop start before)) at 2.
        f_equal. by rewrite drop_drop. }
      split.
      { apply Forall_app. split; [apply Forall_app; split; [done|]|].
        - subst fentries. unfold entries_of. apply Forall_fmap, Forall_true. done.
        - by repeat constructor. }
      split; [done|].
      split.
      { replace (length before + 1 - start) with (S (length before - start)) by lia.
        rewrite seq_S. do 2 f_equal. lia. }
      split.
      { rewrite app_assoc, <- seq_app, Nat.add_1_r, seq_S. do 2 f_equal. lia. }
      split; [done|].
      intros _ _. exists entry.
      replace (length before + 1 - 1) with (start + length (written ++ fentries)) by lia.
      split; [by apply rewritten_lookup_last | done].
Qed.

Lemma run_tasks_replay_log (c : Crew) (old : list LogEntry) (start : nat)
    (values : gmap string string) (s0 : State) (rest : list Task) :
  start ≤ length old →
  ∀ (before : list Task) (l l' : Loop),
    replay_log old start values s0 before l →
    run_tasks (replay_task c old start) (length before) rest l = Done l' →
    replay_log old start values s0 (before ++ rest) l'.
Proof.
  intros Hs. induction rest as [|task rest IH]; intros before l l' Hinv;
    cbn [run_tasks].
  - intros [= <-]. by rewrite app_nil_r.
  - destruct (replay_task c old start (length before) task l) as [l1|e se] eqn:E1;
      cbn [mbind run_bind]; [|done].
    intros Hrest.
    pose proof (replay_task_log c old start values s0 before task l l1 Hs Hinv E1)
      as Hinv1.
    replace (S (length before)) with (length (before ++ [task])) in Hrest
      by (rewrite length_app; cbn; lia).
    apply (IH _ _ _ Hinv1) in Hrest. by rewrite <- app_assoc in Hrest.
Qed.

(** The log, the trace and the result of a replay that returns. *)
Lemma replay_from_task_log (c : Crew) (id : nat)
    (inputs : option (gmap string string)) (s s' : State) (out : CrewOutput)
    (start : nat) :
  _find_task_index id (output_file s) = Some start →
  replay_from_task c id inputs s = Done (out, s') →
  ∃ written,
    output_file s' = rewritten (output_file s) start written ∧
    length written = length (tasks c) - start ∧
    log_task_index <$> written = seq start (length (tasks c) - start) ∧
    log_task_id <$> written = task_id <$> drop start (tasks c) ∧
    Forall (λ e, was_replayed e = true
                 ∧ log_inputs e = replay_inputs inputs (output_file s) start)
           written ∧
    (execution_logs s = output_file s → execution_logs s' = output_file s') ∧
    (∃ entry, output_file s' !! (length (tasks c) - 1) = Some entry
              ∧ tasks c ≠ [] ∧ result_of out (log_output entry)) ∧
    ∃ new, events s' = events s ++ new ∧
           omap dispatch_index new = seq start (length (tasks c) - start) ∧
           omap store_index new = seq start (length (tasks c) - start).
Proof.
  intros Hfind. unfold replay_from_task. rewrite Hfind.
  assert (start ≤ length (output_file s)) as Hs.
  { apply find_task_index_Some in Hfind as (entry & He & _).
    apply lookup_lt_Some in He. lia. }
  set (old := output_file s) in *.
  set (values := replay_inputs inputs old start).
  set (s1 := set_inputs (Some values) s).
  destruct (match process c with
            | sequential => Done s1
            | hierarchical => _create_manager_agent c s1
            end) as [s2|e se] eqn:Em; cbn [mbind run_bind]; [|done].
  assert (output_file s2 = old ∧ execution_logs s2 = execution_logs s
          ∧ _inputs s2 = Some values ∧ events s2 = events s) as (Hf2 & Hl2 & Hi2 & He2).
  { destruct (process c).
    - by injection Em as <-.
    - unfold _create_manager_agent in Em. cbn in Em.
      destruct (current_manager s) as [m|]; [case_bool_decide; [done|]|];
        by injection Em as <-. }
  clear Em.
  destruct (run_tasks _ 0 (tasks c) _) as [l|e se] eqn:Er; cbn [mbind run_bind]; [|done].
  pose proof Er as Er0.
  apply (run_tasks_replay_log c old start values s (tasks c) Hs []) in Er.
  2:{ exists [], []. cbn [state futures task_outputs length app].
      rewrite Hf2, Hl2, Hi2, He2, app_nil_r, Nat.add_0_r, Nat.max_l by lia.
      unfold rewritten. cbn [app length]. rewrite Nat.add_0_r, take_drop.
      repeat split; try done. by rewrite drop_nil. }
  cbn [app] in Er.
  destruct Er as (written & new & Hfile & Hlogs & Hin & Hlen & Hidx & Htasks & Hli
                  & Hlid & Hflags & Hev & Hdisp & Hstore & Hasync & Hlast).
  unfold finish_replay.
  destruct (flush true l) as [lf|e se] eqn:Ef; cbn [mbind run_bind]; [|done].
  apply flush_resolved in Ef as (fdone & Hres & Hfut & Hst & Hout).
  assert (length (futures l) = length fdone) as Hfl
    by (rewrite Hres; unfold resolved; by rewrite length_fmap).
  destruct (log_resolved_rewritten old start fdone Hs (state l) written Hfile)
    as (Hff & Hlf & Hef & Hif).
  { rewrite Hres in Hidx. unfold resolved in Hidx.
    rewrite <- list_fmap_compose, length_fmap in Hidx. exact Hidx. }
  cbn zeta in Hff, Hlf, Hef, Hif.
  assert (logged_inputs (state l) = values) as Hls
    by (rewrite logged_inputs_default; by rewrite Hin).
  rewrite <- Hst, Hls in Hff, Hef. rewrite <- Hst in Hlf, Hif.
  set (fentries := entries_of true values fdone) in *.
  assert (length fentries = length (futures l)) as Hflen
    by (subst fentries; unfold entries_of; by rewrite length_fmap).
  assert (log_task_index <$> fentries
          = seq (start + length written) (length (futures l))) as Hfidx.
  { rewrite <- Hidx, Hres. subst fentries. unfold entries_of, resolved.
    rewrite <- !list_fmap_compose. done. }
  assert (log_task_id <$> fentries
          = task_id <$> drop (start + length written) (tasks c)) as Hfid.
  { rewrite <- Htasks, Hres. subst fentries. unfold entries_of, resolved.
    rewrite <- !list_fmap_compose. done. }
  destruct (task_outputs lf) as [|final [|more rest]] eqn:Eo; [done| |done].
  intros [= <- <-].
  assert (∃ entry, output_file (state lf) !! (length (tasks c) - 1) = Some entry
                   ∧ tasks c ≠ [] ∧ final = log_output entry) as Hresult.
  { destruct fdone as [|x [|y more]].
    - destruct (decide (tasks c = [])) as [Hnil|Hne].
      { rewrite Hnil in Er0. cbn in Er0. injection Er0 as <-. cbn in Hout.
        discriminate Hout. }
      destruct (Hlast Hres Hne) as (entry & He & Ho).
      exists entry. rewrite Hff. subst fentries. cbn. rewrite app_nil_r, <- Hfile.
      split; [done|]. split; [done|]. cbn in Hout. congruence.
    - cbn in Hout. injection Hout as ->. cbn [length] in Hfl.
      assert (length (tasks c) - 1 = start + length written) as -> by lia.
      eexists. rewrite Hff. subst fentries. cbn.
      split; [by apply rewritten_lookup_last|]. split; [|done].
      intros Hnil. rewrite Hnil in Hlen. cbn in Hlen. lia.
    - cbn in Hout. discriminate Hout. }
  assert (∀ st, output_file (_finish_execution c (raw final) st) = output_file st
                ∧ execution_logs (_finish_execution c (raw final) st) = execution_logs st
                ∧ ∃ tail, events (_finish_execution c (raw final) st) = events st ++ tail
                          ∧ omap dispatch_index tail = []
                          ∧ omap store_index tail = []) as Hfin.
  { intros st. unfold _finish_execution. destruct (truthy_max_rpm c); cbn.
    - repeat split; try done. eexists [_; _]. by rewrite <- app_assoc.
    - repeat split; try done. by eexists [_]. }
  destruct (Hfin (state lf)) as (Hfo & Hfl' & tail & Hfe & Htd & Hts).
  cbn [fst snd]. rewrite Hfo, Hfl', Hfe.
  assert (length (written ++ fentries) = length (tasks c) - start) as Hfull
    by (rewrite length_app; lia).
  exists (written ++ fentries).
  split; [done|]. split; [done|].
  split; [by rewrite fmap_app, Hli, Hfidx, <- seq_app, <- Hfull, length_app, Hflen|].
  split.
  { rewrite fmap_app, Hlid, Hfid, <- fmap_app. f_equal.
    rewrite <- (take_drop (length written) (drop start (tasks c))) at 2.
    f_equal. by rewrite drop_drop. }
  split.
  { apply Forall_app. split; [done|].
    subst fentries. unfold entries_of. apply Forall_fmap, Forall_true. done. }
  split; [intros Heq; by apply Hlf, Hlogs|].
  split.
  { destruct Hresult as (entry & He & Hne & ->). by exists entry. }
  exists (new ++ flush_events fentries ++ tail).
  rewrite Hef, Hev, !omap_app, flush_events_dispatch, flush_events_store, Hdisp,
    Hstore, Htd, Hts, Hfidx, !app_nil_r, <- seq_app, <- !app_assoc.
  split; [done|]. split; [done|].
  by rewrite <- Hfull, length_app, Hflen.
Qed.

End ReplayLog.

(** ** The log of a replay that fails *)

(** A flush of a replay that fails leaves the entries rewritten so far. *)
Lemma flush_raised_rewritten (old : list LogEntry) (start : nat)
    (written : list LogEntry) (outs : list TaskOutput)
    (pending : list (Task * Future * nat)) (s : State) (e : Error) (se : State) :
  start ≤ length old →
  output_file s = rewritten old start written →
  log_task_index <$> written = seq start (length written) →
  Forall (λ e, was_replayed e = true) written →
  (λ p, p.2) <$> pending = seq (start + length written) (length pending) →
  flush true (mkLoop outs pending s) = Raised e se →
  ∃ i, e = agent_failure i ∧ start + length written ≤ i
       ∧ i < start + length written + length pending
       ∧ replay_progress old start i se.
Proof.
  intros Hs Hfile Hli Hflags Hidx. unfold flush. cbn [futures state].
  destruct pending as [|p rest] eqn:Ep; [done|]. rewrite <- Ep in *. clear Ep p rest.
  destruct (_process_async_tasks pending true [] s) as [x|e' se'] eqn:E;
    cbn [mbind run_bind]; [done|].
  intros [= -> ->].
  apply process_async_tasks_Raised in E as (d1 & failed & i & behind & -> & -> & ->).
  rewrite length_app in Hidx |- *. cbn [length] in Hidx |- *.
  assert (length (resolved d1) = length d1) as Hrl by (unfold resolved; by rewrite length_fmap).
  rewrite Hrl in Hidx |- *.
  rewrite fmap_app, seq_app in Hidx. cbn in Hidx.
  apply app_inj_1 in Hidx as [Hidx1 Hidx2];
    [|by rewrite length_fmap, length_seq].
  injection Hidx2 as -> _.
  unfold resolved in Hidx1. rewrite <- list_fmap_compose in Hidx1.
  change ((λ x : Task * TaskOutput * nat, x.2) <$> d1
          = seq (start + length written) (length d1)) in Hidx1.
  destruct (log_resolved_rewritten old start d1 Hs s written Hfile Hidx1)
    as (Hff & _).
  cbn zeta in Hff.
  exists (start + length written + length d1).
  split; [done|]. split; [lia|]. split; [lia|].
  exists (written ++ entries_of true (logged_inputs s) d1).
  assert (length (entries_of true (logged_inputs s) d1) = length d1) as Hel
    by (unfold entries_of; by rewrite length_fmap).
  split; [done|]. split; [rewrite length_app; lia|].
  replace (start + length written + length d1 - start)
    with (length written + length d1) by lia.
  split.
  - rewrite fmap_app, Hli, seq_app. f_equal. unfold entries_of.
    rewrite <- list_fmap_compose. exact Hidx1.
  - apply Forall_app. split; [done|]. unfold entries_of.
    apply Forall_fmap, Forall_true. done.
Qed.

Section ReplayFailure.
Context `{Collaborators}.

Lemma replay_task_raised (c : Crew) (old : list LogEntry) (start : nat)
    (values : gmap string string) (s0 : State) (before : list Task) (task : Task)
    (l : Loop) (e : Error) (se : State) :
  start ≤ length old →
  replay_log old start values s0 before l →
  replay_task c old start (length before) task l = Raised e se →
  ∃ i, e = agent_failure i ∧ start ≤ i ∧ i ≤ length before
       ∧ replay_progress old start i se.
Proof.
  intros Hs (written & new & Hfile & Hlogs & Hin & Hlen & Hidx & Htasks & Hli & Hlid
             & Hflags & Hev & Hdisp & Hstore & Hasync & Hlast).
  assert (Forall (λ e, was_replayed e = true) written) as Hrep
    by (eapply Forall_impl; [exact Hflags|]; by intros ? [? _]).
  unfold replay_task. case_bool_decide as Hbelow.
  - destruct (lookup_lt_is_Some_2 old (length before)) as [entry ->]; [lia|]. done.
  - assert (start ≤ length before) as Hge by lia.
    rewrite Nat.max_r in Hlen by lia.
    destruct (add_worker_delegation_change c task (state l)) as [tn ->].
    set (s2 := set_current_manager _ _).
    assert (output_file s2 = rewritten old start written) as Hf2
      by (subst s2; cbn; by rewrite <- Hfile).
    set (acting := agent_to_use s2 task (current_manager s2)).
    set (tools := current_task_tools s2 task).
    clearbody s2 acting tools.
    destruct (async_execution task); [done|].
    destruct (flush true (mkLoop (task_outputs l) (futures l) s2)) as [lf|e' se'] eqn:Ef;
      cbn [mbind run_bind].
    + destruct (execute acting task _ tools) as [o|]; [done|].
      intros [= <- <-]. exists (length before).
      split; [done|]. split; [done|]. split; [done|].
      apply flush_resolved in Ef as (fdone & Hres & Hfut & Hst & _).
      cbn [futures state] in Hres, Hst.
      assert (length (futures l) = length fdone) as Hfl
        by (rewrite Hres; unfold resolved; by rewrite length_fmap).
      destruct (log_resolved_rewritten old start fdone Hs s2 written Hf2)
        as (Hff & _).
      { rewrite Hres in Hidx. unfold resolved in Hidx.
        rewrite <- list_fmap_compose, length_fmap in Hidx. exact Hidx. }
      cbn zeta in Hff. rewrite <- Hst in Hff.
      exists (written ++ entries_of true (logged_inputs s2) fdone).
      assert (length (entries_of true (logged_inputs s2) fdone) = length fdone) as Hel
        by (unfold entries_of; by rewrite length_fmap).
      split; [done|]. split; [rewrite length_app; lia|].
      replace (length before - start) with (length written + length fdone) by lia.
      split.
      * rewrite fmap_app, Hli, seq_app. f_equal. unfold entries_of.
        rewrite <- list_fmap_compose.
        rewrite Hres in Hidx. unfold resolved in Hidx.
        rewrite <- list_fmap_compose, length_fmap in Hidx. exact Hidx.
      * apply Forall_app. split; [done|]. unfold entries_of.
        apply Forall_fmap, Forall_true. done.
    + intros [= <- <-].
      apply (flush_raised_rewritten old start written) in Ef
        as (i & -> & Hlo & Hhi & Hp); try done.
      exists i. split; [done|]. split; [lia|]. split; [lia|done].
Qed.

Lemma run_tasks_replay_raised (c : Crew) (old : list LogEntry) (start : nat)
    (values : gmap string string) (s0 : State) (rest : list Task) (e : Error)
    (se : State) :
  start ≤ length old →
  ∀ (before : list Task) (l : Loop),
    replay_log old start values s0 before l →
    run_tasks (replay_task c old start) (length before) rest l = Raised e se →
    ∃ i, e = agent_failure i ∧ start ≤ i ∧ i < length (before ++ rest)
         ∧ replay_progress old start i se.
Proof.
  intros Hs. induction rest as [|task rest IH]; intros before l Hinv; cbn [run_tasks].
  { intros [=]. }
  destruct (replay_task c old start (length before) task l) as [l1|e1 se1] eqn:E1;
    cbn [mbind run_bind].
  - intros Hrest.
    pose proof (replay_task_log c old start values s0 before task l l1 Hs Hinv E1)
      as Hinv1.
    replace (S (length before)) with (length (before ++ [task])) in Hrest
      by (rewrite length_app; cbn; lia).
    apply (IH _ _ Hinv1) in Hrest. by rewrite <- app_assoc in Hrest.
  - intros [= <- <-].
    apply (replay_task_raised c old start values s0 before) in E1
      as (i & -> & Hlo & Hhi & Hp); [|done..].
    exists i. split; [done|]. split; [done|]. split; [|done].
    rewrite length_app. cbn. lia.
Qed.

(** Why a replay raises. *)
Lemma replay_errors (c : Crew) (id : nat) (inputs : option (gmap string string))
    (s se : State) (e : Error) :
  replay_from_task c id inputs s = Raised e se →
  (e = task_not_found id ∧ _find_task_index id (output_file s) = None ∧ se = s) ∨
  ∃ start,
    _find_task_index id (output_file s) = Some start ∧
    ((e = manager_should_not_have_tools ∧ process c = hierarchical
      ∧ manager_holds_tools s ∧ events se = events s
      ∧ output_file se = output_file s) ∨
     (∃ i, e = agent_failure i ∧ start ≤ i ∧ i < length (tasks c)
           ∧ replay_progress (output_file s) start i se) ∨
     (e = more_than_one_output
      ∧ (tasks c = [] ∨ trailing_async_pair (tasks c)))).
Proof.
  unfold replay_from_task.
  destruct (_find_task_index id (output_file s)) as [start|] eqn:Hfind.
  2:{ intros [= <- <-]. by left. }
  intros Hrun. right. exists start. split; [done|]. revert Hrun.
  assert (start ≤ length (output_file s)) as Hs.
  { apply find_task_index_Some in Hfind as (entry & He & _).
    apply lookup_lt_Some in He. lia. }
  set (old := output_file s) in *.
  set (values := replay_inputs inputs old start).
  set (s1 := set_inputs (Some values) s).
  destruct (match process c with
            | sequential => Done s1
            | hierarchical => _create_manager_agent c s1
            end) as [s2|e' se'] eqn:Em; cbn [mbind run_bind].
  2:{ intros [= <- <-]. left. destruct (process c) eqn:Ep; [done|].
      unfold _create_manager_agent in Em. cbn in Em.
      destruct (current_manager s) as [m|] eqn:Hm; [|done].
      case_bool_decide as Hlen; [|done]. injection Em as <- <-.
      split; [done|]. split; [done|]. split; [|done].
      exists m. split; [done|]. cbn in Hlen.
      destruct (agent_tools m); [cbn in Hlen; lia|done]. }
  assert (output_file s2 = old ∧ execution_logs s2 = execution_logs s
          ∧ _inputs s2 = Some values ∧ events s2 = events s) as (Hf2 & Hl2 & Hi2 & He2).
  { destruct (process c).
    - by injection Em as <-.
    - unfold _create_manager_agent in Em. cbn in Em.
      destruct (current_manager s) as [m|]; [case_bool_decide; [done|]|];
        by injection Em as <-. }
  clear Em.
  assert (replay_log old start values s [] (mkLoop [] [] s2)) as Hinv0.
  { exists [], []. cbn [state futures task_outputs length app].
    rewrite Hf2, Hl2, Hi2, He2, app_nil_r, Nat.add_0_r, Nat.max_l by lia.
    unfold rewritten. cbn [app length]. rewrite Nat.add_0_r, take_drop.
    repeat split; try done. by rewrite drop_nil. }
  destruct (run_tasks _ 0 (tasks c) _) as [l|e' se'] eqn:Er; cbn [mbind run_bind].
  2:{ intros [= <- <-]. right; left.
      apply (run_tasks_replay_raised c old start values s (tasks c) _ _ Hs []) in Er
        as (i & -> & ? & ? & ?); [|done].
      by exists i. }
  pose proof Er as Er0.
  apply (run_tasks_replay_log c old start values s (tasks c) Hs []) in Er; [|done].
  cbn [app] in Er.
  destruct Er as (written & new & Hfile & Hlogs & Hin & Hlen & Hidx & Htasks & Hli
                  & Hlid & Hflags & Hev & Hdisp & Hstore & Hasync & Hlast).
  assert (Forall (λ e, was_replayed e = true) written) as Hrep
    by (eapply Forall_impl; [exact Hflags|]; by intros ? [? _]).
  unfold finish_replay.
  destruct (flush true l) as [lf|e' se'] eqn:Ef; cbn [mbind run_bind].
  - apply flush_resolved in Ef as (fdone & Hres & Hfut & Hst & Hout).
    destruct (task_outputs lf) as [|final [|more rest]] eqn:Eo; [|done|];
      intros [= <- <-]; right; right; (split; [done|]).
    + left. destruct fdone as [|x more]; [|done].
      destruct (decide (tasks c = [])) as [Hnil|Hne]; [done|].
      destruct (Hlast Hres Hne) as (entry & _ & Ho). congruence.
    + right. destruct fdone as [|x [|y fdone]].
      * destruct (decide (tasks c = [])) as [Hnil|Hne].
        { rewrite Hnil in Er0. cbn in Er0. injection Er0 as <-. cbn in Hout.
          discriminate Hout. }
        destruct (Hlast Hres Hne) as (entry & _ & Ho). congruence.
      * cbn in Hout. discriminate Hout.
      * apply (async_tail_pair _ (start + length written)).
        -- rewrite <- Htasks, Hres. cbn. lia.
        -- rewrite <- Htasks. by apply Forall_fmap.
  - intros [= <- <-]. right; left.
    destruct l as [outs pending sl]. cbn [state futures] in *.
    apply (flush_raised_rewritten old start written) in Ef
      as (i & -> & Hlo & Hhi & Hp); try done.
    exists i. split; [done|]. split; [lia|]. split; [lia|done].
Qed.

(** X22.  Why a replay raises: the id is not in the log, and then the
    crew is left as it is; or the crew is hierarchical and already held a
    manager with tools, and then nothing was dispatched or logged; or a
    task at a position from the start on failed, and then the log has
    been rewritten from the start up to that position and nowhere else;
    or the rolling result list did not end with exactly one output, which
    happens only when the crew has no tasks or ends with two asynchronous
    tasks.  A replay never fails for a missing stored output. *)
Theorem replay_failures (c : Crew) (id : nat) (inputs : option (gmap string string))
    (s s' : State) (e : Error) :
  replay_from_task c id inputs s = Raised e s' →
  (e = task_not_found id ∧ _find_task_index id (output_file s) = None ∧ s' = s) ∨
  ∃ start,
    _find_task_index id (output_file s) = Some start ∧
    ((e = manager_should_not_have_tools ∧ process c = hierarchical
      ∧ manager_holds_tools s ∧ events s' = events s
      ∧ output_file s' = output_file s) ∨
     (∃ i, e = agent_failure i ∧ start ≤ i ∧ i < length (tasks c)
           ∧ replay_progress (output_file s) start i s') ∨
     (e = more_than_one_output
      ∧ (tasks c = [] ∨ trailing_async_pair (tasks c)))).
Proof. apply replay_errors. Qed.

End ReplayFailure.

Lemma replay_failures_witness :
  ∃ e s',
    @replay_from_task (failing_at (task_id task_C)) three_task_crew (task_id task_B)
      None three_task_crew_after_kickoff = Raised e s' ∧
    ((e = task_not_found (task_id task_B)
      ∧ _find_task_index (task_id task_B) (output_file three_task_crew_after_kickoff)
        = None
      ∧ s' = three_task_crew_after_kickoff) ∨
     ∃ start,
       _find_task_index (task_id task_B) (output_file three_task_crew_after_kickoff)
       = Some start ∧
       ((e = manager_should_not_have_tools ∧ process three_task_crew = hierarchical
         ∧ manager_holds_tools three_task_crew_after_kickoff
         ∧ events s' = events three_task_crew_after_kickoff
         ∧ output_file s' = output_file three_task_crew_after_kickoff) ∨
        (∃ i, e = agent_failure i ∧ start ≤ i ∧ i < length (tasks three_task_crew)
              ∧ replay_progress (output_file three_task_crew_after_kickoff) start i s') ∨
        (e = more_than_one_output
         ∧ (tasks three_task_crew = [] ∨ trailing_async_pair (tasks three_task_crew))))).
Proof.
  match eval vm_compute in
        (@replay_from_task (failing_at (task_id task_C)) three_task_crew
           (task_id task_B) None three_task_crew_after_kickoff) with
  | Raised ?e ?st =>
      exists e, st; split; [by vm_compute|];
      apply (@replay_failures (failing_at (task_id task_C)) three_task_crew
               (task_id task_B) None three_task_crew_after_kickoff st e);
        by vm_compute
  end.
Defined.

Section ReplayTheorems.
Context `{Collaborators}.

(** X18.  A replay that returns rewrites the log from the start position on and
    nowhere else: the entries below the start are the stored ones, the
    entries of the tasks from the start on are new, each at its own
    position with the id of its task, marked as replayed and recording the
    inputs of the replay, and stored entries beyond the task list stay;
    if the in-memory log agreed with the file before, it does after. *)
Theorem replay_rewrites_log_from_start (c : Crew) (id : nat)
    (inputs : option (gmap string string)) (s s' : State) (out : CrewOutput)
    (start : nat) :
  _find_task_index id (output_file s) = Some start →
  replay_from_task c id inputs s = Done (out, s') →
  ∃ written,
    output_file s' = rewritten (output_file s) start written ∧
    length written = length (tasks c) - start ∧
    log_task_index <$> written = seq start (length (tasks c) - start) ∧
    log_task_id <$> written = task_id <$> drop start (tasks c) ∧
    Forall (λ e, was_replayed e = true
                 ∧ log_inputs e = replay_inputs inputs (output_file s) start)
           written ∧
    (execution_logs s = output_file s → execution_logs s' = output_file s').
Proof.
  intros Hfind Hrun.
  destruct (replay_from_task_log c id inputs s s' out start Hfind Hrun)
    as (written & ? & ? & ? & ? & ? & ? & _).
  by exists written.
Qed.

(** X19.  A replay that returns has handed every task from the start position
    on to an agent exactly once, in the order of the task list, and has
    written the log entry of each of them exactly once, in that order;
    it has dispatched and logged nothing else. *)
Theorem replay_runs_tasks_from_start_once (c : Crew) (id : nat)
    (inputs : option (gmap string string)) (s s' : State) (out : CrewOutput)
    (start : nat) :
  _find_task_index id (output_file s) = Some start →
  replay_from_task c id inputs s = Done (out, s') →
  ∃ new, events s' = events s ++ new ∧
         omap dispatch_index new = seq start (length (tasks c) - start) ∧
         omap store_index new = seq start (length (tasks c) - start).
Proof.
  intros Hfind Hrun.
  by destruct (replay_from_task_log c id inputs s s' out start Hfind Hrun)
    as (written & _ & _ & _ & _ & _ & _ & _ & ?).
Qed.

(** X20.  The result of a replay that returns carries the raw text and the
    structured forms of the output the log holds for the last task of the
    crew, whether that task was run again or seeded from the log. *)
Theorem replay_returns_last_task (c : Crew) (id : nat)
    (inputs : option (gmap string string)) (s s' : State) (out : CrewOutput) :
  replay_from_task c id inputs s = Done (out, s') →
  ∃ entry,
    output_file s' !! (length (tasks c) - 1) = Some entry ∧ tasks c ≠ [] ∧
    result_of out (log_output entry).
Proof.
  intros Hrun.
  destruct (_find_task_index id (output_file s)) as [start|] eqn:Hfind.
  - by destruct (replay_from_task_log c id inputs s s' out start Hfind Hrun)
      as (written & _ & _ & _ & _ & _ & _ & ? & _).
  - unfold replay_from_task in Hrun. by rewrite Hfind in Hrun.
Qed.

End ReplayTheorems.

Lemma replay_rewrites_log_from_start_witness :
  ∃ out s',
    @replay_from_task echo_agents three_task_crew (task_id task_B) None
      three_task_crew_after_kickoff = Done (out, s') ∧
    ∃ written,
      output_file s' = rewritten (output_file three_task_crew_after_kickoff) 1 written ∧
      length written = length (tasks three_task_crew) - 1 ∧
      log_task_index <$> written = seq 1 (length (tasks three_task_crew) - 1) ∧
      log_task_id <$> written = task_id <$> drop 1 (tasks three_task_crew) ∧
      Forall (λ e, was_replayed e = true
                   ∧ log_inputs e
                     = replay_inputs None (output_file three_task_crew_after_kickoff) 1)
             written ∧
      (execution_logs three_task_crew_after_kickoff
       = output_file three_task_crew_after_kickoff →
       execution_logs s' = output_file s').
Proof.
  match eval vm_compute in
        (@replay_from_task echo_agents three_task_crew (task_id task_B) None
           three_task_crew_after_kickoff) with
  | Done (?o, ?st) =>
      exists o, st; split; [by vm_compute|];
      apply (@replay_rewrites_log_from_start echo_agents three_task_crew
               (task_id task_B) None three_task_crew_after_kickoff st o 1);
        by vm_compute
  end.
Defined.

Lemma replay_runs_tasks_from_start_once_witness :
  ∃ out s',
    @replay_from_task echo_agents three_task_crew (task_id task_B) None
      three_task_crew_after_kickoff = Done (out, s') ∧
    ∃ new, events s' = events three_task_crew_after_kickoff ++ new ∧
           omap dispatch_index new = seq 1 (length (tasks three_task_crew) - 1) ∧
           omap store_index new = seq 1 (length (tasks three_task_crew) - 1).
Proof.
  match eval vm_compute in
        (@replay_from_task echo_agents three_task_crew (task_id task_B) None
           three_task_crew_after_kickoff) with
  | Done (?o, ?st) =>
      exists o, st; split; [by vm_compute|];
      apply (@replay_runs_tasks_from_start_once echo_agents three_task_crew
               (task_id task_B) None three_task_crew_after_kickoff st o 1);
        by vm_compute
  end.
Defined.

Lemma replay_returns_last_task_witness :
  ∃ out s',
    @replay_from_task echo_agents three_task_crew (task_id task_B) None
      three_task_crew_after_kickoff = Done (out, s') ∧
    ∃ entry,
      output_file s' !! (length (tasks three_task_crew) - 1) = Some entry ∧
      tasks three_task_crew ≠ [] ∧ result_of out (log_output entry).
Proof.
  match eval vm_compute in
        (@replay_from_task echo_agents three_task_crew (task_id task_B) None
           three_task_crew_after_kickoff) with
  | Done (?o, ?st) =>
      exists o, st; split; [by vm_compute|];
      apply (@replay_returns_last_task echo_agents three_task_crew
               (task_id task_B) None three_task_crew_after_kickoff st o);
        by vm_compute
  end.
Defined.

(** ** The tools of the tasks *)

Lemma add_worker_delegation_same (c : Crew) (task : Task) (s : State) :
  current_task_tools (add_worker_delegation c task s) task
  = current_task_tools s task ++ delegation_added c s task.
Proof.
  unfold add_worker_delegation, delegation_added.
  destruct (agent task) as [a|]; [|by rewrite app_nil_r].
  destruct (allow_delegation (current_agent s a)); cbn [andb]; [|by rewrite app_nil_r].
  destruct (bool_decide (1 < length (agents c)) && _); [|by rewrite app_nil_r].
  unfold current_task_tools at 1. cbn. by rewrite lookup_insert_eq.
Qed.

Lemma add_worker_delegation_other (c : Crew) (task t : Task) (s : State) :
  task_id t ≠ task_id task →
  current_task_tools (add_worker_delegation c task s) t = current_task_tools s t.
Proof.
  intros Hne. unfold add_worker_delegation.
  destruct (agent task) as [a|]; [|done].
  destruct (allow_delegation (current_agent s a)); [|done].
  destruct (bool_decide (1 < length (agents c)) && _); [|done].
  unfold current_task_tools. cbn. by rewrite lookup_insert_ne.
Qed.

Lemma delegation_added_manager (c : Crew) (s s' : State) (t : Task) :
  current_manager s' = current_manager s →
  delegation_added c s' t = delegation_added c s t.
Proof. intros Hm. unfold delegation_added, current_agent. by rewrite Hm. Qed.

Lemma current_task_tools_now (s s' : State) (t : Task) :
  task_tools_now s' = task_tools_now s →
  current_task_tools s' t = current_task_tools s t.
Proof. intros Hn. unfold current_task_tools. by rewrite Hn. Qed.

Lemma log_resolved_tools (replayed : bool) (handles : list (Task * TaskOutput * nat)) :
  ∀ s, task_tools_now (foldl (log_resolved replayed) s handles) = task_tools_now s
       ∧ current_manager (foldl (log_resolved replayed) s handles) = current_manager s.
Proof.
  induction handles as [|x handles IH]; intros s; cbn [foldl]; [done|].
  destruct (IH (log_resolved replayed s x)) as [-> ->]. done.
Qed.

Lemma flush_tools (replayed : bool) (l lf : Loop) :
  flush replayed l = Done lf →
  task_tools_now (state lf) = task_tools_now (state l)
  ∧ current_manager (state lf) = current_manager (state l).
Proof.
  intros (handles & _ & _ & -> & _)%flush_resolved. apply log_resolved_tools.
Qed.

Section TaskTools.
Context `{Collaborators}.

Lemma execute_task_tools (c : Crew) (i : nat) (task : Task) (l l' : Loop) :
  execute_task c false i task l = Done l' →
  task_tools_now (state l') = task_tools_now (add_worker_delegation c task (state l))
  ∧ current_manager (state l') = current_manager (state l).
Proof.
  unfold execute_task.
  destruct (add_worker_delegation_change c task (state l)) as [tn Htn].
  assert (current_manager (add_worker_delegation c task (state l))
          = current_manager (state l)) as Hm by (by rewrite Htn).
  set (s2 := add_worker_delegation c task (state l)) in *. clearbody s2.
  destruct (async_execution task).
  - destruct (agent_to_use s2 task None); by intros [= <-].
  - destruct (flush false (mkLoop (task_outputs l) (futures l) s2)) as [lf|e se] eqn:Ef;
      cbn [mbind run_bind]; [|done].
    apply flush_tools in Ef as [Hn Hmf]. cbn [state] in Hn, Hmf.
    destruct (agent_to_use s2 task None) as [a|].
    + destruct (execute (Some a) task _ (agent_tools a)); [|done].
      intros [= <-]. cbn. by rewrite Hn, Hmf.
    + intros [= <-]. by rewrite Hn, Hmf.
Qed.

Lemma run_tasks_tools (c : Crew) (s0 : State) (rest : list Task) :
  NoDup (task_id <$> tasks c) →
  ∀ (before : list Task) (i : nat) (l l' : Loop),
    tasks c = before ++ rest →
    tools_extended c s0 before (state l) →
    run_tasks (execute_task c false) i rest l = Done l' →
    tools_extended c s0 (tasks c) (state l').
Proof.
  intros Hnodup. induction rest as [|task rest IH]; intros before i l l' Hsplit Hinv;
    cbn [run_tasks].
  - intros [= <-]. by rewrite Hsplit, app_nil_r.
  - destruct (execute_task c false i task l) as [l1|e se] eqn:E1; cbn [mbind run_bind];
      [|done].
    apply (IH (before ++ [task])); [by rewrite <- app_assoc|].
    apply execute_task_tools in E1 as [Hn Hm]. destruct Hinv as [Hm0 Htools].
    split; [by rewrite Hm|].
    intros t Ht. rewrite (current_task_tools_now _ _ _ Hn).
    assert (task_id task ∉ task_id <$> before) as Hfresh.
    { rewrite Hsplit, fmap_app in Hnodup. apply NoDup_app in Hnodup as (_ & Hd & _).
      intros Hin. apply (Hd _ Hin). cbn. by left. }
    assert (task ∈ tasks c) as Htask
      by (rewrite Hsplit; apply elem_of_app; right; by left).
    destruct (decide (task_id t = task_id task)) as [Heq|Hne].
    + assert (t = task) as ->.
      { apply list_elem_of_lookup in Ht as [j Hj].
        apply list_elem_of_lookup in Htask as [k Hk].
        assert (j = k) as ->; [|congruence].
        apply (NoDup_lookup _ _ _ (task_id task) Hnodup);
          rewrite list_lookup_fmap; [rewrite Hj; cbn; by rewrite Heq | by rewrite Hk]. }
      rewrite add_worker_delegation_same, (delegation_added_manager _ _ _ _ Hm0).
      rewrite (Htools task Htask), bool_decide_eq_false_2 by done.
      rewrite bool_decide_eq_true_2; [done|].
      rewrite fmap_app. apply elem_of_app. right. by left.
    + rewrite add_worker_delegation_other by done. rewrite (Htools t Ht).
      rewrite (bool_decide_ext (task_id t ∈ task_id <$> before ++ [task])
                 (task_id t ∈ task_id <$> before)); [done|].
      rewrite fmap_app, elem_of_app. cbn.
      rewrite list_elem_of_singleton. split; [by intros [?|?] | by left].
Qed.

(** X21.  However often it runs, a sequential kickoff that returns has appended
    to the tools of every task the delegation tools over the other agents
    of the crew, once, when the task's agent may delegate and the crew has
    more than one agent; the next kickoff will append the same tools
    again.  The ids of the tasks are taken to be distinct. *)
Theorem kickoff_extends_task_tools (c : Crew)
    (inputs : option (gmap string string)) (s s' : State) (out : CrewOutput)
    (t : Task) :
  process c = sequential →
  NoDup (task_id <$> tasks c) →
  kickoff c inputs s = Done (out, s') →
  t ∈ tasks c →
  current_task_tools s' t = current_task_tools s t ++ delegation_added c s t ∧
  delegation_added c s' t = delegation_added c s t.
Proof.
  intros Hp Hnodup Hrun Ht. revert Hrun. unfold kickoff. rewrite Hp.
  set (s1 := match inputs with
             | Some i => set_inputs (Some i) (set_output_file [] s)
             | None => set_output_file [] s
             end).
  assert (task_tools_now s1 = task_tools_now s
          ∧ current_manager s1 = current_manager s) as (Hn1 & Hm1)
    by (subst s1; by destruct inputs).
  clearbody s1. unfold _run_sequential_process, _execute_tasks.
  destruct (run_tasks _ 0 (tasks c) _) as [l|e se] eqn:Er; cbn [mbind run_bind]; [|done].
  apply (run_tasks_tools c s (tasks c) Hnodup []) in Er; [|done|].
  2:{ split; [done|]. intros t' _. cbn.
      unfold current_task_tools. cbn. by rewrite Hn1. }
  unfold finish_tasks.
  destruct (flush false l) as [lf|e se] eqn:Ef; cbn [mbind run_bind]; [|done].
  apply flush_tools in Ef as [Hnf Hmf].
  destruct (task_outputs lf) as [|final rest]; [done|]. cbn [fst snd].
  destruct (kickoff_usage_metrics (agents c)) as [usage|e]; [|done].
  intros [= <- <-]. destruct Er as [Hm Htools].
  assert (task_tools_now
            (set_usage_metrics (Some usage) (_finish_execution c (raw final) (state lf)))
          = task_tools_now (state l)) as Hn
    by (rewrite <- Hnf; unfold _finish_execution; by destruct (truthy_max_rpm c)).
  assert (current_manager
            (set_usage_metrics (Some usage) (_finish_execution c (raw final) (state lf)))
          = current_manager s) as Hms
    by (rewrite <- Hm, <- Hmf; unfold _finish_execution; by destruct (truthy_max_rpm c)).
  split; [|by apply delegation_added_manager].
  rewrite (current_task_tools_now _ _ _ Hn), (Htools t Ht).
  rewrite bool_decide_eq_true_2; [done|]. by apply list_elem_of_fmap_2.
Qed.

End TaskTools.

Lemma kickoff_extends_task_tools_witness :
  ∃ out s',
    @kickoff echo_agents delegating_crew None (initial_state delegating_crew)
    = Done (out, s') ∧
    current_task_tools s' delegating_task
    = current_task_tools (initial_state delegating_crew) delegating_task
      ++ delegation_added delegating_crew (initial_state delegating_crew)
           delegating_task ∧
    delegation_added delegating_crew s' delegating_task
    = delegation_added delegating_crew (initial_state delegating_crew) delegating_task.
Proof.
  match eval vm_compute in
        (@kickoff echo_agents delegating_crew None (initial_state delegating_crew)) with
  | Done (?o, ?st) =>
      exists o, st; split; [by vm_compute|];
      apply (@kickoff_extends_task_tools echo_agents delegating_crew None
               (initial_state delegating_crew) st o delegating_task);
        [done| |by vm_compute|by left]
  end.
  apply (bool_decide_unpack _). by vm_compute.
Defined.
